(** * News knowledge graph: chunking, graph upsert, backfill and retrieval

    A shallow embedding of the ingest and retrieval code of the repository
    ([Graph_Build.py], [Tools_Retriever.py], [app.py]) together with the
    properties its specification states about it.

    Layout: the Python values the code manipulates (module [Py]), the
    property graph and the Cypher statements the code sends to it (module
    [Neo4j]), then one module per source file, and finally the theorems. *)

From stdpp Require Import gmap strings list fin_maps pretty.
From Stdlib Require Import ZArith Lia.

Set Warnings "-register-all".
Local Open Scope Z_scope.

(* ===================================================================== *)
(** ** Python values *)
(* ===================================================================== *)

Module Py.

(** A Python [str] is a sequence of Unicode code points; [len] counts
    code points and slices cut between them. *)
Abbreviation pystr := (list N).

(** Exceptions (all of them subclasses of [Exception]). *)
Inductive exn : Type :=
| ValueError
| TypeError
| AttributeError
| JSONDecodeError
| UnicodeEncodeError
| ServiceError (code : N)
| HTTPException (status : Z).

(** Outcome of a call that may raise. *)
Abbreviation result A := (exn + A)%type.

Definition raise {A} (e : exn) : result A := inl e.

#[global] Instance result_ret : MRet (sum exn) := fun A a => inr a.
#[global] Instance result_bind : MBind (sum exn) := fun A B k m =>
  match m with
  | inl e => inl e
  | inr a => k a
  end.

(** Code point of an ASCII character of a source literal. *)
Definition ord (a : Ascii.ascii) : N := N.of_nat (Ascii.nat_of_ascii a).

(** The source files are UTF-8; a literal is read as its code points. *)
Fixpoint utf8_decode (bs : list N) : pystr :=
  match bs with
  | [] => []
  | b :: r =>
    if (b <? 0x80)%N then b :: utf8_decode r
    else if (b <? 0xE0)%N then
      match r with
      | c1 :: r1 =>
        N.lor (N.shiftl (N.land b 0x1F) 6) (N.land c1 0x3F) :: utf8_decode r1
      | _ => []
      end
    else if (b <? 0xF0)%N then
      match r with
      | c1 :: c2 :: r2 =>
        N.lor (N.shiftl (N.land b 0x0F) 12)
              (N.lor (N.shiftl (N.land c1 0x3F) 6) (N.land c2 0x3F))
        :: utf8_decode r2
      | _ => []
      end
    else
      match r with
      | c1 :: c2 :: c3 :: r3 =>
        N.lor (N.shiftl (N.land b 0x07) 18)
              (N.lor (N.shiftl (N.land c1 0x3F) 12)
                     (N.lor (N.shiftl (N.land c2 0x3F) 6) (N.land c3 0x3F)))
        :: utf8_decode r3
      | _ => []
      end
  end.

(** A string literal of the source. *)
Definition lit (s : string) : pystr :=
  utf8_decode (ord <$> String.list_ascii_of_string s).

(** [str(i)] for a non-negative [int]: its decimal digits. *)
Definition str_of_nat (i : nat) : pystr :=
  ord <$> String.list_ascii_of_string (pretty i).

(** [str.isspace] on one code point: the Unicode white space characters
    (category Zs, or bidirectional class WS, B or S). *)
Definition isspace (c : N) : bool :=
  ((0x09 <=? c) && (c <=? 0x0D) || (0x1C <=? c) && (c <=? 0x20)
   || (c =? 0x85) || (c =? 0xA0) || (c =? 0x1680)
   || (0x2000 <=? c) && (c <=? 0x200A)
   || (c =? 0x2028) || (c =? 0x2029) || (c =? 0x202F) || (c =? 0x205F)
   || (c =? 0x3000))%N.

Fixpoint lstrip (s : pystr) : pystr :=
  match s with
  | [] => []
  | c :: r => if isspace c then lstrip r else s
  end.

Definition rstrip (s : pystr) : pystr := reverse (lstrip (reverse s)).

(** [s.strip()] *)
Definition strip (s : pystr) : pystr := rstrip (lstrip s).

(** Truth value of a string or a list: non-empty. *)
Definition truthy {A} (l : list A) : bool :=
  match l with [] => false | _ => true end.

(** [len(s)] *)
Definition len {A} (s : list A) : Z := Z.of_nat (length s).

(** A slice bound is taken from the end when negative and clamped to
    [0 .. len]. *)
Definition slice_bound (n i : Z) : Z :=
  if i <? 0 then Z.max (i + n) 0 else Z.min i n.

(** [s[start:stop]] *)
Definition slice {A} (s : list A) (start stop : Z) : list A :=
  let lo := slice_bound (len s) start in
  let hi := slice_bound (len s) stop in
  take (Z.to_nat (hi - lo)) (drop (Z.to_nat lo) s).

(** Number of elements of [range(start, stop, step)], [step <> 0]. *)
Definition range_len (start stop step : Z) : Z :=
  if 0 <? step then
    if start <? stop then (stop - start - 1) / step + 1 else 0
  else
    if stop <? start then (start - stop - 1) / (- step) + 1 else 0.

(** [range(start, stop, step)]; a zero step raises [ValueError]. *)
Definition range (start stop step : Z) : result (list Z) :=
  if step =? 0 then raise ValueError
  else mret ((fun k : nat => start + Z.of_nat k * step)
              <$> seq 0 (Z.to_nat (range_len start stop step))).

(** A cell of a pandas row, or a value handed to one of the functions
    below: missing ([None], or the float [NaN] pandas uses for an empty
    cell) or a string.  Numeric cells are not modelled. *)
Inductive cell : Type :=
| PNone
| PNaN
| PStr (s : pystr).

(** [pd.isna(x)] *)
Definition isna (x : cell) : bool :=
  match x with
  | PNone | PNaN => true
  | PStr _ => false
  end.

(** [x == ''] *)
Definition is_empty_str (x : cell) : bool :=
  match x with
  | PStr [] => true
  | _ => false
  end.

(** [str(x)] *)
Definition str (x : cell) : pystr :=
  match x with
  | PNone => lit "None"
  | PNaN => lit "nan"
  | PStr s => s
  end.

(** Standard output is taken to be UTF-8, Python's default: [print]
    writes every string but one that holds a surrogate code point, on
    which it raises. *)
Definition is_surrogate (c : N) : bool := ((0xD800 <=? c) && (c <=? 0xDFFF))%N.

(** [print(text)], as far as it can raise. *)
Definition print_text (text : pystr) : result unit :=
  if existsb is_surrogate text then raise UnicodeEncodeError else mret tt.

(** [print(f"...{e}")], a line that holds the message of an exception.
    The messages of the exceptions modelled are plain text without
    surrogates (that of [UnicodeEncodeError] names the character by its
    escape), so the line is written. *)
Definition print_exn (e : exn) : result unit := mret tt.

(** *** What [json.loads] returns

    A JSON object becomes a [dict]: its keys in insertion order, each key
    once.  A number written without fraction and exponent becomes an
    [int]; any other number is kept as it is written.  The decoder itself
    is library code: the handler is modelled for any decoder. *)
Inductive json : Type :=
| JNull
| JBool (b : bool)
| JInt (i : Z)
| JFloat (lexeme : pystr)
| JStr (s : pystr)
| JArr (items : list json)
| JObj (members : list (pystr * json)).

(** [d.get(k)], [d[k] = v] and [d.pop(k, None)] on a [dict]. *)
Definition dict_get {V} (d : list (pystr * V)) (k : pystr) : option V :=
  snd <$> list_find (fun kv => kv.1 = k) d ≫= (fun r => Some r.2).

Definition dict_set {V} (d : list (pystr * V)) (k : pystr) (v : V)
  : list (pystr * V) :=
  if bool_decide (k ∈ d.*1)
  then (fun kv => if bool_decide (kv.1 = k) then (k, v) else kv) <$> d
  else d ++ [(k, v)].

Definition dict_pop {V} (d : list (pystr * V)) (k : pystr)
  : list (pystr * V) :=
  filter (fun kv => kv.1 ≠ k) d.

(** A decimal digit. *)
Definition is_digit (c : N) : bool := ((0x30 <=? c) && (c <=? 0x39))%N.

(** [s.startswith(prefix)], with what follows the prefix. *)
Fixpoint strip_prefix (prefix s : pystr) : option pystr :=
  match prefix, s with
  | [], _ => Some s
  | p :: ps, c :: r => if (p =? c)%N then strip_prefix ps r else None
  | _ :: _, [] => None
  end.

Definition startswith (s prefix : pystr) : bool :=
  bool_decide (is_Some (strip_prefix prefix s)).

(** [s.split('\n')] *)
Fixpoint split_lines (s : pystr) : list pystr :=
  match s with
  | [] => [[]]
  | c :: r =>
    if (c =? 0x0A)%N then [] :: split_lines r
    else match split_lines r with
         | l :: ls => (c :: l) :: ls
         | [] => [[c]]
         end
  end.

(** ['\n'.join(lines)] *)
Fixpoint join_lines (lines : list pystr) : pystr :=
  match lines with
  | [] => []
  | [l] => l
  | l :: ls => l ++ 0x0A%N :: join_lines ls
  end.

End Py.


(* ===================================================================== *)
(** ** The property graph and the Cypher statements run against it *)
(* ===================================================================== *)

Module Neo4j.
Import Py.

Inductive label : Type := Article | Content | Media | Category.
Inductive reltype : Type := HAS_CHUNK | PUBLISHED | BELONGS_TO.

(** A float is carried as its IEEE-754 binary64 bit pattern; the code
    never computes with one. *)
Abbreviation float := N.

(** The quiet NaN pandas stores in an empty cell. *)
Definition nan : float := 0x7FF8000000000000%N.

(** Property values.  Cypher [null] is the absence of a value. *)
Inductive value : Type :=
| VStr (s : pystr)
| VInt (i : Z)
| VFloat (f : float)
| VFloats (v : list float).

#[global] Instance label_eq_dec : EqDecision label.
Proof. solve_decision. Defined.
#[global] Instance reltype_eq_dec : EqDecision reltype.
Proof. solve_decision. Defined.
#[global] Instance value_eq_dec : EqDecision value.
Proof. solve_decision. Defined.

(** Nodes carry the identity the database gives them ([elementId]),
    their label and their properties. *)
Record node : Type := Node {
  nid : nat;
  nlabel : label;
  nprops : gmap string value
}.

(** Relationships are kept in a list: the store itself allows several
    relationships of one type between the same two nodes. *)
Record rel : Type := Rel {
  rsrc : nat;
  rtype : reltype;
  rdst : nat
}.

#[global] Instance rel_eq_dec : EqDecision rel.
Proof. solve_decision. Defined.

Record graph : Type := Graph {
  nodes : list node;
  rels : list rel
}.

Definition empty : graph := Graph [] [].

(** A query parameter as the driver sends it: [None] becomes [null], a
    missing pandas value the float NaN. *)
Definition param (x : cell) : option value :=
  match x with
  | PNone => None
  | PNaN => Some (VFloat nan)
  | PStr s => Some (VStr s)
  end.

(** The pattern [(x:l {k: v})]. *)
Definition matches (l : label) (k : string) (v : value) (n : node) : bool :=
  bool_decide (nlabel n = l) && bool_decide (nprops n !! k = Some v).

(** [SET x.k = v]; setting [null] removes the property. *)
Definition set_prop (m : gmap string value) (kv : string * option value)
  : gmap string value :=
  match kv.2 with
  | Some v => <[kv.1 := v]> m
  | None => delete kv.1 m
  end.

Definition set_props (sets : list (string * option value))
    (m : gmap string value) : gmap string value :=
  foldl set_prop m sets.

(** Identity of the next node created. *)
Definition fresh_id (g : graph) : nat := S (max_list (nid <$> nodes g)).

(** [MERGE (x:l {k: v}) SET x.k1 = v1, ...]: every node matching the
    pattern is bound to [x]; when there is none, one is created with the
    pattern's property.  The [SET] clause then applies to each binding. *)
Definition merge_node (l : label) (k : string) (v : value)
    (sets : list (string * option value)) (g : graph) : graph :=
  if existsb (matches l k v) (nodes g) then
    Graph ((fun n => if matches l k v n
                     then Node (nid n) (nlabel n) (set_props sets (nprops n))
                     else n) <$> nodes g)
          (rels g)
  else
    Graph (nodes g ++ [Node (fresh_id g) l (set_props sets {[k := v]})])
          (rels g).

(** [MATCH (x:l {k: v})]: identities of the nodes bound. *)
Definition match_ids (l : label) (k : string) (v : value) (g : graph)
  : list nat :=
  nid <$> filter (fun n => matches l k v n = true) (nodes g).

(** [MERGE (a)-[:t]->(c)] for bound [a] and [c], [r] being the
    relationship asked for: nothing happens when it is there already. *)
Definition merge_rel_between (g : graph) (r : rel) : graph :=
  if bool_decide (r ∈ rels g) then g
  else Graph (nodes g) (rels g ++ [r]).

(** [MATCH (x:l1 {k1: v1}) MATCH (y:l2 {k2: v2}) MERGE ...]: the two
    [MATCH] clauses yield every pair of bindings, and [MERGE] runs once per
    pair, for the relationship [mk x y] between them. *)
Definition merge_rel (l1 : label) (k1 : string) (v1 : value)
    (l2 : label) (k2 : string) (v2 : value) (mk : nat -> nat -> rel)
    (g : graph) : graph :=
  foldl merge_rel_between g
        (uncurry mk <$> list_prod (match_ids l1 k1 v1 g) (match_ids l2 k2 v2 g)).

(** [MATCH (n) DETACH DELETE n] *)
Definition detach_delete_all (g : graph) : graph := empty.

(** [x.k], [null] when [x] is [null] or has no such property. *)
Definition prop (k : string) (x : option node) : option value :=
  n ← x; nprops n !! k.

(** Nodes with a given identity and label. *)
Definition nodes_at (l : label) (i : nat) (g : graph) : list node :=
  filter (fun n => nid n = i ∧ nlabel n = l) (nodes g).

(** The pattern [(x)<-[:t]-(y:l)] for bound [x]: one binding of [y] per
    relationship. *)
Definition match_in (t : reltype) (l : label) (x : node) (g : graph)
  : list node :=
  r ← filter (fun r => rtype r = t ∧ rdst r = nid x) (rels g);
  nodes_at l (rsrc r) g.

(** The pattern [(x)-[:t]->(y:l)] for bound [x]. *)
Definition match_out (t : reltype) (l : label) (x : node) (g : graph)
  : list node :=
  r ← filter (fun r => rtype r = t ∧ rsrc r = nid x) (rels g);
  nodes_at l (rdst r) g.

(** [OPTIONAL MATCH]: the bindings found, or one [null] binding. *)
Definition optional {A} (found : list A) : list (option A) :=
  match found with
  | [] => [None]
  | _ => Some <$> found
  end.

End Neo4j.

(* ===================================================================== *)
(** ** Programs: a database session, standard output and exceptions *)
(* ===================================================================== *)

Module Run.
Import Py.

(** What the programs print.  A line is kept as the values formatted into
    it. *)
Inductive line : Type :=
| Progress (done : Z) (total : nat)
| RowError (idx : Z) (e : exn)
| EmbedStart (count : nat)
| EmbedProgress (done total : nat)
| EmbedError (node_id : nat) (e : exn)
| EmbedDone
| EmbedNothing.

Record world : Type := World {
  db : Neo4j.graph;
  stdout : list line
}.

(** A statement: it leaves a world behind whether it returns or raises. *)
Definition prog (A : Type) : Type := world -> result A * world.

#[global] Instance prog_ret : MRet prog := fun A a w => (inr a, w).
#[global] Instance prog_bind : MBind prog := fun A B k m w =>
  match m w with
  | (inl e, w') => (inl e, w')
  | (inr a, w') => k a w'
  end.

(** A value computed without touching the world. *)
Definition lift {A} (r : result A) : prog A := fun w => (r, w).

(** [try: body / except Exception as e: handler] *)
Definition try_except {A} (body : prog A) (handler : exn -> prog A) : prog A :=
  fun w =>
    match body w with
    | (inl e, w') => handler e w'
    | (inr a, w') => (inr a, w')
    end.

(** [for x in xs: body] *)
Fixpoint for_each {X} (xs : list X) (body : X -> prog unit) : prog unit :=
  match xs with
  | [] => mret tt
  | x :: rest => body x ;; for_each rest body
  end.

(** [print(...)] *)
Definition print (l : line) : prog unit :=
  fun w => (inr tt, World (db w) (stdout w ++ [l])).

(** [session.execute_write(tx, ...)]: the transaction function runs
    against the database and is committed. *)
Definition execute_write (tx : Neo4j.graph -> Neo4j.graph) : prog unit :=
  fun w => (inr tt, World (tx (db w)) (stdout w)).

(** [enumerate(xs, start)] *)
Fixpoint enumerate_from {X} (start : nat) (xs : list X) : list (nat * X) :=
  match xs with
  | [] => []
  | x :: rest => (start, x) :: enumerate_from (S start) rest
  end.

Definition enumerate {X} (xs : list X) : list (nat * X) := enumerate_from 0 xs.

End Run.

(* ===================================================================== *)
(** ** Graph_Build.py *)
(* ===================================================================== *)

Module Graph_Build.
Import Py Neo4j Run.

(** The windows [text[i:i + chunk_size]] the loop of [chunk_text] cuts,
    one per position [i]. *)
Definition window (text : pystr) (chunk_size i : Z) : pystr :=
  slice text i (i + chunk_size).

(** One turn of the loop of [chunk_text]. *)
Definition chunk_step (text : pystr) (chunk_size : Z) (chunks : list pystr)
    (i : Z) : list pystr :=
  let chunk := window text chunk_size i in
  if truthy (strip chunk) then chunks ++ [strip chunk] else chunks.

Definition chunk_text (text : cell) (chunk_size overlap : Z)
  : result (list pystr) :=
  if isna text || is_empty_str text then mret []
  else
    let text := str text in
    positions ← range 0 (len text) (chunk_size - overlap);
    mret (foldl (chunk_step text chunk_size) [] positions).

Definition clear_database (g : graph) : graph := detach_delete_all g.

(** The dictionary [article_data].  The identity of an article is a
    string; the other entries are whatever the row holds. *)
Record article_data : Type := ArticleData {
  article_id : pystr;
  title : cell;
  url : cell;
  published_date : cell
}.

(** The [SET] clause of [create_article_node]. *)
Definition article_sets (data : article_data) : list (string * option value) :=
  [("title", param (title data));
   ("url", param (url data));
   ("published_date", param (published_date data))].

Definition create_article_node (data : article_data) (g : graph) : graph :=
  merge_node Article "article_id" (VStr (article_id data)) (article_sets data) g.

(** [f"{article_id}_chunk_{i}"] *)
Definition content_id (article_id : pystr) (i : nat) : pystr :=
  article_id ++ lit "_chunk_" ++ str_of_nat i.

(** The [SET] clause of [create_content_nodes], for the chunk [ic.2] at
    index [ic.1]. *)
Definition content_sets (article_id : pystr) (data : article_data)
    (ic : nat * pystr) : list (string * option value) :=
  [("chunk", Some (VStr ic.2));
   ("article_id", Some (VStr article_id));
   ("title", param (title data));
   ("url", param (url data));
   ("published_date", param (published_date data));
   ("chunk_index", Some (VInt (Z.of_nat ic.1)))].

(** One turn of the loop of [create_content_nodes]. *)
Definition create_content_node (article_id : pystr) (data : article_data)
    (g : graph) (ic : nat * pystr) : graph :=
  let cid := content_id article_id ic.1 in
  let g1 :=
    merge_node Content "content_id" (VStr cid)
               (content_sets article_id data ic) g in
  merge_rel Article "article_id" (VStr article_id)
            Content "content_id" (VStr cid)
            (fun a c => Rel a HAS_CHUNK c) g1.

Definition create_content_nodes (article_id : pystr)
    (content_chunks : list pystr) (data : article_data) (g : graph) : graph :=
  foldl (create_content_node article_id data) g (enumerate content_chunks).

Definition create_media_node_and_relationship (article_id : pystr)
    (source : cell) (g : graph) : graph :=
  if isna source || is_empty_str source then g
  else
    match param source with
    | None => g
    | Some name =>
      let g1 := merge_node Media "name" name [] g in
      merge_rel Article "article_id" (VStr article_id) Media "name" name
                (fun a m => Rel m PUBLISHED a) g1
    end.

Definition create_category_node_and_relationship (article_id : pystr)
    (category : cell) (g : graph) : graph :=
  if isna category || is_empty_str category then g
  else
    match param category with
    | None => g
    | Some name =>
      let g1 := merge_node Category "name" name [] g in
      merge_rel Article "article_id" (VStr article_id) Category "name" name
                (fun a cat => Rel a BELONGS_TO cat) g1
    end.

(** A row of the data frame.  A column that the frame does not have is
    [None]; the column [article_id] holds strings.  A data frame is the
    list of its rows, each with its index label, in the order in which
    [df.iterrows()] yields them.  The labels are integers, as those of
    the default index, which numbers the rows from 0: pandas keeps them
    in 64 bits and [iterrows] yields them as [int], so that [idx + 1] and
    the percentage of the progress line are computed without an error.
    An index of another kind is not modelled. *)
Record row : Type := Row {
  col_article_id : option pystr;
  col_title : option cell;
  col_url : option cell;
  col_published_date : option cell;
  col_content : option cell;
  col_source : option cell;
  col_category : option cell
}.

(** [row.get(column, '')] *)
Definition get (c : option cell) : cell := default (PStr []) c.

(** The body of the [try] block of [build_graph_from_dataframe], for the
    row with the index label [idx] of a frame of [total] rows. *)
Definition ingest_row (total : nat) (chunk_size overlap : Z)
    (idx : Z) (r : row) : prog unit :=
  let article_id := default [] (col_article_id r) in
  let data :=
    ArticleData article_id (get (col_title r)) (get (col_url r))
                (PStr (str (get (col_published_date r)))) in
  execute_write (create_article_node data) ;;
  match col_content r with
  | Some c =>
    if negb (isna c) && negb (is_empty_str c) then
      content_chunks ← lift (chunk_text c chunk_size overlap);
      if truthy content_chunks
      then execute_write (create_content_nodes article_id content_chunks data)
      else mret tt
    else mret tt
  | None => mret tt
  end ;;
  match col_source r with
  | Some src => execute_write (create_media_node_and_relationship article_id src)
  | None => mret tt
  end ;;
  match col_category r with
  | Some cat =>
    execute_write (create_category_node_and_relationship article_id cat)
  | None => mret tt
  end ;;
  if (idx + 1) mod 10 =? 0 then print (Progress (idx + 1) total)
  else mret tt.

Definition build_graph_from_dataframe (df : list (Z * row))
    (chunk_size overlap : Z) : prog unit :=
  for_each df (fun ir =>
    try_except (ingest_row (length df) chunk_size overlap ir.1 ir.2)
               (fun e => print (RowError ir.1 e))).

End Graph_Build.

(* ===================================================================== *)
(** ** Tools_Retriever.py *)
(* ===================================================================== *)

Module Tools_Retriever.
Import Py Neo4j Run.

(** [MATCH (c:Content) WHERE c.embedding IS NULL
     RETURN elementId(c) AS id, c.chunk AS text] *)
Definition records_without_embedding (g : graph) : list (nat * option value) :=
  (fun n => (nid n, nprops n !! "chunk"))
    <$> filter (fun n => nlabel n = Content ∧ nprops n !! "embedding" = None)
               (nodes g).

(** [MATCH (c) WHERE elementId(c) = $id SET c.embedding = $embedding] *)
Definition set_embedding (id : nat) (embedding : list float) (g : graph)
  : graph :=
  Graph ((fun n => if bool_decide (nid n = id)
                   then Node (nid n) (nlabel n)
                             (<["embedding" := VFloats embedding]> (nprops n))
                   else n) <$> nodes g)
        (rels g).

(** One turn of the embedding loop, for the record at position [i]. *)
Definition embed_record (embed_query : option value -> result (list float))
    (total : nat) (ir : nat * (nat * option value)) : prog unit :=
  let node_id := ir.2.1 in
  let text := ir.2.2 in
  try_except
    (vector ← lift (embed_query text);
     execute_write (set_embedding node_id vector) ;;
     if ((ir.1 + 1) mod 10 =? 0)%nat
     then print (EmbedProgress (ir.1 + 1) total) else mret tt)
    (fun e => print (EmbedError node_id e)).

(** The embedding step of [initialize_graphrag]; [embed_query] is the
    embedding service, which returns a vector or raises. *)
Definition backfill_embeddings
    (embed_query : option value -> result (list float)) : prog unit :=
  fun w =>
    let records := records_without_embedding (db w) in
    (if truthy records then
       print (EmbedStart (length records)) ;;
       for_each (enumerate records) (embed_record embed_query (length records))
     else print EmbedNothing) w.

(** The map collected for one related article. *)
Record related : Type := Related {
  related_article_id : option value;
  related_title : option value;
  related_url : option value;
  related_published_date : option value
}.

#[global] Instance related_eq_dec : EqDecision related.
Proof. solve_decision. Defined.

(** The columns of [retrieval_query] that are not aggregated: the rows are
    grouped by them. *)
Record columns : Type := Columns {
  content_id : option value;
  chunk : option value;
  content_title : option value;
  article_id : option value;
  article_title : option value;
  article_url : option value;
  article_date : option value;
  category_name : option value;
  similarity_score : float
}.

#[global] Instance columns_eq_dec : EqDecision columns.
Proof. solve_decision. Defined.

(** A row returned by [retrieval_query]. *)
Record hit : Type := Hit {
  hit_columns : columns;
  related_articles : list related
}.

(** The [MATCH] and [OPTIONAL MATCH] clauses for one seed [(node, score)]
    of the vector index, and the expressions of [RETURN] on each binding. *)
Definition bindings (g : graph) (seed : node * float)
  : list (columns * related) :=
  let content := seed.1 in
  let score := seed.2 in
  article ← match_in HAS_CHUNK Article content g;
  category ← optional (match_out BELONGS_TO Category article g);
  related_article ←
    optional (filter (fun r => nid r ≠ nid article)
                     (c ← option_list category; match_in BELONGS_TO Article c g));
  [(Columns (prop "content_id" (Some content)) (prop "chunk" (Some content))
            (prop "title" (Some content))
            (prop "article_id" (Some article)) (prop "title" (Some article))
            (prop "url" (Some article)) (prop "published_date" (Some article))
            (prop "name" category) score,
    Related (prop "article_id" related_article) (prop "title" related_article)
            (prop "url" related_article)
            (prop "published_date" related_article))].

(** Grouping of the rows by their columns, in order of first appearance. *)
Definition add_to_group {K V} `{EqDecision K} (groups : list (K * list V))
    (kv : K * V) : list (K * list V) :=
  if bool_decide (kv.1 ∈ groups.*1) then
    (fun g => if bool_decide (g.1 = kv.1) then (g.1, g.2 ++ [kv.2]) else g)
      <$> groups
  else groups ++ [(kv.1, [kv.2])].

Definition group_by {K V} `{EqDecision K} (rows : list (K * V))
  : list (K * list V) :=
  foldl add_to_group [] rows.

(** [DISTINCT]: the first occurrence of each value. *)
Definition distinct {A} `{EqDecision A} (l : list A) : list A :=
  foldl (fun acc x => if bool_decide (x ∈ acc) then acc else acc ++ [x]) [] l.

(** [retrieval_query] run on the seeds of the vector search:
    [collect(DISTINCT {...})[0..5]] per group. *)
Definition retrieval_query (g : graph) (seeds : list (node * float))
  : list hit :=
  (fun kv => Hit kv.1 (take 5 (distinct kv.2)))
    <$> group_by (seeds ≫= bindings g).

End Tools_Retriever.

(* ===================================================================== *)
(** ** app.py *)
(* ===================================================================== *)

Module app.
Import Py Neo4j Run.

(** The embedding step of [initialize_graphrag]: the same two statements
    and the same loop body as in Tools_Retriever.py, and a closing line. *)
Definition backfill_embeddings
    (embed_query : option value -> result (list float)) : prog unit :=
  fun w =>
    let records := Tools_Retriever.records_without_embedding (db w) in
    (if truthy records then
       print (EmbedStart (length records)) ;;
       for_each (enumerate records)
                (Tools_Retriever.embed_record embed_query (length records)) ;;
       print EmbedDone
     else print EmbedNothing) w.

(** The grouping columns of [retrieval_query]; here the publisher is
    returned too. *)
Record columns : Type := Columns {
  content_id : option value;
  chunk : option value;
  content_title : option value;
  article_id : option value;
  article_title : option value;
  article_url : option value;
  article_date : option value;
  category_name : option value;
  media_name : option value;
  similarity_score : float
}.

#[global] Instance columns_eq_dec : EqDecision columns.
Proof. solve_decision. Defined.

Record hit : Type := Hit {
  hit_columns : columns;
  related_articles : list Tools_Retriever.related
}.

Definition bindings (g : graph) (seed : node * float)
  : list (columns * Tools_Retriever.related) :=
  let content := seed.1 in
  let score := seed.2 in
  article ← match_in HAS_CHUNK Article content g;
  category ← optional (match_out BELONGS_TO Category article g);
  media ← optional (match_in PUBLISHED Media article g);
  related_article ←
    optional (filter (fun r => nid r ≠ nid article)
                     (c ← option_list category; match_in BELONGS_TO Article c g));
  [(Columns (prop "content_id" (Some content)) (prop "chunk" (Some content))
            (prop "title" (Some content))
            (prop "article_id" (Some article)) (prop "title" (Some article))
            (prop "url" (Some article)) (prop "published_date" (Some article))
            (prop "name" category) (prop "name" media) score,
    Tools_Retriever.Related
      (prop "article_id" related_article) (prop "title" related_article)
      (prop "url" related_article) (prop "published_date" related_article))].

Definition retrieval_query (g : graph) (seeds : list (node * float))
  : list hit :=
  (fun kv => Hit kv.1 (take 5 (Tools_Retriever.distinct kv.2)))
    <$> Tools_Retriever.group_by (seeds ≫= bindings g).

(** The dictionary [icons]. *)
Definition icons : gmap pystr pystr :=
  <[lit "세계" := lit "🌍"]>
  (<[lit "IT/과학" := lit "💻"]>
  (<[lit "생활/문화" := lit "🎭"]>
  (<[lit "사회" := lit "👥"]>
  (<[lit "경제" := lit "💼"]>
  (<[lit "정치" := lit "🏛️"]> ∅))))).

Definition get_icon_for_category (category : pystr) : pystr :=
  default (lit "📰") (icons !! category).

(** [icons.get(category, "📰")] when [category] comes out of a decoded
    answer: a list or a dictionary cannot be looked up, any other value
    that is not a string is not a key of [icons]. *)
Definition icon_of (category : json) : result pystr :=
  match category with
  | JStr s => mret (get_icon_for_category s)
  | JArr _ | JObj _ => raise TypeError
  | _ => mret (lit "📰")
  end.

(** [x.get(k, d)]: only a dictionary has the method. *)
Definition get (x : json) (k : pystr) (d : json) : result json :=
  match x with
  | JObj members => mret (default d (dict_get members k))
  | _ => raise AttributeError
  end.

(** [for y in x]: a list yields its items, a dictionary its keys, a string
    its characters; nothing else can be iterated. *)
Definition iterate (x : json) : result (list json) :=
  match x with
  | JArr items => mret items
  | JObj members => mret (JStr <$> members.*1)
  | JStr s => mret ((fun c => JStr [c]) <$> s)
  | _ => raise TypeError
  end.

(** An entry of the list [sources] of the response. *)
Record source : Type := Source {
  id : nat;
  shortName : json;
  title : json;
  category : json;
  date : json;
  url : json;
  summary : json;
  icon : pystr
}.

(** What [search] returns: the sections as they are after the loop, and
    the sources gathered from them. *)
Record response : Type := Response {
  sections : json;
  sources : list source
}.

(** [sources.append({...})] for one [source_data]. *)
Definition convert_source (source_id : nat) (source_data : json)
  : result source :=
  media ← get source_data (lit "media") (JStr (lit "unknown"));
  title ← get source_data (lit "title") (JStr []);
  category ← get source_data (lit "category") (JStr (lit "기타"));
  date ← get source_data (lit "date") (JStr []);
  url ← get source_data (lit "url") (JStr []);
  summary ← get source_data (lit "summary") (JStr []);
  category' ← get source_data (lit "category") (JStr []);
  icon ← icon_of category';
  mret (Source source_id media title category date url summary icon).

(** The inner loop: the sources gathered so far, the next [source_id] and
    the [source_ids] of the section. *)
Fixpoint convert_sources (items : list json)
    (st : list source * nat * list nat) : result (list source * nat * list nat) :=
  match items with
  | [] => mret st
  | source_data :: rest =>
    s ← convert_source st.1.2 source_data;
    convert_sources rest (st.1.1 ++ [s], S st.1.2, st.2 ++ [st.1.2])
  end.

(** One turn of the outer loop; the section is left with its [sourceIds]
    and without its [sources]. *)
Definition convert_section (st : list source * nat) (section : json)
  : result (list source * nat * json) :=
  section_sources ← get section (lit "sources") (JArr []);
  items ← iterate section_sources;
  r ← convert_sources items (st.1, st.2, []);
  match section with
  | JObj members =>
    mret (r.1.1, r.1.2,
          JObj (dict_pop (dict_set members (lit "sourceIds")
                                   (JArr ((fun i => JInt (Z.of_nat i)) <$> r.2)))
                         (lit "sources")))
  | _ => raise AttributeError
  end.

Fixpoint convert_sections (items : list json) (st : list source * nat)
    (done : list json) : result (list source * nat * list json) :=
  match items with
  | [] => mret (st, done)
  | section :: rest =>
    r ← convert_section st section;
    convert_sections rest (r.1.1, r.1.2) (done ++ [r.2])
  end.

(** The answer without a surrounding markdown code fence. *)
Definition strip_code_fence (answer : pystr) : pystr :=
  let answer_text := strip answer in
  if startswith answer_text (lit "```") then
    let lines := split_lines answer_text in
    let lines := if startswith (hd [] lines) (lit "```")
                 then tail lines else lines in
    let lines := if truthy lines
                    && bool_decide (strip (List.last lines []) = lit "```")
                 then removelast lines else lines in
    strip (join_lines lines)
  else answer_text.

(** The dictionary built when the answer cannot be decoded. *)
Definition fallback (answer : pystr) : json :=
  JObj [(lit "sections",
         JArr [JObj [(lit "title", JStr (lit "검색 결과"));
                     (lit "content", JStr answer);
                     (lit "sources", JArr [])]])].

(** The body of the outer [try] block once the answer is there; [loads]
    stands for [json.loads].  When it raises, the handler prints the
    error and the first 500 characters of the text before it builds the
    fallback. *)
Definition build_response (loads : pystr -> result json) (answer : pystr)
  : result response :=
  let answer_text := strip_code_fence answer in
  parsed_result ←
    match loads answer_text with
    | inr parsed => mret parsed
    | inl e =>
      print_exn e ;;
      print_text (lit "응답 내용: " ++ slice answer_text 0 500) ;;
      mret (fallback answer)
    end;
  section_list ← get parsed_result (lit "sections") (JArr []);
  items ← iterate section_list;
  r ← convert_sections items ([], 1%nat) [];
  mret (Response (match section_list with
                  | JArr _ => JArr r.2
                  | _ => section_list
                  end) r.1.1).

(** The handler of [/search]; [rag] is the initialised retrieval and
    generation chain (or [None]), which returns the answer or raises. *)
Definition search_with (loads : pystr -> result json)
    (rag : option (pystr -> result pystr)) (query : pystr) : result response :=
  match rag with
  | None => raise (HTTPException 503)
  | Some rag_search =>
    match (answer ← rag_search query; build_response loads answer) with
    | inr r => inr r
    | inl e => print_exn e ;; raise (HTTPException 500)
    end
  end.

End app.

(* ===================================================================== *)
(** ** Notions used to state the properties *)
(* ===================================================================== *)

Module Spec.
Import Py Neo4j Run Graph_Build.

(** The windows [chunk_text] cuts out of [text], blank ones included. *)
Definition windows (text : pystr) (chunk_size overlap : Z) : list pystr :=
  match range 0 (len text) (chunk_size - overlap) with
  | inr positions => window text chunk_size <$> positions
  | inl _ => []
  end.

(** A window of which nothing is left after trimming. *)
Definition blank (w : pystr) : Prop := strip w = [].

(** A piece of text without the tail that the next window repeats: its
    first [chunk_size - overlap] characters. *)
Definition drop_overlap (chunk_size overlap : Z) (w : pystr) : pystr :=
  slice w 0 (chunk_size - overlap).

(** A string whose first character, if any, is not white space. *)
Definition clean_head (s : pystr) : Prop :=
  match s with
  | [] => True
  | c :: _ => isspace c = false
  end.

(** The nodes the pattern [(x:l {k: v})] binds. *)
Definition bound (l : label) (k : string) (v : value) (g : graph) : list node :=
  filter (fun n => matches l k v n = true) (nodes g).

(** The statement [MERGE (x:l {k: v}) SET ...] has nothing left to do: a
    node matches and every matching node already holds the values set. *)
Definition settled (l : label) (k : string) (v : value)
    (sets : list (string * option value)) (g : graph) : Prop :=
  bound l k v g <> []
  /\ Forall (fun n => set_props sets (nprops n) = nprops n) (bound l k v g).

(** The statement [MATCH ... MATCH ... MERGE (..)-[..]->(..)] has nothing
    left to do: every pair of bindings is related already. *)
Definition linked (l1 : label) (k1 : string) (v1 : value)
    (l2 : label) (k2 : string) (v2 : value) (mk : nat -> nat -> rel)
    (g : graph) : Prop :=
  Forall (fun r => r ∈ rels g)
         (uncurry mk <$> list_prod (match_ids l1 k1 v1 g) (match_ids l2 k2 v2 g)).

(** The chunk [ic.2] at index [ic.1] is in the graph, with its values and
    its relationship to the article. *)
Definition content_done (article_id : pystr) (data : article_data)
    (ic : nat * pystr) (g : graph) : Prop :=
  settled Content "content_id" (VStr (content_id article_id ic.1))
          (content_sets article_id data ic) g
  /\ linked Article "article_id" (VStr article_id)
            Content "content_id" (VStr (content_id article_id ic.1))
            (fun a c => Rel a HAS_CHUNK c) g.

(** The upsert pass for one article record and its chunks: the four
    transaction functions, in the order [build_graph_from_dataframe] runs
    them. *)
Definition upsert_pass (data : article_data) (content_chunks : list pystr)
    (source category : cell) (g : graph) : graph :=
  create_category_node_and_relationship (article_id data) category
    (create_media_node_and_relationship (article_id data) source
       (create_content_nodes (article_id data) content_chunks data
          (create_article_node data g))).

(** A step that leaves the nodes of label [l], and what they hold, as
    they are. *)
Definition keeps (l : label) (f : graph -> graph) : Prop :=
  forall k v g, bound l k v (f g) = bound l k v g.

(** A step that removes no relationship. *)
Definition grows (f : graph -> graph) : Prop :=
  forall g r, r ∈ rels g -> r ∈ rels (f g).

(** The publisher, or the category, [x] of the article is in the graph
    and related to it; nothing is asked when [x] is missing or empty. *)
Definition attached (l : label) (mk : nat -> nat -> rel) (article_id : pystr)
    (x : cell) (g : graph) : Prop :=
  if isna x || is_empty_str x then True
  else match param x with
       | None => True
       | Some name =>
         settled l "name" name [] g
         /\ linked Article "article_id" (VStr article_id) l "name" name mk g
       end.

(** Everything the upsert pass writes is in the graph. *)
Definition pass_done (data : article_data) (content_chunks : list pystr)
    (source category : cell) (g : graph) : Prop :=
  settled Article "article_id" (VStr (article_id data)) (article_sets data) g
  /\ Forall (fun ic => content_done (article_id data) data ic g)
            (enumerate content_chunks)
  /\ attached Media (fun a m => Rel m PUBLISHED a) (article_id data) source g
  /\ attached Category (fun a c => Rel a BELONGS_TO c) (article_id data)
               category g.

(** The dictionary [article_data] built from a row. *)
Definition row_data (r : row) : article_data :=
  ArticleData (default [] (col_article_id r)) (get (col_title r))
              (get (col_url r)) (PStr (str (get (col_published_date r)))).

(** What a row prints once its writes are done: the progress line, when
    its index label plus one is a multiple of ten. *)
Definition progress_line (total : nat) (idx : Z) : list line :=
  if (idx + 1) mod 10 =? 0 then [Progress (idx + 1) total] else [].

(** What one turn of the loop of [build_graph_from_dataframe] leaves
    behind, whether the row raised or not. *)
Definition ingest_step (total : nat) (chunk_size overlap : Z) (w : world)
    (ir : Z * row) : world :=
  (try_except (ingest_row total chunk_size overlap ir.1 ir.2)
              (fun e => print (RowError ir.1 e)) w).2.

(** An article with this identity is in the graph. *)
Definition has_article (article_id : pystr) (g : graph) : Prop :=
  bound Article "article_id" (VStr article_id) g <> [].

(** Number of nodes of a label. *)
Definition count_label (l : label) (g : graph) : nat :=
  length (filter (fun n => nlabel n = l) (nodes g)).

(** The node of the fragment [f] at index [i] of an article. *)
Definition is_fragment (article_id : pystr) (i : nat) (f : pystr) (c : node)
  : Prop :=
  nlabel c = Content
  /\ nprops c !! "content_id" = Some (VStr (content_id article_id i))
  /\ nprops c !! "chunk_index" = Some (VInt (Z.of_nat i))
  /\ nprops c !! "chunk" = Some (VStr f).

(** Number of fragments the embedding step reported as failed. *)
Definition is_embed_error (l : line) : bool :=
  match l with EmbedError _ _ => true | _ => false end.

Definition failures (out : list line) : nat :=
  length (filter (fun l => is_embed_error l = true) out).

(** No fragment node is without an embedding. *)
Definition embedded (g : graph) : Prop :=
  forall n, n ∈ nodes g -> nlabel n = Content ->
            nprops n !! "embedding" <> None.

(** Every fragment node without an embedding is one of [ids]. *)
Definition pending (ids : list nat) (g : graph) : Prop :=
  forall n, n ∈ nodes g -> nlabel n = Content ->
            nprops n !! "embedding" = None -> nid n ∈ ids.

(** What one turn of the embedding loop leaves behind. *)
Definition embed_step (embed_query : option value -> result (list float))
    (total : nat) (w : world) (ir : nat * (nat * option value)) : world :=
  match embed_query ir.2.2 with
  | inr vector =>
    World (Tools_Retriever.set_embedding ir.2.1 vector (db w))
          (stdout w ++ (if ((ir.1 + 1) mod 10 =? 0)%nat
                        then [EmbedProgress (ir.1 + 1) total] else []))
  | inl e => World (db w) (stdout w ++ [EmbedError ir.2.1 e])
  end.

(** The structure the prompt of app.py asks the answer to have: an
    object whose [sections] is a list of objects with a [title], a
    [content] and a list [sources] of objects whose six fields are
    strings. *)
Definition is_string (v : option json) : bool :=
  match v with Some (JStr _) => true | _ => false end.

Definition source_shape (v : json) : bool :=
  match v with
  | JObj d =>
    is_string (dict_get d (lit "title")) && is_string (dict_get d (lit "url"))
    && is_string (dict_get d (lit "date"))
    && is_string (dict_get d (lit "category"))
    && is_string (dict_get d (lit "media"))
    && is_string (dict_get d (lit "summary"))
  | _ => false
  end.

Definition section_shape (v : json) : bool :=
  match v with
  | JObj d =>
    is_string (dict_get d (lit "title")) && is_string (dict_get d (lit "content"))
    && match dict_get d (lit "sources") with
       | Some (JArr l) => forallb source_shape l
       | _ => false
       end
  | _ => false
  end.

Definition required_shape (v : json) : bool :=
  match v with
  | JObj d =>
    match dict_get d (lit "sections") with
    | Some (JArr l) => forallb section_shape l
    | _ => false
    end
  | _ => false
  end.

(** The answer, decoded, has the required structure. *)
Definition parses_to_shape (loads : pystr -> result json) (answer : pystr)
  : bool :=
  match loads (app.strip_code_fence answer) with
  | inr v => required_shape v
  | inl _ => false
  end.

(** The response built around a raw answer: one generic section holding
    the answer, and no source. *)
Definition fallback_response (answer : pystr) : app.response :=
  app.Response
    (JArr [JObj [(lit "title", JStr (lit "검색 결과"));
                 (lit "content", JStr answer);
                 (lit "sourceIds", JArr [])]])
    [].

End Spec.

(* ===================================================================== *)
(** ** Notions used to state what the statements keep *)
(* ===================================================================== *)

Module Store.
Import Py Neo4j Run Graph_Build Spec.

(** The property each label is merged on. *)
Definition key_of (l : label) : string :=
  match l with
  | Article => "article_id"
  | Content => "content_id"
  | Media => "name"
  | Category => "name"
  end.

(** The list [constraints] of [create_constraints]: a label and the
    property required to be unique among its nodes. *)
Definition constraints : list (label * string) :=
  [(Article, "article_id"); (Content, "content_id");
   (Media, "name"); (Category, "name")].

(** [REQUIRE x.k IS UNIQUE] for the nodes of label [l]: no two of them
    hold the same value. *)
Definition satisfies (g : graph) (c : label * string) : Prop :=
  forall v, (length (bound c.1 c.2 v g) <= 1)%nat.

(** Labels of the start and of the end of a relationship, as the three
    [MERGE] patterns of Graph_Build.py draw them. *)
Definition endpoints (t : reltype) : label * label :=
  match t with
  | HAS_CHUNK => (Article, Content)
  | PUBLISHED => (Media, Article)
  | BELONGS_TO => (Article, Category)
  end.

(** Every relationship starts and ends at a node of the graph, of the
    label its type asks for. *)
Definition well_typed (g : graph) : Prop :=
  forall r, r ∈ rels g ->
    nodes_at (endpoints (rtype r)).1 (rsrc r) g <> []
    /\ nodes_at (endpoints (rtype r)).2 (rdst r) g <> [].

(** No two nodes share an identity. *)
Definition unique_ids (g : graph) : Prop := NoDup (nid <$> nodes g).

(** The three relationship patterns: the label bound beside the article
    and the relationship drawn between the two. *)
Inductive link : label -> (nat -> nat -> rel) -> Prop :=
| link_chunk : link Content (fun a c => Rel a HAS_CHUNK c)
| link_media : link Media (fun a m => Rel m PUBLISHED a)
| link_category : link Category (fun a c => Rel a BELONGS_TO c).

(** A property of the graph that the two kinds of statement of
    Graph_Build.py keep: a [MERGE] of a node on its key with a [SET]
    that writes neither the key nor the embedding, and a [MERGE] of one
    of the three relationships. *)
Definition stable (P : graph -> Prop) : Prop :=
  (forall l v sets g,
      key_of l ∉ sets.*1 -> "embedding" ∉ sets.*1 ->
      P g -> P (merge_node l (key_of l) v sets g))
  /\ (forall v1 l2 v2 mk g,
         link l2 mk ->
         P g -> P (merge_rel Article "article_id" v1 l2 (key_of l2) v2 mk g)).

(** [g] has everything [g0] has: each relationship, and each node with
    its identity, its label, its key and its embedding. *)
Definition extends (g0 g : graph) : Prop :=
  (forall r, r ∈ rels g0 -> r ∈ rels g)
  /\ (forall n, n ∈ nodes g0 ->
        exists n', n' ∈ nodes g /\ nid n' = nid n /\ nlabel n' = nlabel n
                   /\ nprops n' !! key_of (nlabel n) = nprops n !! key_of (nlabel n)
                   /\ nprops n' !! "embedding" = nprops n !! "embedding").

(** Two graphs that differ at most in the embeddings their nodes hold. *)
Definition same_but_embedding (g0 g : graph) : Prop :=
  rels g = rels g0
  /\ Forall2 (fun n0 n => nid n = nid n0 /\ nlabel n = nlabel n0
                          /\ forall k, k <> "embedding" ->
                                       nprops n !! k = nprops n0 !! k)
             (nodes g0) (nodes g).

(** What one turn of the embedding loop, for the record [ir], does to
    the node [n]. *)
Definition embed_node (embed_query : option value -> result (list float))
    (n : node) (ir : nat * (nat * option value)) : node :=
  match embed_query ir.2.2 with
  | inr vector =>
    if bool_decide (nid n = ir.2.1)
    then Node (nid n) (nlabel n) (<["embedding" := VFloats vector]> (nprops n))
    else n
  | inl _ => n
  end.

(** The embedding service raises on the text of the record. *)
Definition rejects (embed_query : option value -> result (list float))
    (record : nat * option value) : bool :=
  match embed_query record.2 with
  | inl _ => true
  | inr _ => false
  end.

(** The list [sourceIds] of a section of the response, and the lists of
    all its sections one after the other. *)
Definition section_source_ids (section : json) : list json :=
  match section with
  | JObj members =>
    match dict_get members (lit "sourceIds") with
    | Some (JArr ids) => ids
    | _ => []
    end
  | _ => []
  end.

Definition response_source_ids (sections : json) : list json :=
  match sections with
  | JArr items => items ≫= section_source_ids
  | _ => []
  end.

(** [k in section] *)
Definition has_key (k : pystr) (section : json) : bool :=
  match section with
  | JObj members => bool_decide (k ∈ members.*1)
  | _ => false
  end.

End Store.

(* ===================================================================== *)
(** ** Data_Scrapping.py *)
(* ===================================================================== *)

Module Data_Scrapping.
Import Py.

(** [needle in s] for two strings. *)
Fixpoint contains (needle s : pystr) : bool :=
  if startswith s needle then true
  else match s with
       | [] => false
       | _ :: r => contains needle r
       end.

(** An element of the page, as far as the function looks at it: what
    [element.get_attribute('href')] returns, a string or [None], or
    raises. *)
Abbreviation element := (result (option pystr)).

(** The list [selectors]. *)
Definition selectors : list pystr :=
  [lit "a.sa_text_lede"; lit "a.sa_text_strong"; lit ".sa_text a";
   lit ".cluster_text_headline a"; lit ".cluster_text_lede a"].

(** The condition under which [url] is appended; [None] is false. *)
Definition wanted (url : option pystr) (article_links : list pystr) : bool :=
  match url with
  | Some url =>
    truthy url && contains (lit "news.naver.com") url
    && contains (lit "/article/") url
    && negb (contains (lit "/comment/") url)
    && negb (bool_decide (url ∈ article_links))
  | None => false
  end.

(** [article_links.append(url)] *)
Definition append (article_links : list pystr) (url : option pystr)
  : list pystr :=
  article_links ++ option_list url.

(** The inner loop, over the elements of one selector: the links
    gathered when it ends or breaks, and the exception when it raises. *)
Fixpoint scan_elements (num_articles : Z) (elements : list element)
    (article_links : list pystr) : list pystr * option exn :=
  match elements with
  | [] => (article_links, None)
  | element :: rest =>
    match element with
    | inl e => (article_links, Some e)
    | inr url =>
      if wanted url article_links then
        let article_links := append article_links url in
        if num_articles <=? len article_links then (article_links, None)
        else scan_elements num_articles rest article_links
      else scan_elements num_articles rest article_links
    end
  end.

(** The outer loop, over the selectors; [find_elements] is
    [driver.find_elements(By.CSS_SELECTOR, selector)]. *)
Fixpoint scan_selectors (find_elements : pystr -> result (list element))
    (num_articles : Z) (selectors : list pystr) (article_links : list pystr)
  : list pystr * option exn :=
  match selectors with
  | [] => (article_links, None)
  | selector :: rest =>
    match find_elements selector with
    | inl e => (article_links, Some e)
    | inr elements =>
      match scan_elements num_articles elements article_links with
      | (article_links, Some e) => (article_links, Some e)
      | (article_links, None) =>
        if num_articles <=? len article_links then (article_links, None)
        else scan_selectors find_elements num_articles rest article_links
      end
    end
  end.

(** The two lines the function prints. *)
Inductive line : Type :=
| Collected (count : nat)
| CollectFailed (e : exn).

(** [get_article_links]: what it returns or raises, and what it prints.
    [driver_get] is [driver.get], which runs outside the [try] block. *)
Definition get_article_links (driver_get : pystr -> result unit)
    (find_elements : pystr -> result (list element))
    (category_url : pystr) (num_articles : Z)
  : result (list pystr) * list line :=
  match driver_get category_url with
  | inl e => (inl e, [])
  | inr _ =>
    let r := scan_selectors find_elements num_articles selectors [] in
    (inr (slice r.1 0 num_articles),
     [match r.2 with
      | None => Collected (length r.1)
      | Some e => CollectFailed e
      end])
  end.

(** The links of a list of addresses that the condition lets through,
    each once, in order: the loop without its [break]. *)
Definition collect (article_links : list pystr) (urls : list (option pystr))
  : list pystr :=
  foldl (fun links url => if wanted url links then append links url else links)
        article_links urls.

(** An address the function accepts. *)
Definition article_address (u : pystr) : Prop :=
  u <> [] /\ contains (lit "news.naver.com") u = true
  /\ contains (lit "/article/") u = true
  /\ contains (lit "/comment/") u = false.

(** The address [u] is the [href] of an element that one of the
    selectors finds. *)
Definition on_page (find_elements : pystr -> result (list element))
    (selectors : list pystr) (u : pystr) : Prop :=
  exists selector elements,
    selector ∈ selectors /\ find_elements selector = inr elements
    /\ inr (Some u) ∈ elements.

End Data_Scrapping.

(* ===================================================================== *)
(** * Properties *)
(* ===================================================================== *)

Import Py Neo4j Run Spec.

(** ** Strings and slices *)

Section strings.
Implicit Types s w : pystr.

Lemma lstrip_clean_head s : clean_head (lstrip s).
Proof.
  induction s as [|c s IH]; simpl; [done|].
  destruct (isspace c) eqn:E; [done|]. by simpl.
Qed.

Lemma lstrip_id s : clean_head s -> lstrip s = s.
Proof. destruct s as [|c s]; simpl; [done|]. by intros ->. Qed.

Lemma lstrip_suffix s : exists p, s = p ++ lstrip s.
Proof.
  induction s as [|c s [p IH]]; simpl; [by exists []|].
  destruct (isspace c); [|by exists []].
  exists (c :: p). simpl. by f_equal.
Qed.

Lemma rstrip_prefix s : exists q, s = rstrip s ++ q.
Proof.
  destruct (lstrip_suffix (reverse s)) as [p Hp].
  exists (reverse p). unfold rstrip.
  rewrite <- reverse_app, <- Hp. by rewrite reverse_involutive.
Qed.

Lemma rstrip_id s : clean_head (reverse s) -> rstrip s = s.
Proof.
  intros H. unfold rstrip. rewrite lstrip_id by done.
  apply reverse_involutive.
Qed.

Lemma rstrip_clean_head s : clean_head s -> clean_head (rstrip s).
Proof.
  intros H. destruct (rstrip_prefix s) as [q Hq].
  destruct (rstrip s) as [|c r] eqn:E; [done|].
  rewrite Hq in H. exact H.
Qed.

Lemma strip_idemp s : strip (strip s) = strip s.
Proof.
  unfold strip at 1.
  rewrite lstrip_id.
  - apply rstrip_id. unfold strip, rstrip.
    rewrite reverse_involutive. apply lstrip_clean_head.
  - unfold strip. apply rstrip_clean_head, lstrip_clean_head.
Qed.

Lemma clean_head_Forall s : Forall (fun c => isspace c = false) s -> clean_head s.
Proof. by destruct 1. Qed.

(** Trimming leaves a string without white space as it is. *)
Lemma strip_no_space s : Forall (fun c => isspace c = false) s -> strip s = s.
Proof.
  intros H. unfold strip.
  rewrite (lstrip_id s) by by apply clean_head_Forall.
  apply rstrip_id, clean_head_Forall. by apply Forall_reverse.
Qed.

(** A slice between two non-negative bounds. *)
Lemma slice_take_drop {A} (l : list A) (i c : Z) :
  0 <= i -> 0 <= c ->
  slice l i (i + c) = take (Z.to_nat c) (drop (Z.to_nat i) l).
Proof.
  intros Hi Hc. unfold slice, slice_bound, len.
  destruct (Z.ltb_spec i 0); [lia|].
  destruct (Z.ltb_spec (i + c) 0); [lia|].
  destruct (decide (i <= Z.of_nat (length l))) as [Hle|Hgt].
  - rewrite (Z.min_l i) by lia.
    destruct (decide (i + c <= Z.of_nat (length l))).
    + rewrite Z.min_l by lia. f_equal. lia.
    + rewrite Z.min_r by lia.
      rewrite !take_ge; [done| |]; rewrite length_drop; lia.
  - rewrite !Z.min_r by lia.
    rewrite Z.sub_diag. simpl. rewrite take_0.
    rewrite drop_ge by lia. by rewrite take_nil.
Qed.

Lemma range_zero_step a b : range a b 0 = raise ValueError.
Proof. done. Qed.

Lemma range_negative_step (n step : Z) :
  0 <= n -> step < 0 -> range 0 n step = mret [].
Proof.
  intros Hn Hs. unfold range, range_len.
  destruct (Z.eqb_spec step 0); [lia|].
  destruct (Z.ltb_spec 0 step); [lia|].
  destruct (Z.ltb_spec n 0); [lia|]. done.
Qed.

(** The positions of a forward walk over [0 .. n). *)
Lemma range_positive_step (n step : Z) :
  0 <= n -> 0 < step ->
  exists m : nat,
    range 0 n step = mret ((fun k : nat => Z.of_nat k * step) <$> seq 0 m)
    /\ n <= Z.of_nat m * step
    /\ (forall k : nat, (k < m)%nat -> Z.of_nat k * step < n).
Proof.
  intros Hn Hs. unfold range, range_len.
  destruct (Z.eqb_spec step 0); [lia|].
  destruct (Z.ltb_spec 0 step); [|lia].
  destruct (Z.ltb_spec 0 n) as [Hpos|Hz].
  - exists (Z.to_nat ((n - 0 - 1) / step + 1)).
    assert (0 <= (n - 0 - 1) / step) by (apply Z.div_pos; lia).
    pose proof (Z.mul_div_le (n - 0 - 1) step Hs).
    pose proof (Z.mul_succ_div_gt (n - 0 - 1) step Hs).
    split; [done|]. split; [nia|].
    intros k Hk. nia.
  - exists 0%nat. replace n with 0 by lia. split; [done|]. split; [lia|].
    intros k Hk. lia.
Qed.

End strings.

(** ** The chunker *)

Section chunker.
Import Graph_Build.
Implicit Types text w : pystr.

(** The loop of [chunk_text] keeps the windows that are not blank, trimmed
    and in order. *)
Lemma chunk_loop text chunk_size (positions : list Z) (chunks : list pystr) :
  foldl (chunk_step text chunk_size) chunks positions
  = chunks ++ (strip <$> filter (fun w => ¬ blank w)
                                (window text chunk_size <$> positions)).
Proof.
  revert chunks. induction positions as [|i ps IH]; intros chunks; simpl.
  - by rewrite app_nil_r.
  - rewrite IH. unfold chunk_step, blank.
    rewrite filter_cons.
    destruct (strip (window text chunk_size i)) as [|c r] eqn:E; simpl.
    + done.
    + by rewrite E, <- app_assoc.
Qed.

Lemma chunk_text_windows text chunk_size overlap :
  chunk_size - overlap <> 0 ->
  chunk_text (PStr text) chunk_size overlap
  = mret (strip <$> filter (fun w => ¬ blank w) (windows text chunk_size overlap)).
Proof.
  intros Hstep. unfold chunk_text, windows. simpl.
  destruct text as [|c text']; simpl.
  - unfold range. destruct (Z.eqb_spec (chunk_size - overlap) 0); [done|].
    simpl. unfold range_len. simpl.
    by destruct (0 <? chunk_size - overlap).
  - set (text := c :: text').
    destruct (range 0 (len text) (chunk_size - overlap)) as [e|ps] eqn:E.
    + unfold range in E.
      destruct (Z.eqb_spec (chunk_size - overlap) 0); [done|]. done.
    + simpl. by rewrite chunk_loop.
Qed.

(** The windows, each cut down to the stride, are the text. *)
Lemma windows_cover text chunk_size overlap :
  0 <= overlap < chunk_size ->
  concat (drop_overlap chunk_size overlap <$> windows text chunk_size overlap)
  = text.
Proof.
  intros Hov. unfold windows.
  destruct (range_positive_step (len text) (chunk_size - overlap))
    as (m & -> & Hm & _); [unfold len; lia | lia |].
  simpl. set (s := Z.to_nat (chunk_size - overlap)).
  assert (Hs : (0 < s)%nat) by (unfold s; lia).
  rewrite <- !list_fmap_compose.
  assert (Hpiece : forall k : nat,
    (drop_overlap chunk_size overlap ∘ window text chunk_size
       ∘ (fun k : nat => Z.of_nat k * (chunk_size - overlap))) k
    = take s (drop (k * s) text)).
  { intros k. simpl. unfold drop_overlap, window.
    rewrite (slice_take_drop text) by lia.
    rewrite (slice_take_drop _ 0 (chunk_size - overlap)) by lia.
    change (Z.to_nat 0) with 0%nat. rewrite drop_0, take_take. fold s.
    replace (Z.to_nat (Z.of_nat k * (chunk_size - overlap))) with (k * s)%nat
      by (unfold s; nia).
    f_equal. unfold s. lia. }
  rewrite (list_fmap_ext _ (fun k : nat => take s (drop (k * s) text)))
    by (intros ? ? _; apply Hpiece).
  assert (Hcat : forall n : nat,
    concat ((fun k : nat => take s (drop (k * s) text)) <$> seq 0 n)
    = take (n * s) text).
  { induction n as [|n IH]; [by rewrite take_0|].
    rewrite seq_S, fmap_app, concat_app, IH. simpl.
    rewrite app_nil_r, take_take_drop. f_equal. lia. }
  rewrite Hcat. apply take_ge. unfold len, s in *. nia.
Qed.

(** No window of a non-empty stretch of a text without white space is
    blank, and trimming does not change it. *)
Lemma windows_no_space text chunk_size overlap :
  0 <= overlap < chunk_size ->
  Forall (fun c => isspace c = false) text ->
  Forall (fun w => strip w = w /\ w <> []) (windows text chunk_size overlap).
Proof.
  intros Hov Hns. unfold windows.
  destruct (range_positive_step (len text) (chunk_size - overlap))
    as (m & -> & _ & Hlt); [unfold len; lia | lia |].
  apply Forall_fmap, Forall_fmap, Forall_forall.
  intros k Hk. apply elem_of_seq in Hk. simpl.
  specialize (Hlt k ltac:(lia)). unfold window.
  rewrite slice_take_drop by nia. split.
  - apply strip_no_space. apply Forall_take, Forall_drop, Hns.
  - intros Hnil. apply (f_equal length) in Hnil.
    rewrite length_take, length_drop in Hnil. unfold len in Hlt.
    simpl in Hnil. nia.
Qed.

End chunker.

(** C5.  [chunk_text] applied to the empty string, to [None] or to NaN
    returns the empty list of fragments and raises nothing, whatever the
    two parameters are (a zero stride included). *)
Theorem chunk_text_missing_input (chunk_size overlap : Z) :
  Graph_Build.chunk_text (PStr []) chunk_size overlap = inr []
  /\ Graph_Build.chunk_text PNone chunk_size overlap = inr []
  /\ Graph_Build.chunk_text PNaN chunk_size overlap = inr [].
Proof. by repeat split. Qed.

(** C4, as stated, fails: with [chunk_size - overlap] negative a non-empty
    text gives the empty list and no error. *)
Lemma chunk_text_negative_stride_counterexample :
  lit "a" <> [] /\ 50 - 500 <= 0
  /\ Graph_Build.chunk_text (PStr (lit "a")) 50 500 = inr [].
Proof. split; [discriminate|]. split; [lia | reflexivity]. Qed.

(** C4, amended.  For a non-empty text and [chunk_size - overlap <= 0],
    [chunk_text] stops at once: it raises [ValueError] when the stride is
    zero, and returns the empty list, without an error, when the stride is
    negative. *)
Theorem chunk_text_bad_stride (text : pystr) (chunk_size overlap : Z) :
  text <> [] ->
  chunk_size - overlap <= 0 ->
  Graph_Build.chunk_text (PStr text) chunk_size overlap
  = if chunk_size - overlap =? 0 then inl ValueError else inr [].
Proof.
  intros Htext Hstep. unfold Graph_Build.chunk_text.
  destruct text as [|c text]; [done|]. simpl.
  destruct (Z.eqb_spec (chunk_size - overlap) 0) as [->|Hne].
  - done.
  - rewrite range_negative_step by (unfold len; lia). done.
Qed.

Lemma chunk_text_bad_stride_witness :
  Graph_Build.chunk_text (PStr (lit "ab")) 3 3 = inl ValueError
  /\ Graph_Build.chunk_text (PStr (lit "ab")) 3 7 = inr [].
Proof.
  split.
  - apply (chunk_text_bad_stride (lit "ab") 3 3); [done | lia].
  - apply (chunk_text_bad_stride (lit "ab") 3 7); [done | lia].
Defined.

(** C2, as stated, fails: the fragments are trimmed, so white space at the
    edge of a window is lost and the text cannot be put together again. *)
Lemma chunk_text_reassembly_counterexample :
  50 < 500
  /\ Graph_Build.chunk_text (PStr (lit " a")) 500 50 = inr [lit "a"]
  /\ concat (drop_overlap 500 50 <$> [lit "a"]) <> lit " a".
Proof. split; [lia|]. split; [reflexivity|]. vm_compute. discriminate. Qed.

(** C2, amended.  For [0 <= overlap < chunk_size], the fragments returned
    are the windows [text[i:i + chunk_size]] that are not blank, trimmed;
    the windows, each without the tail the next one repeats, concatenate
    to the text, and so do the fragments themselves when the text holds no
    white space; no fragment is empty after trimming. *)
Theorem chunk_text_reassembles (text : pystr) (chunk_size overlap : Z) :
  0 <= overlap < chunk_size ->
  exists fragments,
    Graph_Build.chunk_text (PStr text) chunk_size overlap = inr fragments
    /\ fragments = strip <$> filter (fun w => ¬ blank w)
                                    (windows text chunk_size overlap)
    /\ concat (drop_overlap chunk_size overlap
                 <$> windows text chunk_size overlap) = text
    /\ (Forall (fun c => isspace c = false) text ->
        concat (drop_overlap chunk_size overlap <$> fragments) = text)
    /\ Forall (fun f => strip f <> []) fragments.
Proof.
  intros Hov. eexists. split; [apply chunk_text_windows; lia|].
  split; [done|]. split; [by apply windows_cover|]. split.
  - intros Hns.
    pose proof (windows_no_space text chunk_size overlap Hov Hns) as Hw.
    rewrite <- (windows_cover text chunk_size overlap Hov) at 2.
    f_equal. f_equal.
    induction Hw as [|w ws [Hw1 Hw2] _ IH]; [done|].
    rewrite filter_cons. unfold blank at 1.
    rewrite decide_True by congruence.
    rewrite fmap_cons. by rewrite Hw1, IH.
  - apply Forall_fmap, Forall_forall. intros w Hw.
    apply list_elem_of_filter in Hw as [Hw _]. simpl.
    by rewrite strip_idemp.
Qed.

Lemma chunk_text_reassembles_witness :
  exists fragments,
    Graph_Build.chunk_text (PStr (lit "abcdefg")) 3 1 = inr fragments
    /\ fragments = strip <$> filter (fun w => ¬ blank w) (windows (lit "abcdefg") 3 1)
    /\ concat (drop_overlap 3 1 <$> windows (lit "abcdefg") 3 1) = lit "abcdefg"
    /\ (Forall (fun c => isspace c = false) (lit "abcdefg") ->
        concat (drop_overlap 3 1 <$> fragments) = lit "abcdefg")
    /\ Forall (fun f => strip f <> []) fragments.
Proof. apply (chunk_text_reassembles (lit "abcdefg") 3 1). lia. Defined.

(** ** The graph store *)

Section store.
Implicit Types (g : graph) (n : node) (l : label) (k : string) (v : value).
Implicit Types (sets : list (string * option value)) (m : gmap string value).

Lemma set_prop_lookup_ne m (kv : string * option value) j :
  kv.1 <> j -> set_prop m kv !! j = m !! j.
Proof.
  destruct kv as [k [v|]]; unfold set_prop; simpl; intros H.
  - by rewrite lookup_insert_ne.
  - by rewrite lookup_delete_ne.
Qed.

Lemma set_prop_lookup_eq m (kv : string * option value) :
  set_prop m kv !! kv.1 = kv.2.
Proof.
  destruct kv as [k [v|]]; unfold set_prop; simpl.
  - apply lookup_insert_eq.
  - apply lookup_delete_eq.
Qed.

Lemma set_props_cons sets kv m :
  set_props (kv :: sets) m = set_props sets (set_prop m kv).
Proof. done. Qed.

Lemma set_props_snoc sets kv m :
  set_props (sets ++ [kv]) m = set_prop (set_props sets m) kv.
Proof. unfold set_props. by rewrite foldl_app. Qed.

(** A [SET] clause leaves the properties it does not name alone. *)
Lemma set_props_lookup_notin sets m j :
  j ∉ sets.*1 -> set_props sets m !! j = m !! j.
Proof.
  revert m. induction sets as [|kv sets IH]; intros m H; [done|].
  rewrite fmap_cons, not_elem_of_cons in H. destruct H as [Hne Hnotin].
  rewrite set_props_cons, IH by done.
  apply set_prop_lookup_ne. congruence.
Qed.

Lemma set_props_lookup_ext sets m1 m2 j :
  m1 !! j = m2 !! j -> set_props sets m1 !! j = set_props sets m2 !! j.
Proof.
  revert m1 m2. induction sets as [|kv sets IH]; intros m1 m2 H; [done|].
  rewrite !set_props_cons. apply IH.
  destruct (decide (kv.1 = j)) as [<-|Hne].
  - by rewrite !set_prop_lookup_eq.
  - by rewrite !set_prop_lookup_ne.
Qed.

(** Running a [SET] clause a second time changes nothing. *)
Lemma set_props_idemp sets m :
  set_props sets (set_props sets m) = set_props sets m.
Proof.
  induction sets as [|kv sets IH] using rev_ind; [done|].
  rewrite !set_props_snoc. apply map_eq. intros j.
  destruct (decide (kv.1 = j)) as [<-|Hne].
  - by rewrite !set_prop_lookup_eq.
  - rewrite !set_prop_lookup_ne by done.
    rewrite <- IH at 2. apply set_props_lookup_ext.
    by rewrite set_prop_lookup_ne.
Qed.

Lemma matches_true l k v n :
  matches l k v n = true <-> nlabel n = l /\ nprops n !! k = Some v.
Proof.
  unfold matches. rewrite andb_true_iff, !bool_decide_eq_true. done.
Qed.

Lemma matches_set_props l k v sets i lb m :
  k ∉ sets.*1 ->
  matches l k v (Node i lb (set_props sets m)) = matches l k v (Node i lb m).
Proof.
  intros H. unfold matches. simpl. by rewrite set_props_lookup_notin.
Qed.

Lemma elem_of_bound l k v g n :
  n ∈ bound l k v g <-> n ∈ nodes g /\ matches l k v n = true.
Proof. unfold bound. rewrite list_elem_of_filter. tauto. Qed.

Lemma existsb_bound l k v g :
  existsb (matches l k v) (nodes g) = true <-> bound l k v g <> [].
Proof.
  rewrite existsb_exists. split.
  - intros (n & Hin & Hm) Hnil.
    assert (n ∈ bound l k v g) as Hb
      by (apply elem_of_bound; split; [by apply list_elem_of_In|done]).
    rewrite Hnil in Hb. by apply not_elem_of_nil in Hb.
  - intros Hne. destruct (bound l k v g) as [|n b] eqn:E; [done|].
    assert (n ∈ bound l k v g) as Hb by (rewrite E; left).
    apply elem_of_bound in Hb as [Hin Hm].
    exists n. split; [by apply list_elem_of_In|done].
Qed.

Lemma match_ids_bound l k v g : match_ids l k v g = nid <$> bound l k v g.
Proof. done. Qed.

(** *** Relationships *)

Lemma merge_rels_nodes (rs : list rel) g :
  nodes (foldl merge_rel_between g rs) = nodes g.
Proof.
  revert g. induction rs as [|r rs IH]; intros g; [done|].
  simpl. rewrite IH. unfold merge_rel_between. by case_bool_decide.
Qed.

Lemma merge_rels_mono (rs : list rel) g r :
  r ∈ rels g -> r ∈ rels (foldl merge_rel_between g rs).
Proof.
  revert g. induction rs as [|r' rs IH]; intros g H; [done|].
  simpl. apply IH. unfold merge_rel_between.
  case_bool_decide; [done|]. simpl. set_solver.
Qed.

Lemma merge_rels_in (rs : list rel) g :
  Forall (fun r => r ∈ rels (foldl merge_rel_between g rs)) rs.
Proof.
  revert g. induction rs as [|r rs IH]; intros g; [done|].
  constructor; [|apply IH]. simpl. apply merge_rels_mono.
  unfold merge_rel_between. case_bool_decide; [done|]. simpl. set_solver.
Qed.

Lemma merge_rels_id (rs : list rel) g :
  Forall (fun r => r ∈ rels g) rs -> foldl merge_rel_between g rs = g.
Proof.
  induction 1 as [|r rs Hr _ IH]; [done|].
  simpl. unfold merge_rel_between at 2.
  by rewrite bool_decide_eq_true_2.
Qed.

Lemma merge_rel_nodes l1 k1 v1 l2 k2 v2 mk g :
  nodes (merge_rel l1 k1 v1 l2 k2 v2 mk g) = nodes g.
Proof. apply merge_rels_nodes. Qed.

Lemma merge_rel_mono l1 k1 v1 l2 k2 v2 mk g r :
  r ∈ rels g -> r ∈ rels (merge_rel l1 k1 v1 l2 k2 v2 mk g).
Proof. apply merge_rels_mono. Qed.

Lemma bound_nodes l k v g g' : nodes g' = nodes g -> bound l k v g' = bound l k v g.
Proof. unfold bound. by intros ->. Qed.

Lemma merge_rel_bound l1 k1 v1 l2 k2 v2 mk l k v g :
  bound l k v (merge_rel l1 k1 v1 l2 k2 v2 mk g) = bound l k v g.
Proof. apply bound_nodes, merge_rel_nodes. Qed.

(** After the statement, every pair of bindings is related. *)
Lemma merge_rel_links l1 k1 v1 l2 k2 v2 mk g :
  linked l1 k1 v1 l2 k2 v2 mk (merge_rel l1 k1 v1 l2 k2 v2 mk g).
Proof.
  unfold linked. rewrite !match_ids_bound, !merge_rel_bound.
  apply merge_rels_in.
Qed.

(** Once every pair is related, the statement changes nothing. *)
Lemma merge_rel_linked l1 k1 v1 l2 k2 v2 mk g :
  linked l1 k1 v1 l2 k2 v2 mk g -> merge_rel l1 k1 v1 l2 k2 v2 mk g = g.
Proof. apply merge_rels_id. Qed.

Lemma linked_preserved l1 k1 v1 l2 k2 v2 mk g g' :
  bound l1 k1 v1 g' = bound l1 k1 v1 g ->
  bound l2 k2 v2 g' = bound l2 k2 v2 g ->
  (forall r, r ∈ rels g -> r ∈ rels g') ->
  linked l1 k1 v1 l2 k2 v2 mk g -> linked l1 k1 v1 l2 k2 v2 mk g'.
Proof.
  unfold linked. rewrite !match_ids_bound. intros -> -> Hsub H.
  eapply Forall_impl; [exact H|]. done.
Qed.

Lemma settled_preserved l k v sets g g' :
  bound l k v g' = bound l k v g -> settled l k v sets g -> settled l k v sets g'.
Proof. unfold settled. by intros ->. Qed.

End store.

(** *** Nodes *)

Section merge_node.
Implicit Types (g : graph) (n : node) (l : label) (k : string) (v : value).
Implicit Types (sets : list (string * option value)).

Lemma merge_node_rels l k v sets g : rels (merge_node l k v sets g) = rels g.
Proof. unfold merge_node. by destruct (existsb _ _). Qed.

(** Once the statement is settled, it changes nothing. *)
Lemma merge_node_settled l k v sets g :
  settled l k v sets g -> merge_node l k v sets g = g.
Proof.
  intros [Hne Hall]. unfold merge_node.
  rewrite (proj2 (existsb_bound l k v g) Hne).
  destruct g as [ns rs]. simpl. f_equal.
  rewrite Forall_forall in Hall.
  rewrite <- (list_fmap_id ns) at 2. apply list_fmap_ext.
  intros i n Hn. simpl.
  destruct (matches l k v n) eqn:Hm; [|done].
  rewrite Hall; [by destruct n|].
  apply elem_of_bound. split; [|done]. by eapply list_elem_of_lookup_2.
Qed.

(** The statement settles itself, as long as the [SET] clause does not
    overwrite the key of the pattern. *)
Lemma merge_node_settles l k v sets g :
  k ∉ sets.*1 -> settled l k v sets (merge_node l k v sets g).
Proof.
  intros Hk. unfold merge_node.
  destruct (existsb (matches l k v) (nodes g)) eqn:Hex.
  - apply existsb_exists in Hex as (n0 & Hin0 & Hm0).
    apply list_elem_of_In in Hin0. split.
    + intros Hnil.
      assert (Node (nid n0) (nlabel n0) (set_props sets (nprops n0))
              ∈ bound l k v
                  (Graph ((fun n => if matches l k v n
                                    then Node (nid n) (nlabel n)
                                              (set_props sets (nprops n))
                                    else n) <$> nodes g) (rels g))) as Hb.
      { apply elem_of_bound. simpl. split.
        - apply list_elem_of_fmap. exists n0. by rewrite Hm0.
        - rewrite matches_set_props by done. by destruct n0. }
      rewrite Hnil in Hb. by apply not_elem_of_nil in Hb.
    + apply Forall_forall. intros n' Hn'.
      apply elem_of_bound in Hn' as [Hin Hm]. simpl in Hin.
      apply list_elem_of_fmap in Hin as (n & -> & Hn).
      destruct (matches l k v n) eqn:E.
      * simpl. apply set_props_idemp.
      * congruence.
  - assert (bound l k v g = []) as Hnil.
    { destruct (bound l k v g) eqn:E; [done|].
      assert (bound l k v g <> []) as H by (by rewrite E).
      apply existsb_bound in H. congruence. }
    assert (matches l k v (Node (fresh_id g) l (set_props sets {[k := v]}))
            = true) as Hnew.
    { rewrite matches_set_props by done. apply matches_true. simpl.
      split; [done|]. apply lookup_singleton_eq. }
    unfold settled, bound. simpl. rewrite filter_app.
    fold (bound l k v g). rewrite Hnil. simpl.
    rewrite filter_cons, decide_True by done. rewrite filter_nil.
    split; [done|]. repeat constructor. simpl. apply set_props_idemp.
Qed.

(** A pattern is independent of a [MERGE ... SET] statement when it asks
    for another label, or for another value of the same key, which the
    [SET] clause leaves alone. *)
Lemma merge_node_bound_other l k v sets l' k' v' g :
  l <> l' \/ (k' = k /\ v' <> v /\ k ∉ sets.*1) ->
  bound l' k' v' (merge_node l k v sets g) = bound l' k' v' g.
Proof.
  intros Hind.
  assert (Hold : forall n, matches l k v n = true -> matches l' k' v' n = false).
  { intros n Hm. apply matches_true in Hm as [Hl Hp].
    apply not_true_is_false. intros Hm'.
    apply matches_true in Hm' as [Hl' Hp'].
    destruct Hind as [Hne|(-> & Hne & _)]; congruence. }
  assert (Hnew : forall i m, m !! k = Some v ->
            matches l' k' v' (Node i l (set_props sets m)) = false).
  { intros i m Hp. apply not_true_is_false. intros Hm'.
    apply matches_true in Hm' as [Hl' Hp']. simpl in *.
    destruct Hind as [Hne|(-> & Hne & Hk)]; [done|].
    rewrite set_props_lookup_notin in Hp' by done. congruence. }
  unfold merge_node, bound.
  destruct (existsb (matches l k v) (nodes g)); simpl.
  - induction (nodes g) as [|n ns IH]; [done|].
    rewrite fmap_cons, !filter_cons, IH.
    destruct (matches l k v n) eqn:Hm; [|done].
    pose proof (Hold n Hm) as Hf.
    apply matches_true in Hm as [<- Hp].
    rewrite (Hnew (nid n) (nprops n) Hp), Hf. done.
  - rewrite filter_app, filter_cons, filter_nil.
    rewrite Hnew by apply lookup_singleton_eq.
    by rewrite app_nil_r.
Qed.

End merge_node.

(** ** The upsert pass *)

Section upsert.
Import Graph_Build.
Implicit Types (g : graph) (l : label) (k : string) (v : value).
Implicit Types (data : article_data) (ic : nat * pystr).

Lemma ord_inj a b : ord a = ord b -> a = b.
Proof.
  unfold ord. intros H. apply Nat2N.inj in H.
  rewrite <- (Ascii.ascii_nat_embedding a), <- (Ascii.ascii_nat_embedding b).
  by rewrite H.
Qed.

Lemma str_of_nat_inj i j : str_of_nat i = str_of_nat j -> i = j.
Proof.
  unfold str_of_nat. intros H.
  apply (inj pretty).
  rewrite <- (String.string_of_list_ascii_of_string (pretty i)).
  rewrite <- (String.string_of_list_ascii_of_string (pretty j)).
  f_equal.
  revert H. generalize (String.list_ascii_of_string (pretty i)).
  generalize (String.list_ascii_of_string (pretty j)).
  intros q p. revert q. induction p as [|a p IH]; intros [|b q] H; try done.
  simpl in H. injection H as Hab Hpq.
  f_equal; [by apply ord_inj | by apply IH].
Qed.

(** The identity of a fragment determines its index. *)
Lemma content_id_inj aid i j : content_id aid i = content_id aid j -> i = j.
Proof.
  unfold content_id. intros H.
  apply app_inv_head, app_inv_head in H. by apply str_of_nat_inj.
Qed.

Lemma keeps_merge_node l l' k v sets :
  l' <> l -> keeps l (merge_node l' k v sets).
Proof. intros H k0 v0 g. apply merge_node_bound_other. by left. Qed.

Lemma keeps_merge_rel l l1 k1 v1 l2 k2 v2 mk :
  keeps l (merge_rel l1 k1 v1 l2 k2 v2 mk).
Proof. intros k v g. apply merge_rel_bound. Qed.

Lemma grows_merge_node l k v sets : grows (merge_node l k v sets).
Proof. intros g r. by rewrite merge_node_rels. Qed.

Lemma grows_merge_rel l1 k1 v1 l2 k2 v2 mk :
  grows (merge_rel l1 k1 v1 l2 k2 v2 mk).
Proof. intros g r. apply merge_rel_mono. Qed.

Lemma keeps_id l : keeps l (fun g => g).
Proof. by intros k v g. Qed.

Lemma grows_id : grows (fun g => g).
Proof. by intros g r. Qed.

Lemma keeps_compose l (f1 f2 : graph -> graph) :
  keeps l f1 -> keeps l f2 -> keeps l (fun g => f2 (f1 g)).
Proof. intros H1 H2 k v g. by rewrite H2, H1. Qed.

Lemma grows_compose (f1 f2 : graph -> graph) :
  grows f1 -> grows f2 -> grows (fun g => f2 (f1 g)).
Proof. intros H1 H2 g r H. by apply H2, H1. Qed.

Lemma keeps_foldl {X} l (f : graph -> X -> graph) (xs : list X) :
  (forall x, keeps l (fun g => f g x)) -> keeps l (fun g => foldl f g xs).
Proof.
  intros H k v. induction xs as [|x xs IH]; intros g; simpl; [done|].
  by rewrite IH, (H x k v g).
Qed.

Lemma grows_foldl {X} (f : graph -> X -> graph) (xs : list X) :
  (forall x, grows (fun g => f g x)) -> grows (fun g => foldl f g xs).
Proof.
  intros H. induction xs as [|x xs IH]; intros g r Hr; simpl; [done|].
  by apply IH, (H x g r).
Qed.

Lemma settled_keeps l k v sets (f : graph -> graph) g :
  keeps l f -> settled l k v sets g -> settled l k v sets (f g).
Proof. intros H. apply settled_preserved, H. Qed.

Lemma linked_keeps l1 k1 v1 l2 k2 v2 mk (f : graph -> graph) g :
  keeps l1 f -> keeps l2 f -> grows f ->
  linked l1 k1 v1 l2 k2 v2 mk g -> linked l1 k1 v1 l2 k2 v2 mk (f g).
Proof. intros H1 H2 H3. apply linked_preserved; [apply H1|apply H2|apply H3]. Qed.

Lemma content_done_keeps aid data ic (f : graph -> graph) g :
  keeps Article f -> keeps Content f -> grows f ->
  content_done aid data ic g -> content_done aid data ic (f g).
Proof.
  intros H1 H2 H3 [Hs Hl]. split.
  - by apply settled_keeps.
  - by apply linked_keeps.
Qed.

Lemma attached_keeps l mk aid x (f : graph -> graph) g :
  keeps Article f -> keeps l f -> grows f ->
  attached l mk aid x g -> attached l mk aid x (f g).
Proof.
  intros H1 H2 H3. unfold attached.
  destruct (isna x || is_empty_str x); [done|].
  destruct (param x) as [name|]; [|done].
  intros [Hs Hl]. split.
  - by apply settled_keeps.
  - by apply linked_keeps.
Qed.

End upsert.

Section upsert_steps.
Import Graph_Build.
Implicit Types (g : graph) (l : label) (k : string) (v : value).
Implicit Types (data : article_data) (ic : nat * pystr) (aid : pystr).

Lemma article_key_kept data : "article_id" ∉ (article_sets data).*1.
Proof. apply (bool_decide_unpack _). by vm_compute. Qed.

Lemma content_key_kept aid data ic : "content_id" ∉ (content_sets aid data ic).*1.
Proof. apply (bool_decide_unpack _). by vm_compute. Qed.

Lemma keeps_create_article_node l data :
  l <> Article -> keeps l (create_article_node data).
Proof. intros H. apply keeps_merge_node. congruence. Qed.

Lemma keeps_create_content_node l aid data ic :
  l <> Content -> keeps l (fun g => create_content_node aid data g ic).
Proof.
  intros H k v g. unfold create_content_node. simpl.
  rewrite merge_rel_bound. apply merge_node_bound_other. left. congruence.
Qed.

Lemma grows_create_content_node aid data ic :
  grows (fun g => create_content_node aid data g ic).
Proof.
  intros g r Hr. unfold create_content_node. simpl.
  apply merge_rel_mono. by rewrite merge_node_rels.
Qed.

(** One turn of the loop puts its chunk in the graph. *)
Lemma create_content_node_done aid data ic g :
  content_done aid data ic (create_content_node aid data g ic).
Proof.
  unfold create_content_node, content_done. simpl. split.
  - eapply settled_preserved; [apply merge_rel_bound|].
    apply merge_node_settles, content_key_kept.
  - apply merge_rel_links.
Qed.

(** A turn of the loop for another index leaves a chunk as it is. *)
Lemma create_content_node_other aid data ic jc g :
  ic.1 <> jc.1 ->
  content_done aid data ic g ->
  content_done aid data ic (create_content_node aid data g jc).
Proof.
  intros Hne [Hs Hl].
  assert (Hb : bound Content "content_id" (VStr (content_id aid ic.1))
                 (create_content_node aid data g jc)
               = bound Content "content_id" (VStr (content_id aid ic.1)) g).
  { unfold create_content_node. simpl. rewrite merge_rel_bound.
    apply merge_node_bound_other. right. split; [done|]. split.
    - intros [= H]. apply content_id_inj in H. done.
    - apply content_key_kept. }
  split.
  - by eapply settled_preserved.
  - eapply linked_preserved; [|exact Hb| |exact Hl].
    + apply (keeps_create_content_node Article aid data jc). done.
    + intros r. apply grows_create_content_node.
Qed.

Lemma create_content_node_fixed aid data ic g :
  content_done aid data ic g -> create_content_node aid data g ic = g.
Proof.
  intros [Hs Hl]. unfold create_content_node. simpl.
  rewrite (merge_node_settled _ _ _ _ _ Hs). by apply merge_rel_linked.
Qed.

Lemma enumerate_from_indices {X} (xs : list X) (start : nat) :
  (enumerate_from start xs).*1 = seq start (length xs).
Proof.
  revert start. induction xs as [|x xs IH]; intros start; [done|].
  simpl. by rewrite IH.
Qed.

Lemma enumerate_indices_NoDup {X} (xs : list X) : NoDup (enumerate xs).*1.
Proof. unfold enumerate. rewrite enumerate_from_indices. apply NoDup_seq. Qed.

(** After the loop, every chunk is in the graph. *)
Lemma content_loop_done aid data (ics : list (nat * pystr)) g :
  NoDup ics.*1 ->
  Forall (fun ic => content_done aid data ic
                      (foldl (create_content_node aid data) g ics)) ics.
Proof.
  induction ics as [|jc ics IH] using rev_ind; intros Hnd; [done|].
  rewrite fmap_app in Hnd. apply NoDup_app in Hnd as (Hnd & Hfresh & _).
  rewrite foldl_app. simpl. apply Forall_app. split.
  - specialize (IH Hnd). rewrite Forall_forall in IH.
    apply Forall_forall. intros ic Hic.
    apply create_content_node_other; [|by apply IH].
    intros Heq. apply (Hfresh ic.1).
    + apply list_elem_of_fmap. by exists ic.
    + rewrite Heq. simpl. left.
  - constructor; [apply create_content_node_done | constructor].
Qed.

Lemma content_loop_fixed aid data (ics : list (nat * pystr)) g :
  Forall (fun ic => content_done aid data ic g) ics ->
  foldl (create_content_node aid data) g ics = g.
Proof.
  induction 1 as [|ic ics Hic _ IH]; [done|].
  simpl. by rewrite (create_content_node_fixed _ _ _ _ Hic).
Qed.

Lemma keeps_create_content_nodes l aid chunks data :
  l <> Content -> keeps l (create_content_nodes aid chunks data).
Proof.
  intros H. unfold create_content_nodes.
  apply (keeps_foldl l (create_content_node aid data)).
  intros ic. by apply keeps_create_content_node.
Qed.

Lemma grows_create_content_nodes aid chunks data :
  grows (create_content_nodes aid chunks data).
Proof.
  unfold create_content_nodes.
  apply (grows_foldl (create_content_node aid data)).
  intros ic. apply grows_create_content_node.
Qed.

(** *** Publisher and category: a node merged by name and related to the
    article *)

Lemma attach_done l mk aid name g :
  let g' := merge_rel Article "article_id" (VStr aid) l "name" name mk
                      (merge_node l "name" name [] g) in
  settled l "name" name [] g'
  /\ linked Article "article_id" (VStr aid) l "name" name mk g'.
Proof.
  simpl. split.
  - eapply settled_preserved; [apply merge_rel_bound|].
    apply merge_node_settles. simpl. apply not_elem_of_nil.
  - apply merge_rel_links.
Qed.

Lemma attach_fixed l mk aid name g :
  settled l "name" name [] g ->
  linked Article "article_id" (VStr aid) l "name" name mk g ->
  merge_rel Article "article_id" (VStr aid) l "name" name mk
            (merge_node l "name" name [] g) = g.
Proof.
  intros Hs Hl. rewrite (merge_node_settled _ _ _ _ _ Hs).
  by apply merge_rel_linked.
Qed.

Lemma keeps_attach l l' mk aid name :
  l' <> l ->
  keeps l' (fun g => merge_rel Article "article_id" (VStr aid) l "name" name mk
                               (merge_node l "name" name [] g)).
Proof.
  intros H k v g. rewrite merge_rel_bound.
  apply merge_node_bound_other. left. congruence.
Qed.

Lemma grows_attach l mk aid name :
  grows (fun g => merge_rel Article "article_id" (VStr aid) l "name" name mk
                            (merge_node l "name" name [] g)).
Proof. intros g r Hr. apply merge_rel_mono. by rewrite merge_node_rels. Qed.

Lemma keeps_create_media l aid source :
  l <> Media -> keeps l (create_media_node_and_relationship aid source).
Proof.
  intros H. unfold create_media_node_and_relationship.
  destruct (isna source || is_empty_str source); [apply keeps_id|].
  destruct (param source); [|apply keeps_id].
  by apply keeps_attach.
Qed.

Lemma grows_create_media aid source :
  grows (create_media_node_and_relationship aid source).
Proof.
  unfold create_media_node_and_relationship.
  destruct (isna source || is_empty_str source); [apply grows_id|].
  destruct (param source); [|apply grows_id].
  apply grows_attach.
Qed.

Lemma keeps_create_category l aid category :
  l <> Category -> keeps l (create_category_node_and_relationship aid category).
Proof.
  intros H. unfold create_category_node_and_relationship.
  destruct (isna category || is_empty_str category); [apply keeps_id|].
  destruct (param category); [|apply keeps_id].
  by apply keeps_attach.
Qed.

Lemma grows_create_category aid category :
  grows (create_category_node_and_relationship aid category).
Proof.
  unfold create_category_node_and_relationship.
  destruct (isna category || is_empty_str category); [apply grows_id|].
  destruct (param category); [|apply grows_id].
  apply grows_attach.
Qed.

Lemma create_media_done aid source g :
  attached Media (fun a m => Rel m PUBLISHED a) aid source
           (create_media_node_and_relationship aid source g).
Proof.
  unfold attached, create_media_node_and_relationship.
  destruct (isna source || is_empty_str source); [done|].
  destruct (param source); [|done]. apply attach_done.
Qed.

Lemma create_category_done aid category g :
  attached Category (fun a c => Rel a BELONGS_TO c) aid category
           (create_category_node_and_relationship aid category g).
Proof.
  unfold attached, create_category_node_and_relationship.
  destruct (isna category || is_empty_str category); [done|].
  destruct (param category); [|done]. apply attach_done.
Qed.

Lemma create_media_fixed aid source g :
  attached Media (fun a m => Rel m PUBLISHED a) aid source g ->
  create_media_node_and_relationship aid source g = g.
Proof.
  unfold attached, create_media_node_and_relationship.
  destruct (isna source || is_empty_str source); [done|].
  destruct (param source); [|done]. intros [Hs Hl]. by apply attach_fixed.
Qed.

Lemma create_category_fixed aid category g :
  attached Category (fun a c => Rel a BELONGS_TO c) aid category g ->
  create_category_node_and_relationship aid category g = g.
Proof.
  unfold attached, create_category_node_and_relationship.
  destruct (isna category || is_empty_str category); [done|].
  destruct (param category); [|done]. intros [Hs Hl]. by apply attach_fixed.
Qed.

(** The pass leaves everything it writes in the graph. *)
Lemma upsert_pass_done data chunks source category g :
  pass_done data chunks source category
            (upsert_pass data chunks source category g).
Proof.
  unfold upsert_pass, pass_done.
  set (aid := article_id data).
  set (g1 := create_article_node data g).
  set (g2 := create_content_nodes aid chunks data g1).
  set (g3 := create_media_node_and_relationship aid source g2).
  assert (H1 : settled Article "article_id" (VStr aid) (article_sets data) g1)
    by apply merge_node_settles, article_key_kept.
  assert (H2 : Forall (fun ic => content_done aid data ic g2) (enumerate chunks))
    by apply content_loop_done, enumerate_indices_NoDup.
  split; [|split; [|split]].
  - apply settled_keeps; [by apply keeps_create_category|].
    apply settled_keeps; [by apply keeps_create_media|].
    apply settled_keeps; [by apply keeps_create_content_nodes|]. done.
  - eapply Forall_impl; [exact H2|]. intros ic Hic. simpl.
    apply content_done_keeps;
      [by apply keeps_create_category | by apply keeps_create_category
      | apply grows_create_category |].
    apply content_done_keeps;
      [by apply keeps_create_media | by apply keeps_create_media
      | apply grows_create_media |]. done.
  - apply attached_keeps;
      [by apply keeps_create_category | by apply keeps_create_category
      | apply grows_create_category |].
    apply create_media_done.
  - apply create_category_done.
Qed.

(** A graph that holds everything the pass writes is left as it is. *)
Lemma upsert_pass_fixed data chunks source category g :
  pass_done data chunks source category g ->
  upsert_pass data chunks source category g = g.
Proof.
  intros (H1 & H2 & H3 & H4). unfold upsert_pass.
  unfold create_article_node. rewrite (merge_node_settled _ _ _ _ _ H1).
  unfold create_content_nodes. rewrite (content_loop_fixed _ _ _ _ H2).
  rewrite (create_media_fixed _ _ _ H3). by apply create_category_fixed.
Qed.

End upsert_steps.

(** C1.  Ingest is idempotent: for every article record, chunk list,
    publisher and category, and from every graph, running the upsert pass
    ([create_article_node], [create_content_nodes],
    [create_media_node_and_relationship],
    [create_category_node_and_relationship]) a second time with the same
    inputs leaves the graph exactly as the first run left it: no node and
    no relationship is added, because every statement merges on its key
    and the [content_id] of a chunk is fixed by the article and the
    index. *)
Theorem upsert_pass_idempotent
    (data : Graph_Build.article_data) (content_chunks : list pystr)
    (source category : cell) (g : graph) :
  upsert_pass data content_chunks source category
    (upsert_pass data content_chunks source category g)
  = upsert_pass data content_chunks source category g
  /\ (forall i j, Graph_Build.content_id (Graph_Build.article_id data) i
                  = Graph_Build.content_id (Graph_Build.article_id data) j ->
                  i = j).
Proof.
  split.
  - apply upsert_pass_fixed, upsert_pass_done.
  - apply content_id_inj.
Qed.

(** ** Ingesting the rows of a data frame *)

Section ingest.
Import Graph_Build.
Implicit Types (g : graph) (w : world) (r : row).
Implicit Types (df : list (Z * row)).

(** One row: the article node is written first; when cutting the text
    raises, nothing else is; otherwise the whole upsert pass is run. *)
Lemma ingest_row_run total chunk_size overlap idx r w :
  ingest_row total chunk_size overlap idx r w
  = match chunk_text (default PNone (col_content r)) chunk_size overlap with
    | inr chunks =>
      (inr tt,
       World (upsert_pass (row_data r) chunks (default PNone (col_source r))
                          (default PNone (col_category r)) (db w))
             (stdout w ++ progress_line total idx))
    | inl e => (inl e, World (create_article_node (row_data r) (db w)) (stdout w))
    end.
Proof.
  unfold ingest_row, upsert_pass, progress_line.
  fold (row_data r). destruct w as [g out].
  generalize ((idx + 1) mod 10 =? 0). intros b.
  destruct (col_content r) as [c|]; simpl.
  - destruct (isna c) eqn:Hna; simpl.
    + assert (chunk_text c chunk_size overlap = inr []) as ->
        by (unfold chunk_text; by rewrite Hna).
      destruct (col_source r), (col_category r), b; simpl;
        rewrite ?app_nil_r; reflexivity.
    + destruct (is_empty_str c) eqn:Hem; simpl.
      * assert (chunk_text c chunk_size overlap = inr []) as ->
          by (unfold chunk_text; by rewrite Hna, Hem).
        destruct (col_source r), (col_category r), b; simpl;
          rewrite ?app_nil_r; reflexivity.
      * unfold lift. cbn.
        destruct (chunk_text c chunk_size overlap) as [e|chunks]; [done|].
        destruct chunks as [|f fs];
          destruct (col_source r), (col_category r), b; cbn;
            rewrite ?app_nil_r; reflexivity.
  - destruct (col_source r), (col_category r), b; simpl;
      rewrite ?app_nil_r; reflexivity.
Qed.

(** Whatever the body of the [try] block does, and whatever it raises,
    a loop of this shape visits every item and returns. *)
Lemma try_loop_returns {X} (xs : list X) (body : X -> prog unit)
    (report : X -> exn -> line) w :
  exists w',
    for_each xs (fun x => try_except (body x) (fun e => print (report x e))) w
    = (inr tt, w').
Proof.
  revert w. induction xs as [|x xs IH]; intros w; [by eexists|].
  simpl. unfold mbind, prog_bind, try_except at 1.
  destruct (body x w) as [[e|[]] w1]; simpl; apply IH.
Qed.

Lemma ingest_step_run total chunk_size overlap w (ir : Z * row) :
  ingest_step total chunk_size overlap w ir
  = match chunk_text (default PNone (col_content ir.2)) chunk_size overlap with
    | inr chunks =>
      World (upsert_pass (row_data ir.2) chunks (default PNone (col_source ir.2))
                         (default PNone (col_category ir.2)) (db w))
            (stdout w ++ progress_line total ir.1)
    | inl e =>
      World (create_article_node (row_data ir.2) (db w))
            (stdout w ++ [RowError ir.1 e])
    end.
Proof.
  unfold ingest_step, try_except. rewrite ingest_row_run.
  by destruct (chunk_text _ _ _).
Qed.

(** A turn of the loop never raises: what the row raises is caught. *)
Lemma try_row_returns total chunk_size overlap w (ir : Z * row) :
  try_except (ingest_row total chunk_size overlap ir.1 ir.2)
             (fun e => print (RowError ir.1 e)) w
  = (inr tt, ingest_step total chunk_size overlap w ir).
Proof.
  unfold ingest_step, try_except. rewrite ingest_row_run.
  by destruct (chunk_text _ _ _).
Qed.

(** The loop visits every row, each one from the world the one before
    left, and returns. *)
Lemma ingest_loop_run total chunk_size overlap
    (irs : list (Z * row)) w :
  for_each irs (fun ir =>
    try_except (ingest_row total chunk_size overlap ir.1 ir.2)
               (fun e => print (RowError ir.1 e))) w
  = (inr tt, foldl (ingest_step total chunk_size overlap) w irs).
Proof.
  revert w. induction irs as [|ir irs IH]; intros w; [done|].
  simpl. unfold mbind, prog_bind. rewrite try_row_returns. apply IH.
Qed.

Lemma build_graph_run df chunk_size overlap w :
  build_graph_from_dataframe df chunk_size overlap w
  = (inr tt, foldl (ingest_step (length df) chunk_size overlap) w df).
Proof. apply ingest_loop_run. Qed.

Lemma has_article_created data g :
  has_article (article_id data) (create_article_node data g).
Proof.
  unfold has_article, create_article_node.
  apply (merge_node_settles Article "article_id" (VStr (article_id data))
           (article_sets data) g), article_key_kept.
Qed.

Lemma has_article_create aid data g :
  has_article aid g -> has_article aid (create_article_node data g).
Proof.
  intros H. destruct (decide (aid = article_id data)) as [->|Hne].
  - apply has_article_created.
  - unfold has_article, create_article_node.
    rewrite merge_node_bound_other; [done|].
    right. split; [done|]. split; [congruence|apply article_key_kept].
Qed.

Lemma has_article_keeps aid (f : graph -> graph) g :
  keeps Article f -> has_article aid g -> has_article aid (f g).
Proof. unfold has_article. intros H. by rewrite H. Qed.

Lemma has_article_upsert_pass aid data chunks source category g :
  has_article aid (create_article_node data g) ->
  has_article aid (upsert_pass data chunks source category g).
Proof.
  intros H. unfold upsert_pass.
  apply has_article_keeps; [by apply keeps_create_category|].
  apply has_article_keeps; [by apply keeps_create_media|].
  apply has_article_keeps; [by apply keeps_create_content_nodes|]. done.
Qed.

Lemma has_article_step aid total chunk_size overlap w (ir : Z * row) :
  has_article aid (db w) \/ aid = article_id (row_data ir.2) ->
  has_article aid (db (ingest_step total chunk_size overlap w ir)).
Proof.
  intros H.
  assert (has_article aid (create_article_node (row_data ir.2) (db w))) as Ha.
  { destruct H as [H| ->];
      [by apply has_article_create | apply has_article_created]. }
  rewrite ingest_step_run. destruct (chunk_text _ _ _); simpl; [done|].
  by apply has_article_upsert_pass.
Qed.

Lemma has_article_loop total chunk_size overlap
    (irs : list (Z * row)) w aid :
  has_article aid (db w) \/ (exists ir, ir ∈ irs /\ aid = article_id (row_data ir.2)) ->
  has_article aid (db (foldl (ingest_step total chunk_size overlap) w irs)).
Proof.
  revert w. induction irs as [|ir irs IH]; intros w H; simpl.
  - destruct H as [H|(ir & Hin & _)]; [done|]. by apply not_elem_of_nil in Hin.
  - apply IH. destruct H as [H|(ir' & Hin & Heq)].
    + left. apply has_article_step. by left.
    + apply elem_of_cons in Hin as [->|Hin].
      * left. apply has_article_step. by right.
      * right. by exists ir'.
Qed.

(** What the row [ir] prints, whether it raises or not: the report of
    what cutting its text raised, or what follows its writes. *)
Lemma ingest_step_stdout total chunk_size overlap w (ir : Z * row) :
  stdout (ingest_step total chunk_size overlap w ir)
  = stdout w
    ++ match chunk_text (default PNone (col_content ir.2)) chunk_size overlap with
       | inl e => [RowError ir.1 e]
       | inr _ => progress_line total ir.1
       end.
Proof. rewrite ingest_step_run. by destruct (chunk_text _ _ _). Qed.

Lemma ingest_loop_stdout total chunk_size overlap
    (irs : list (Z * row)) w :
  stdout (foldl (ingest_step total chunk_size overlap) w irs)
  = stdout w
    ++ (irs ≫= fun ir =>
          match chunk_text (default PNone (col_content ir.2))
                           chunk_size overlap with
          | inl e => [RowError ir.1 e]
          | inr _ => progress_line total ir.1
          end).
Proof.
  revert w. induction irs as [|ir irs IH]; intros w; simpl.
  - by rewrite app_nil_r.
  - by rewrite IH, ingest_step_stdout, <- app_assoc.
Qed.

Lemma enumerate_from_lookup {X} (xs : list X) (start : nat) (ix : nat * X) :
  ix ∈ enumerate_from start xs <->
  (start <= ix.1)%nat /\ xs !! (ix.1 - start)%nat = Some ix.2.
Proof.
  revert start. induction xs as [|x xs IH]; intros start; simpl.
  - split; [by intros H%not_elem_of_nil|]. by intros [_ H].
  - rewrite elem_of_cons, IH. destruct ix as [i y]. simpl. split.
    + intros [[= -> ->]|[Hle Hl]].
      * split; [lia|]. by rewrite Nat.sub_diag.
      * split; [lia|]. by replace (i - start)%nat with (S (i - S start)) by lia.
    + intros [Hle Hl]. destruct (decide (i = start)) as [->|Hne].
      * left. rewrite Nat.sub_diag in Hl. simpl in Hl. congruence.
      * right. split; [lia|].
        by replace (i - start)%nat with (S (i - S start)) in Hl by lia.
Qed.

Lemma elem_of_enumerate {X} (xs : list X) (i : nat) (x : X) :
  (i, x) ∈ enumerate xs <-> xs !! i = Some x.
Proof.
  unfold enumerate. rewrite enumerate_from_lookup. simpl.
  rewrite Nat.sub_0_r. split; [tauto|]. split; [lia|done].
Qed.

End ingest.



(** ** Counting nodes *)

Section counting.
Import Graph_Build.
Implicit Types (g : graph) (l : label) (k : string) (v : value).

Lemma count_merge_rel l l1 k1 v1 l2 k2 v2 mk g :
  count_label l (merge_rel l1 k1 v1 l2 k2 v2 mk g) = count_label l g.
Proof. unfold count_label. by rewrite merge_rel_nodes. Qed.

(** A [MERGE] creates at most one node, and only of its own label. *)
Lemma count_merge_node l l' k v sets g :
  (count_label l (merge_node l' k v sets g)
   <= count_label l g + (if decide (l = l') then 1 else 0))%nat.
Proof.
  unfold count_label, merge_node.
  destruct (existsb (matches l' k v) (nodes g)); simpl.
  - assert (forall ns : list node,
      length (filter (fun n => nlabel n = l)
                ((fun n => if matches l' k v n
                           then Node (nid n) (nlabel n) (set_props sets (nprops n))
                           else n) <$> ns))
      = length (filter (fun n => nlabel n = l) ns)) as ->; [|lia].
    induction ns as [|n ns IH]; [done|].
    rewrite fmap_cons, !filter_cons.
    assert (nlabel (if matches l' k v n
                    then Node (nid n) (nlabel n) (set_props sets (nprops n))
                    else n) = nlabel n) as -> by (by destruct (matches _ _ _ _)).
    destruct (decide (nlabel n = l)); simpl; by rewrite IH.
  - rewrite filter_app, length_app, filter_cons, filter_nil. simpl.
    destruct (decide (l' = l)), (decide (l = l')); simpl; try lia. congruence.
Qed.

Lemma count_create_content_node l aid data g ic :
  (count_label l (create_content_node aid data g ic)
   <= count_label l g + (if decide (l = Content) then 1 else 0))%nat.
Proof.
  unfold create_content_node. simpl. rewrite count_merge_rel.
  apply count_merge_node.
Qed.

Lemma count_create_content_nodes l aid chunks data g :
  (count_label l (create_content_nodes aid chunks data g)
   <= count_label l g + (if decide (l = Content) then length chunks else 0))%nat.
Proof.
  unfold create_content_nodes, enumerate.
  assert (forall (start : nat) g',
    (count_label l (foldl (create_content_node aid data) g'
                          (enumerate_from start chunks))
     <= count_label l g'
        + (if decide (l = Content) then length chunks else 0))%nat) as H;
    [|apply H].
  induction chunks as [|c chunks IH]; intros start g'; simpl.
  - destruct (decide _); lia.
  - etrans; [apply IH|].
    pose proof (count_create_content_node l aid data g' (start, c)).
    destruct (decide (l = Content)); lia.
Qed.

Lemma count_create_media l aid source g :
  (count_label l (create_media_node_and_relationship aid source g)
   <= count_label l g + (if decide (l = Media) then 1 else 0))%nat.
Proof.
  unfold create_media_node_and_relationship.
  destruct (isna source || is_empty_str source); [lia|].
  destruct (param source); [|lia].
  rewrite count_merge_rel. apply count_merge_node.
Qed.

Lemma count_create_category l aid category g :
  (count_label l (create_category_node_and_relationship aid category g)
   <= count_label l g + (if decide (l = Category) then 1 else 0))%nat.
Proof.
  unfold create_category_node_and_relationship.
  destruct (isna category || is_empty_str category); [lia|].
  destruct (param category); [|lia].
  rewrite count_merge_rel. apply count_merge_node.
Qed.

Lemma count_create_article_node l data g :
  (count_label l (create_article_node data g)
   <= count_label l g + (if decide (l = Article) then 1 else 0))%nat.
Proof. apply count_merge_node. Qed.

(** The pass creates at most one article node and one fragment node per
    chunk. *)
Lemma count_upsert_pass data chunks source category g :
  (count_label Article (upsert_pass data chunks source category g)
   <= count_label Article g + 1)%nat
  /\ (count_label Content (upsert_pass data chunks source category g)
      <= count_label Content g + length chunks)%nat.
Proof.
  unfold upsert_pass.
  pose proof (count_create_article_node Article data g) as A1.
  pose proof (count_create_article_node Content data g) as C1.
  remember (create_article_node data g) as g1 eqn:E1. clear E1.
  pose proof (count_create_content_nodes Article (article_id data) chunks data g1)
    as A2.
  pose proof (count_create_content_nodes Content (article_id data) chunks data g1)
    as C2.
  remember (create_content_nodes (article_id data) chunks data g1) as g2 eqn:E2.
  clear E2.
  pose proof (count_create_media Article (article_id data) source g2) as A3.
  pose proof (count_create_media Content (article_id data) source g2) as C3.
  remember (create_media_node_and_relationship (article_id data) source g2)
    as g3 eqn:E3.
  clear E3.
  pose proof (count_create_category Article (article_id data) category g3) as A4.
  pose proof (count_create_category Content (article_id data) category g3) as C4.
  simpl in *. lia.
Qed.

End counting.

(** ** One article of 1200 characters *)

Section scenario.
Import Graph_Build.
Implicit Types (g : graph) (text : pystr).

Lemma windows_1200 text :
  length text = 1200%nat ->
  windows text 500 50
  = [window text 500 0; window text 500 450; window text 500 900].
Proof.
  intros H. unfold windows, len. rewrite H.
  assert (range 0 (Z.of_nat 1200) (500 - 50) = inr [0; 450; 900]) as ->
    by (vm_compute; reflexivity).
  done.
Qed.

Lemma chunk_text_1200 text :
  length text = 1200%nat ->
  ¬ blank (window text 500 0) ->
  ¬ blank (window text 500 450) ->
  ¬ blank (window text 500 900) ->
  chunk_text (PStr text) 500 50
  = inr [strip (window text 500 0); strip (window text 500 450);
         strip (window text 500 900)].
Proof.
  intros H H0 H1 H2. rewrite chunk_text_windows by lia.
  rewrite windows_1200 by done.
  rewrite !filter_cons, filter_nil.
  by rewrite !decide_True by done.
Qed.

(** A chunk that is in the graph has a node with its values, related to
    every node of the article. *)
Lemma content_done_node aid data (ic : nat * pystr) g :
  content_done aid data ic g ->
  exists c, c ∈ nodes g /\ is_fragment aid ic.1 ic.2 c
            /\ forall a, a ∈ bound Article "article_id" (VStr aid) g ->
                         Rel (nid a) HAS_CHUNK (nid c) ∈ rels g.
Proof.
  intros [[Hne Hall] Hl].
  destruct (bound Content "content_id" (VStr (content_id aid ic.1)) g)
    as [|c cs] eqn:E; [done|].
  assert (Hc : c ∈ bound Content "content_id" (VStr (content_id aid ic.1)) g)
    by (rewrite E; left).
  apply Forall_cons in Hall as [Hset _].
  pose proof Hc as Hc'.
  apply elem_of_bound in Hc' as [Hin Hm]. apply matches_true in Hm as [Hlab Hid].
  exists c. split; [done|]. split.
  - split; [done|]. split; [done|]. rewrite <- Hset. unfold content_sets.
    unfold set_props. cbn [foldl]. split.
    + apply (set_prop_lookup_eq _ ("chunk_index", Some _)).
    + rewrite !(set_prop_lookup_ne _ (_, _) "chunk") by done.
      apply (set_prop_lookup_eq _ ("chunk", Some _)).
  - intros a Ha. unfold linked in Hl. rewrite Forall_forall in Hl.
    apply (Hl (Rel (nid a) HAS_CHUNK (nid c))).
    apply list_elem_of_fmap. exists (nid a, nid c). split; [done|].
    apply list_elem_of_In, in_prod_iff. rewrite !match_ids_bound.
    split; apply list_elem_of_In, list_elem_of_fmap; eauto.
Qed.

End scenario.

(** C3, as stated, fails: a text of 1200 characters whose last window is
    blank (here 900 letters followed by 300 spaces) gives two fragments,
    and two fragment nodes, not three. *)
Lemma scenario_blank_window_counterexample :
  let text := replicate 900 0x78%N ++ replicate 300 0x20%N in
  let r := Graph_Build.Row (Some (lit "A1")) (Some (PStr (lit "T"))) None None
                           (Some (PStr text)) None None in
  length text = 1200%nat
  /\ Graph_Build.chunk_text (PStr text) 500 50
     = inr [replicate 500 0x78%N; replicate 450 0x78%N]
  /\ count_label Content
       (db (Graph_Build.build_graph_from_dataframe [(0, r)] 500 50 (World empty [])).2)
     = 2%nat.
Proof. vm_compute. repeat split. Qed.

(** C3, amended.  Ingesting, into an empty graph, one article whose body
    text has length exactly 1200 and none of whose three windows
    [text[0:500]], [text[450:950]], [text[900:1200]] is blank, with
    [chunk_size = 500] and [overlap = 50], produces exactly three
    fragments: the graph holds one article node and exactly three fragment
    nodes, with [content_id]s [{article_id}_chunk_0 .. 2] and [chunk_index]
    0, 1 and 2, each the target of a [HAS_CHUNK] relationship from the
    article node. *)
Theorem scenario_three_fragments
    (r : Graph_Build.row) (text : pystr) (out : list line) :
  Graph_Build.col_content r = Some (PStr text) ->
  length text = 1200%nat ->
  ¬ blank (Graph_Build.window text 500 0) ->
  ¬ blank (Graph_Build.window text 500 450) ->
  ¬ blank (Graph_Build.window text 500 900) ->
  let aid := default [] (Graph_Build.col_article_id r) in
  let f0 := strip (Graph_Build.window text 500 0) in
  let f1 := strip (Graph_Build.window text 500 450) in
  let f2 := strip (Graph_Build.window text 500 900) in
  Graph_Build.chunk_text (PStr text) 500 50 = inr [f0; f1; f2]
  /\ exists g a c0 c1 c2,
       Graph_Build.build_graph_from_dataframe [(0, r)] 500 50 (World empty out)
       = (inr tt, World g out)
       /\ filter (fun n => nlabel n = Article) (nodes g) = [a]
       /\ nprops a !! "article_id" = Some (VStr aid)
       /\ filter (fun n => nlabel n = Content) (nodes g) ≡ₚ [c0; c1; c2]
       /\ is_fragment aid 0 f0 c0 /\ is_fragment aid 1 f1 c1
       /\ is_fragment aid 2 f2 c2
       /\ Rel (nid a) HAS_CHUNK (nid c0) ∈ rels g
       /\ Rel (nid a) HAS_CHUNK (nid c1) ∈ rels g
       /\ Rel (nid a) HAS_CHUNK (nid c2) ∈ rels g.
Proof.
  intros Hcontent Hlen H0 H1 H2 aid f0 f1 f2.
  pose proof (chunk_text_1200 text Hlen H0 H1 H2) as Hchunks.
  fold f0 f1 f2 in Hchunks. split; [done|].
  set (g := upsert_pass (row_data r) [f0; f1; f2]
                        (default PNone (Graph_Build.col_source r))
                        (default PNone (Graph_Build.col_category r)) empty).
  assert (Hrun : Graph_Build.build_graph_from_dataframe [(0, r)] 500 50 (World empty out)
                 = (inr tt, World g out)).
  { rewrite build_graph_run. simpl. rewrite ingest_step_run. simpl.
    rewrite Hcontent. simpl. rewrite Hchunks.
    unfold progress_line. simpl. by rewrite app_nil_r. }
  destruct (upsert_pass_done (row_data r) [f0; f1; f2]
              (default PNone (Graph_Build.col_source r))
              (default PNone (Graph_Build.col_category r)) empty)
    as ([Hane _] & Hdone & _).
  fold g in Hane, Hdone.
  destruct (count_upsert_pass (row_data r) [f0; f1; f2]
              (default PNone (Graph_Build.col_source r))
              (default PNone (Graph_Build.col_category r)) empty)
    as [HcA HcC].
  fold g in HcA, HcC. simpl in HcA, HcC.
  apply Forall_cons in Hdone as [D0 Hdone].
  apply Forall_cons in Hdone as [D1 Hdone].
  apply Forall_cons in Hdone as [D2 _].
  apply content_done_node in D0 as (c0 & Hin0 & F0 & E0).
  apply content_done_node in D1 as (c1 & Hin1 & F1 & E1).
  apply content_done_node in D2 as (c2 & Hin2 & F2 & E2).
  simpl in *.
  destruct (bound Article "article_id" (VStr (Graph_Build.article_id (row_data r))) g)
    as [|a rest] eqn:Ea; [done|].
  assert (Ha : a ∈ bound Article "article_id"
                 (VStr (Graph_Build.article_id (row_data r))) g)
    by (rewrite Ea; left).
  pose proof Ha as Ha'. apply elem_of_bound in Ha' as [Hina Hma].
  apply matches_true in Hma as [Hla Hida].
  exists g, a, c0, c1, c2. split; [done|].
  assert (HfA : filter (fun n => nlabel n = Article) (nodes g) = [a]).
  { assert (a ∈ filter (fun n => nlabel n = Article) (nodes g)) as Hm
      by (by apply list_elem_of_filter).
    unfold count_label in HcA.
    destruct (filter (fun n => nlabel n = Article) (nodes g)) as [|x [|y l]];
      simpl in HcA; [by apply not_elem_of_nil in Hm | | lia].
    apply list_elem_of_singleton in Hm. by subst. }
  split; [done|]. split; [done|]. split.
  - symmetry. apply submseteq_length_Permutation; [|exact HcC].
    apply NoDup_submseteq.
    + destruct F0 as (_ & I0 & _), F1 as (_ & I1 & _), F2 as (_ & I2 & _).
      assert (forall i j c c', nprops c !! "content_id"
                = Some (VStr (Graph_Build.content_id aid i)) ->
              nprops c' !! "content_id"
                = Some (VStr (Graph_Build.content_id aid j)) ->
              i <> j -> c <> c') as Hdiff.
      { intros i j c c' Hi Hj Hne ->. rewrite Hi in Hj.
        injection Hj as Hj. by apply content_id_inj in Hj. }
      repeat constructor; rewrite ?elem_of_cons, ?elem_of_nil.
      * intros [->|[->|[]]]; [by eapply (Hdiff 0%nat 1%nat) | by eapply (Hdiff 0%nat 2%nat)].
      * intros [->|[]]. by eapply (Hdiff 1%nat 2%nat).
      * by intros [].
    + intros c Hc. apply list_elem_of_filter.
      rewrite !elem_of_cons, elem_of_nil in Hc.
      destruct Hc as [->|[->|[->|[]]]]; split;
        first [done | apply F0 | apply F1 | apply F2].
  - repeat split; first [apply F0 | apply F1 | apply F2
                        | by apply E0 | by apply E1 | by apply E2].
Qed.

Lemma scenario_three_fragments_witness :
  let text := replicate 1200 0x78%N in
  let r := Graph_Build.Row (Some (lit "A1")) (Some (PStr (lit "T"))) None None
                           (Some (PStr text)) None None in
  exists g,
    Graph_Build.build_graph_from_dataframe [(0, r)] 500 50 (World empty [])
    = (inr tt, World g [])
    /\ count_label Content g = 3%nat.
Proof.
  intros text r.
  destruct (scenario_three_fragments r text [])
    as (_ & g & a & c0 & c1 & c2 & Hrun & _ & _ & Hperm & _).
  - reflexivity.
  - vm_compute. reflexivity.
  - unfold blank. vm_compute. discriminate.
  - unfold blank. vm_compute. discriminate.
  - unfold blank. vm_compute. discriminate.
  - exists g. split; [exact Hrun|].
    unfold count_label. apply Permutation_length in Hperm. exact Hperm.
Defined.

(** ** Embedding backfill *)

Section backfill.
Import Tools_Retriever.
Implicit Types (g : graph) (w : world).
Variable embed_query : option value -> result (list float).

Lemma embed_record_run total (ir : nat * (nat * option value)) w :
  embed_record embed_query total ir w
  = (inr tt, embed_step embed_query total w ir).
Proof.
  unfold embed_record, embed_step, try_except, lift.
  generalize ((ir.1 + 1) mod 10 =? 0)%nat. intros b.
  destruct w as [g out]. cbn.
  destruct (embed_query ir.2.2) as [e|vector]; [done|].
  destruct b; cbn; by rewrite ?app_nil_r.
Qed.

Lemma embed_loop_run total (irs : list (nat * (nat * option value))) w :
  for_each irs (embed_record embed_query total) w
  = (inr tt, foldl (embed_step embed_query total) w irs).
Proof.
  revert w. induction irs as [|ir irs IH]; intros w; [done|].
  simpl. unfold mbind, prog_bind. rewrite embed_record_run. apply IH.
Qed.

Lemma failures_app (l1 l2 : list line) :
  failures (l1 ++ l2) = (failures l1 + failures l2)%nat.
Proof. unfold failures. by rewrite filter_app, length_app. Qed.

(** Writing the vector of a fragment takes it off the list. *)
Lemma pending_set_embedding id ids vector g :
  pending (id :: ids) g -> pending ids (set_embedding id vector g).
Proof.
  intros H n' Hin Hlab Hnone. unfold set_embedding in Hin. simpl in Hin.
  apply list_elem_of_fmap in Hin as (n & -> & Hn).
  case_bool_decide as Hid.
  - simpl in Hnone. by rewrite lookup_insert_eq in Hnone.
  - specialize (H n Hn Hlab Hnone). apply elem_of_cons in H as [H|H]; done.
Qed.

(** One turn: a line or two are added, and when none reports a failure
    the fragment is off the list. *)
Lemma embed_step_pending total (ir : nat * (nat * option value)) w :
  exists p,
    stdout (embed_step embed_query total w ir) = stdout w ++ p
    /\ (failures p = 0%nat -> forall ids,
        pending (ir.2.1 :: ids) (db w) ->
        pending ids (db (embed_step embed_query total w ir))).
Proof.
  unfold embed_step. destruct (embed_query ir.2.2) as [e|vector]; simpl.
  - exists [EmbedError ir.2.1 e]. split; [done|]. intros H. discriminate.
  - eexists. split; [done|]. intros _ ids. apply pending_set_embedding.
Qed.

(** The loop: when no failure is reported, nothing stays pending. *)
Lemma embed_loop_pending total (irs : list (nat * (nat * option value))) w :
  exists new,
    stdout (foldl (embed_step embed_query total) w irs) = stdout w ++ new
    /\ (failures new = 0%nat ->
        pending (irs.*2.*1) (db w) ->
        pending [] (db (foldl (embed_step embed_query total) w irs))).
Proof.
  revert w. induction irs as [|ir irs IH]; intros w.
  - exists []. simpl. by rewrite app_nil_r.
  - simpl.
    destruct (embed_step_pending total ir w) as (p & Hp & Hstep).
    destruct (IH (embed_step embed_query total w ir)) as (new & Hout & Hnew).
    exists (p ++ new). rewrite Hout, Hp, <- app_assoc. split; [done|].
    rewrite failures_app. intros Hz Hpend.
    apply Hnew; [lia|]. apply Hstep; [lia|done].
Qed.

Lemma records_pending g :
  pending ((enumerate (records_without_embedding g)).*2.*1) g.
Proof.
  intros n Hn Hlab Hnone.
  assert ((enumerate (records_without_embedding g)).*2
          = records_without_embedding g) as ->.
  { unfold enumerate. generalize 0%nat.
    induction (records_without_embedding g) as [|x xs IH]; intros k; [done|].
    simpl. by rewrite IH. }
  unfold records_without_embedding. rewrite <- list_fmap_compose.
  apply list_elem_of_fmap. exists n. split; [done|].
  by apply list_elem_of_filter.
Qed.

Lemma pending_nil_embedded g : pending [] g -> embedded g.
Proof.
  intros H n Hn Hlab Hnone. specialize (H n Hn Hlab Hnone).
  by apply not_elem_of_nil in H.
Qed.

(** The embedding step of Tools_Retriever.py. *)
Lemma backfill_run w :
  exists g' new,
    backfill_embeddings embed_query w = (inr tt, World g' (stdout w ++ new))
    /\ (failures new = 0%nat -> embedded g').
Proof.
  unfold backfill_embeddings.
  pose proof (records_pending (db w)) as Hp.
  destruct (records_without_embedding (db w)) as [|rec recs] eqn:E.
  - exists (db w), [EmbedNothing]. split; [done|]. intros _.
    apply pending_nil_embedded. exact Hp.
  - set (records := rec :: recs) in *.
    change (truthy records) with true. cbv iota.
    unfold mbind, prog_bind, print at 1. cbn [fst snd].
    rewrite embed_loop_run.
    destruct (embed_loop_pending (length records) (enumerate records)
                (World (db w) (stdout w ++ [EmbedStart (length records)])))
      as (new & Hout & Hnew).
    simpl in Hout, Hnew.
    destruct (foldl _ _ _) as [g' out'] eqn:Ef. simpl in Hout, Hnew.
    exists g', ([EmbedStart (length records)] ++ new).
    rewrite Hout, <- app_assoc. split; [done|].
    rewrite failures_app. intros Hz.
    apply pending_nil_embedded, Hnew; [unfold failures in *; simpl in *; lia|].
    exact Hp.
Qed.

(** The embedding step of app.py. *)
Lemma app_backfill_run w :
  exists g' new,
    app.backfill_embeddings embed_query w
    = (inr tt, World g' (stdout w ++ new))
    /\ (failures new = 0%nat -> embedded g').
Proof.
  unfold app.backfill_embeddings.
  pose proof (records_pending (db w)) as Hp.
  destruct (records_without_embedding (db w)) as [|rec recs] eqn:E.
  - exists (db w), [EmbedNothing]. split; [done|]. intros _.
    apply pending_nil_embedded. exact Hp.
  - set (records := rec :: recs) in *.
    change (truthy records) with true. cbv iota.
    unfold mbind, prog_bind, print at 1. cbn [fst snd].
    rewrite embed_loop_run.
    destruct (embed_loop_pending (length records) (enumerate records)
                (World (db w) (stdout w ++ [EmbedStart (length records)])))
      as (new & Hout & Hnew).
    simpl in Hout, Hnew.
    destruct (foldl _ _ _) as [g' out'] eqn:Ef. simpl in Hout, Hnew.
    exists g', ([EmbedStart (length records)] ++ new ++ [EmbedDone]).
    unfold print. simpl. rewrite Hout, <- !app_assoc. split; [done|].
    change (EmbedStart (S (length recs)) :: new ++ [EmbedDone])
      with ([EmbedStart (S (length recs))] ++ new ++ [EmbedDone]).
    rewrite !failures_app. intros Hz.
    apply pending_nil_embedded, Hnew; [lia|]. exact Hp.
Qed.

End backfill.

(** ** The icon table *)

(** C10.  [get_icon_for_category] is a total function of the category
    string: the six known categories map to six glyphs that differ from
    one another (and from the default), and every other string, the empty
    one included, maps to the default glyph. *)
Theorem get_icon_for_category_table :
  app.get_icon_for_category (lit "정치") = lit "🏛️"
  /\ app.get_icon_for_category (lit "경제") = lit "💼"
  /\ app.get_icon_for_category (lit "사회") = lit "👥"
  /\ app.get_icon_for_category (lit "생활/문화") = lit "🎭"
  /\ app.get_icon_for_category (lit "IT/과학") = lit "💻"
  /\ app.get_icon_for_category (lit "세계") = lit "🌍"
  /\ NoDup [lit "🏛️"; lit "💼"; lit "👥"; lit "🎭"; lit "💻"; lit "🌍"; lit "📰"]
  /\ app.get_icon_for_category [] = lit "📰"
  /\ forall category,
       category ∉ [lit "정치"; lit "경제"; lit "사회"; lit "생활/문화";
                   lit "IT/과학"; lit "세계"] ->
       app.get_icon_for_category category = lit "📰".
Proof.
  do 6 (split; [by vm_compute|]).
  split; [apply (bool_decide_unpack _); by vm_compute|].
  split; [by vm_compute|].
  intros category H. rewrite !not_elem_of_cons in H.
  destruct H as (H1 & H2 & H3 & H4 & H5 & H6 & _).
  unfold app.get_icon_for_category, app.icons.
  rewrite !lookup_insert_ne by congruence. by rewrite lookup_empty.
Qed.

Lemma get_icon_for_category_table_witness :
  app.get_icon_for_category (lit "스포츠") = lit "📰".
Proof.
  apply (proj2 (proj2 (proj2 (proj2 (proj2 (proj2 (proj2 (proj2
           get_icon_for_category_table)))))))).
  apply (bool_decide_unpack _). vm_compute. reflexivity.
Defined.

(** ** The search handler *)


Lemma print_text_prefix (prefix text : pystr) :
  existsb is_surrogate prefix = false ->
  print_text (prefix ++ text)
  = if existsb is_surrogate text then inl UnicodeEncodeError else inr tt.
Proof. intros H. unfold print_text. by rewrite existsb_app, H. Qed.



(** ** Graph-expanded retrieval *)

Section retrieval.
Implicit Types (g : graph) (seeds : list (node * float)).

(** The slice [[0..5]] keeps at most five related entries per result,
    in both files. *)
Lemma related_articles_at_most_five g seeds :
  Forall (fun h => (length (Tools_Retriever.related_articles h) <= 5)%nat)
         (Tools_Retriever.retrieval_query g seeds)
  /\ Forall (fun h => (length (app.related_articles h) <= 5)%nat)
            (app.retrieval_query g seeds).
Proof.
  split; apply Forall_fmap, Forall_forall; intros kv _; simpl;
    rewrite length_take; lia.
Qed.

Lemma distinct_subset {A} `{EqDecision A} (l : list A) (x : A) :
  x ∈ Tools_Retriever.distinct l -> x ∈ l.
Proof.
  unfold Tools_Retriever.distinct.
  assert (forall acc, x ∈ foldl (fun acc y => if bool_decide (y ∈ acc)
                                              then acc else acc ++ [y]) acc l ->
                      x ∈ acc \/ x ∈ l) as H.
  { induction l as [|y l IH]; intros acc Hx; simpl in Hx; [by left|].
    apply IH in Hx as [Hx|Hx]; [|right; by right].
    case_bool_decide; [by left|].
    apply elem_of_app in Hx as [Hx|Hx]; [by left|].
    apply list_elem_of_singleton in Hx as ->. right. left. }
  intros Hx. apply H in Hx as [Hx|Hx]; [|done]. by apply not_elem_of_nil in Hx.
Qed.

(** What a group collects comes from rows of its key. *)
Lemma add_to_group_rows {K V} `{EqDecision K} (acc : list (K * list V))
    (done : list (K * V)) (kv : K * V) :
  (forall k vs v, (k, vs) ∈ acc -> v ∈ vs -> (k, v) ∈ done) ->
  forall k vs v,
    (k, vs) ∈ Tools_Retriever.add_to_group acc kv -> v ∈ vs ->
    (k, v) ∈ done ++ [kv].
Proof.
  intros Hacc k vs v Hin Hv. destruct kv as [k1 v1].
  unfold Tools_Retriever.add_to_group in Hin. simpl in Hin.
  case_bool_decide.
  - apply list_elem_of_fmap in Hin as ([k0 vs0] & Heq & Hin0).
    simpl in Heq. case_bool_decide; injection Heq as -> ->.
    + subst. apply elem_of_app in Hv as [Hv|Hv].
      * apply elem_of_app. left. eapply Hacc; eassumption.
      * apply list_elem_of_singleton in Hv as ->.
        apply elem_of_app. right. left.
    + apply elem_of_app. left. eapply Hacc; eassumption.
  - apply elem_of_app in Hin as [Hin|Hin].
    + apply elem_of_app. left. eapply Hacc; eassumption.
    + apply list_elem_of_singleton in Hin. injection Hin as -> ->.
      apply list_elem_of_singleton in Hv as ->.
      apply elem_of_app. right. left.
Qed.

Lemma group_by_rows {K V} `{EqDecision K} (rows : list (K * V)) k vs v :
  (k, vs) ∈ Tools_Retriever.group_by rows -> v ∈ vs -> (k, v) ∈ rows.
Proof.
  unfold Tools_Retriever.group_by.
  assert (forall (acc : list (K * list V)) (done : list (K * V)),
    (forall k vs v, (k, vs) ∈ acc -> v ∈ vs -> (k, v) ∈ done) ->
    forall k vs v,
      (k, vs) ∈ foldl Tools_Retriever.add_to_group acc rows -> v ∈ vs ->
      (k, v) ∈ done ++ rows) as H.
  { induction rows as [|kv rows IH]; intros acc done Hacc k' vs' v' Hin Hv.
    - rewrite app_nil_r. by eapply Hacc.
    - simpl in Hin.
      replace (done ++ kv :: rows) with ((done ++ [kv]) ++ rows)
        by (by rewrite <- app_assoc).
      eapply (IH _ (done ++ [kv])); [|exact Hin|exact Hv].
      by apply add_to_group_rows. }
  intros Hin Hv. apply (H [] [] (fun k0 vs0 v0 Hk => False_ind _ (not_elem_of_nil _ Hk))
                          k vs v Hin Hv).
Qed.

(** Every related entry of a result is the entry of nulls, or the
    projection of another article of a category of the seed's article. *)
Lemma related_entry_origin g seeds h (e : Tools_Retriever.related) :
  h ∈ Tools_Retriever.retrieval_query g seeds ->
  e ∈ Tools_Retriever.related_articles h ->
  e = Tools_Retriever.Related None None None None
  \/ exists seed article category other,
       seed ∈ seeds
       /\ article ∈ match_in HAS_CHUNK Article seed.1 g
       /\ category ∈ match_out BELONGS_TO Category article g
       /\ other ∈ match_in BELONGS_TO Article category g
       /\ nid other <> nid article
       /\ e = Tools_Retriever.Related
                (prop "article_id" (Some other)) (prop "title" (Some other))
                (prop "url" (Some other)) (prop "published_date" (Some other)).
Proof.
  intros Hh He. unfold Tools_Retriever.retrieval_query in Hh.
  apply list_elem_of_fmap in Hh as ([k vs] & -> & Hkv). simpl in He.
  apply elem_of_take in He as (i & He & _).
  apply list_elem_of_lookup_2, distinct_subset in He.
  pose proof (group_by_rows _ _ _ _ Hkv He) as Hrow.
  apply list_elem_of_bind in Hrow as (seed & Hrow & Hseed).
  unfold Tools_Retriever.bindings in Hrow.
  apply list_elem_of_bind in Hrow as (article & Hrow & Harticle).
  apply list_elem_of_bind in Hrow as (category & Hrow & Hcategory).
  apply list_elem_of_bind in Hrow as (other & Hrow & Hother).
  apply list_elem_of_singleton in Hrow. injection Hrow as _ ->.
  destruct other as [other|]; [|by left]. right.
  unfold optional in Hother.
  destruct (filter _ _) as [|x xs] eqn:Ef in Hother;
    [by apply list_elem_of_singleton in Hother|].
  apply list_elem_of_fmap in Hother as (o & [= <-] & Ho).
  rewrite <- Ef in Ho. apply list_elem_of_filter in Ho as [Hne Ho].
  apply list_elem_of_bind in Ho as (c & Ho & Hc).
  destruct category as [category|]; [|by apply not_elem_of_nil in Hc].
  apply list_elem_of_singleton in Hc as ->.
  unfold optional in Hcategory.
  destruct (match_out BELONGS_TO Category article g) as [|y ys] eqn:Em;
    [by apply list_elem_of_singleton in Hcategory|].
  apply list_elem_of_fmap in Hcategory as (c' & [= <-] & Hc').
  exists seed, article, category, other.
  split; [done|]. split; [done|]. split; [by rewrite Em|].
  split; [done|]. by split.
Qed.

End retrieval.

(** C8: the code breaks the claim.  For an article that has no other
    article in its category, the [OPTIONAL MATCH] binds
    [related_article] to [null]; the map built from it is not [null], so
    [collect] keeps it: the result carries one related entry, all of whose
    fields are [null], and this entry is no article of the graph.  Here
    the graph holds a single article with one fragment, which is the
    seed. *)
Theorem retrieval_query_lone_article :
  let r := Graph_Build.Row (Some (lit "ART_001_0000001"))
             (Some (PStr (lit "제목"))) (Some (PStr (lit "https://n.news/1")))
             (Some (PStr (lit "2025-11-02 10:00")))
             (Some (PStr (lit "본문 텍스트"))) (Some (PStr (lit "매일경제")))
             (Some (PStr (lit "경제"))) in
  let g := db (Graph_Build.build_graph_from_dataframe [(0, r)] 500 50
                 (World empty [])).2 in
  let seeds := (fun n => (n, 1%N)) <$> filter (fun n => nlabel n = Content) (nodes g) in
  let null_entry := Tools_Retriever.Related None None None None in
  length seeds = 1%nat
  /\ Tools_Retriever.related_articles <$> Tools_Retriever.retrieval_query g seeds
     = [[null_entry]]
  /\ app.related_articles <$> app.retrieval_query g seeds = [[null_entry]]
  /\ Forall (fun a => nlabel a = Article ->
                      Tools_Retriever.Related
                        (prop "article_id" (Some a)) (prop "title" (Some a))
                        (prop "url" (Some a)) (prop "published_date" (Some a))
                      <> null_entry)
            (nodes g).
Proof.
  vm_compute. split; [reflexivity|]. split; [reflexivity|].
  split; [reflexivity|].
  repeat constructor; intros; discriminate.
Qed.

(* ===================================================================== *)
(** * Further properties of the code *)
(* ===================================================================== *)

(** ** More on the chunker *)

Section chunker_more.
Import Graph_Build.
Implicit Types text w f : pystr.

Lemma strip_piece w : exists p q, w = p ++ strip w ++ q.
Proof.
  destruct (lstrip_suffix w) as [p Hp].
  destruct (rstrip_prefix (lstrip w)) as [q Hq].
  exists p, q. unfold strip. by rewrite <- Hq.
Qed.

Lemma strip_length w : (length (strip w) <= length w)%nat.
Proof.
  destruct (strip_piece w) as (p & q & H).
  rewrite H at 2. rewrite !length_app. lia.
Qed.

(** A slice is a contiguous piece of the list. *)
Lemma slice_piece {A} (l : list A) (i j : Z) :
  exists p q, l = p ++ slice l i j ++ q.
Proof.
  unfold slice.
  set (lo := Z.to_nat (slice_bound (len l) i)).
  set (n := Z.to_nat (slice_bound (len l) j - slice_bound (len l) i)).
  exists (take lo l), (drop n (drop lo l)).
  by rewrite (take_drop n), take_drop.
Qed.

Lemma range_positions (n step : Z) (positions : list Z) :
  0 <= n -> range 0 n step = inr positions -> Forall (fun i => 0 <= i) positions.
Proof.
  intros Hn. unfold range.
  destruct (Z.eqb_spec step 0); [done|]. intros [= <-].
  apply Forall_fmap, Forall_forall. intros k Hk. simpl.
  apply elem_of_seq in Hk. unfold range_len in Hk.
  destruct (Z.ltb_spec 0 step); [nia|].
  destruct (Z.ltb_spec n 0); [lia|]. simpl in Hk. lia.
Qed.

Lemma window_length text (chunk_size i : Z) :
  0 <= i -> 0 <= chunk_size ->
  (length (window text chunk_size i) <= Z.to_nat chunk_size)%nat.
Proof.
  intros Hi Hc. unfold window. rewrite slice_take_drop by done.
  rewrite length_take. lia.
Qed.

(** What [chunk_text] returns, whenever it returns. *)
Lemma chunk_text_returns text chunk_size overlap fragments :
  chunk_text (PStr text) chunk_size overlap = inr fragments ->
  exists positions,
    Forall (fun i => 0 <= i) positions
    /\ fragments = strip <$> filter (fun w => ¬ blank w)
                                    (window text chunk_size <$> positions).
Proof.
  unfold chunk_text. destruct text as [|c text']; simpl.
  - intros [= <-]. by exists [].
  - set (text := c :: text').
    destruct (range 0 (len text) (chunk_size - overlap)) as [e|ps] eqn:E;
      simpl; [done|].
    intros [= <-]. exists ps. split.
    + eapply range_positions; [|exact E]. unfold len. lia.
    + apply chunk_loop.
Qed.

End chunker_more.

(** X1.  Every fragment [chunk_text] returns, for any chunk size and
    overlap, is a contiguous piece of the text, is not empty and has no
    white space at either end; for a chunk size that is not negative it
    is at most [chunk_size] characters long. *)
Theorem chunk_text_fragments_are_pieces
    (text : pystr) (chunk_size overlap : Z) (fragments : list pystr) :
  Graph_Build.chunk_text (PStr text) chunk_size overlap = inr fragments ->
  Forall (fun f => f <> [] /\ strip f = f
                   /\ (exists p q, text = p ++ f ++ q)
                   /\ (0 <= chunk_size ->
                       (length f <= Z.to_nat chunk_size)%nat)) fragments.
Proof.
  intros H. apply chunk_text_returns in H as (ps & Hps & ->).
  apply Forall_fmap, Forall_forall. intros w Hw.
  apply list_elem_of_filter in Hw as [Hnb Hw].
  apply list_elem_of_fmap in Hw as (i & -> & Hi).
  rewrite Forall_forall in Hps. specialize (Hps i Hi). simpl.
  split; [exact Hnb|]. split; [apply strip_idemp|]. split.
  - destruct (strip_piece (Graph_Build.window text chunk_size i)) as (p1 & q1 & H1).
    destruct (slice_piece text i (i + chunk_size)) as (p2 & q2 & H2).
    fold (Graph_Build.window text chunk_size i) in H2.
    exists (p2 ++ p1), (q1 ++ q2).
    rewrite H2 at 1. rewrite H1 at 1. by rewrite <- !app_assoc.
  - intros Hc. etrans; [apply strip_length|]. by apply window_length.
Qed.

Lemma chunk_text_fragments_are_pieces_witness :
  Forall (fun f => f <> [] /\ strip f = f
                   /\ (exists p q, lit " ab cd ef " = p ++ f ++ q)
                   /\ (0 <= 4 -> (length f <= Z.to_nat 4)%nat))
         [lit "ab"; lit "cd"; lit "ef"]
  /\ Forall (fun f => f <> [] /\ strip f = f
                      /\ (exists p q, lit " ab cd ef " = p ++ f ++ q)
                      /\ (0 <= -2 -> (length f <= Z.to_nat (-2))%nat))
            [lit "ab cd e"].
Proof.
  split.
  - apply (chunk_text_fragments_are_pieces (lit " ab cd ef ") 4 1).
    reflexivity.
  - apply (chunk_text_fragments_are_pieces (lit " ab cd ef ") (-2) (-5)).
    reflexivity.
Defined.

(** ** What the statements of Graph_Build.py keep *)

Section stable_steps.
Import Graph_Build Store.
Variable P : graph -> Prop.
Hypothesis HP : stable P.

Lemma stable_create_article_node data g :
  P g -> P (create_article_node data g).
Proof.
  destruct HP as [Hn _]. intros H.
  apply (Hn Article); [apply (bool_decide_unpack _); by vm_compute..|done].
Qed.

Lemma stable_create_content_node aid data ic g :
  P g -> P (create_content_node aid data g ic).
Proof.
  destruct HP as [Hn Hr]. intros H. unfold create_content_node.
  apply (Hr _ Content _ _ _ link_chunk).
  apply (Hn Content); [apply (bool_decide_unpack _); by vm_compute..|done].
Qed.

Lemma stable_create_content_nodes aid chunks data g :
  P g -> P (create_content_nodes aid chunks data g).
Proof.
  unfold create_content_nodes. generalize (enumerate chunks). intros ics.
  revert g. induction ics as [|ic ics IH]; intros g H; [done|].
  simpl. apply IH. by apply stable_create_content_node.
Qed.

Lemma stable_create_media aid source g :
  P g -> P (create_media_node_and_relationship aid source g).
Proof.
  destruct HP as [Hn Hr]. intros H. unfold create_media_node_and_relationship.
  destruct (isna source || is_empty_str source); [done|].
  destruct (param source) as [name|]; [|done].
  apply (Hr _ Media _ _ _ link_media).
  apply (Hn Media); [apply not_elem_of_nil..|done].
Qed.

Lemma stable_create_category aid category g :
  P g -> P (create_category_node_and_relationship aid category g).
Proof.
  destruct HP as [Hn Hr]. intros H.
  unfold create_category_node_and_relationship.
  destruct (isna category || is_empty_str category); [done|].
  destruct (param category) as [name|]; [|done].
  apply (Hr _ Category _ _ _ link_category).
  apply (Hn Category); [apply not_elem_of_nil..|done].
Qed.

Lemma stable_upsert_pass data chunks source category g :
  P g -> P (upsert_pass data chunks source category g).
Proof.
  intros H. unfold upsert_pass.
  by apply stable_create_category, stable_create_media,
          stable_create_content_nodes, stable_create_article_node.
Qed.

Lemma stable_ingest_step total chunk_size overlap w (ir : Z * row) :
  P (db w) -> P (db (ingest_step total chunk_size overlap w ir)).
Proof.
  intros H. rewrite ingest_step_run.
  destruct (chunk_text _ _ _); simpl.
  - by apply stable_create_article_node.
  - by apply stable_upsert_pass.
Qed.

(** Whatever the rows hold, and whichever of them fail, the loop of
    [build_graph_from_dataframe] keeps a property that its statements
    keep. *)
Lemma stable_build df chunk_size overlap w :
  P (db w) -> P (db (build_graph_from_dataframe df chunk_size overlap w).2).
Proof.
  rewrite build_graph_run. simpl.
  generalize (length df) at 1. intros total.
  revert w. induction df as [|ir irs IH]; intros w H; [done|].
  simpl. apply IH. by apply stable_ingest_step.
Qed.

End stable_steps.

Section store_invariants.
Import Graph_Build Store.
Implicit Types (g : graph) (l : label) (k : string) (v : value).

Lemma filter_fmap_length {A} (Q : A -> Prop) `{forall x, Decision (Q x)}
    (f : A -> A) (xs : list A) :
  (forall x, Q (f x) <-> Q x) ->
  length (filter Q (f <$> xs)) = length (filter Q xs).
Proof.
  intros Hf. induction xs as [|x xs IH]; [done|].
  rewrite fmap_cons, !filter_cons.
  destruct (decide (Q (f x))) as [Hy|Hn], (decide (Q x)) as [Hy'|Hn'];
    simpl; rewrite ?IH; try done.
  - destruct Hn'. by apply (proj1 (Hf x)).
  - destruct Hn. by apply (proj2 (Hf x)).
Qed.

(** After [MERGE (x:l {k: v}) SET ...] as many nodes match the pattern as
    before, and one when none did. *)
Lemma merge_node_bound_length l k v sets g :
  k ∉ sets.*1 ->
  length (bound l k v (merge_node l k v sets g))
  = Nat.max 1 (length (bound l k v g)).
Proof.
  intros Hk. unfold merge_node.
  destruct (existsb (matches l k v) (nodes g)) eqn:Hex.
  - apply existsb_bound in Hex.
    unfold bound at 1. simpl.
    rewrite filter_fmap_length.
    + fold (bound l k v g). destruct (bound l k v g); [done|]. simpl. lia.
    + intros n. destruct (matches l k v n) eqn:E; [|by rewrite E].
      rewrite matches_set_props by done. destruct n. simpl in *. by rewrite E.
  - assert (bound l k v g = []) as Hnil.
    { destruct (bound l k v g) eqn:E; [done|].
      assert (bound l k v g <> []) as H by (by rewrite E).
      apply existsb_bound in H. congruence. }
    assert (matches l k v (Node (fresh_id g) l (set_props sets {[k := v]}))
            = true) as Hnew.
    { rewrite matches_set_props by done. apply matches_true. simpl.
      split; [done|]. apply lookup_singleton_eq. }
    unfold bound at 1. simpl. rewrite filter_app.
    fold (bound l k v g). rewrite Hnil. simpl.
    by rewrite filter_cons, decide_True by done.
Qed.

Lemma stable_unique_keys :
  stable (fun g => forall l v, (length (bound l (key_of l) v g) <= 1)%nat).
Proof.
  split.
  - intros l v sets g Hk _ H l' v'.
    destruct (decide (l = l')) as [<-|Hl].
    + destruct (decide (v' = v)) as [->|Hv].
      * rewrite merge_node_bound_length by done. specialize (H l v). lia.
      * rewrite merge_node_bound_other; [apply H|]. right. done.
    + rewrite merge_node_bound_other; [apply H|]. by left.
  - intros v1 l2 v2 mk g _ H l v. by rewrite merge_rel_bound.
Qed.

Lemma satisfies_constraints g :
  Forall (satisfies g) constraints
  <-> forall l v, (length (bound l (key_of l) v g) <= 1)%nat.
Proof.
  unfold constraints. rewrite !Forall_cons, Forall_nil. unfold satisfies.
  simpl. split.
  - intros (Ha & Hc & Hm & Hcat & _) [] v; simpl; auto.
  - intros H. repeat split.
    + apply (H Article). + apply (H Content).
    + apply (H Media). + apply (H Category).
Qed.

Lemma merge_rels_NoDup (rs : list rel) g :
  NoDup (rels g) -> NoDup (rels (foldl merge_rel_between g rs)).
Proof.
  revert g. induction rs as [|r rs IH]; intros g H; [done|].
  simpl. apply IH. unfold merge_rel_between.
  destruct (bool_decide (r ∈ rels g)) eqn:E; [done|]. simpl.
  apply bool_decide_eq_false in E.
  apply NoDup_app. split; [done|]. split.
  - intros x Hx Hx'. apply list_elem_of_singleton in Hx'. by subst.
  - apply NoDup_singleton.
Qed.

Lemma stable_NoDup_rels : stable (fun g => NoDup (rels g)).
Proof.
  split.
  - intros l v sets g _ _ H. by rewrite merge_node_rels.
  - intros v1 l2 v2 mk g _ H. by apply merge_rels_NoDup.
Qed.

Lemma merge_node_ids l k v sets g :
  nid <$> nodes (merge_node l k v sets g) = nid <$> nodes g
  \/ nid <$> nodes (merge_node l k v sets g) = (nid <$> nodes g) ++ [fresh_id g].
Proof.
  unfold merge_node. destruct (existsb _ _); simpl.
  - left. rewrite <- list_fmap_compose. apply list_fmap_ext.
    intros i n _. simpl. by destruct (matches l k v n).
  - right. by rewrite fmap_app.
Qed.

Lemma fresh_id_fresh g : fresh_id g ∉ nid <$> nodes g.
Proof.
  intros H. unfold fresh_id in H.
  apply max_list_elem_of_le in H. lia.
Qed.

Lemma stable_unique_ids : stable unique_ids.
Proof.
  unfold unique_ids. split.
  - intros l v sets g _ _ H.
    destruct (merge_node_ids l (key_of l) v sets g) as [-> | ->]; [done|].
    apply NoDup_app. split; [done|]. split; [|apply NoDup_singleton].
    intros x Hx Hx'. apply list_elem_of_singleton in Hx'. subst.
    by apply fresh_id_fresh in Hx.
  - intros v1 l2 v2 mk g _ H. by rewrite merge_rel_nodes.
Qed.

Lemma nodes_at_elem l i g :
  nodes_at l i g <> [] <-> exists n, n ∈ nodes g /\ nid n = i /\ nlabel n = l.
Proof.
  unfold nodes_at. split.
  - intros H. destruct (filter _ _) as [|n ns] eqn:E; [done|].
    assert (n ∈ filter (fun n => nid n = i ∧ nlabel n = l) (nodes g)) as Hn
      by (rewrite E; left).
    apply list_elem_of_filter in Hn. exists n. tauto.
  - intros (n & Hn & Hi & Hl) E.
    assert (n ∈ filter (fun n => nid n = i ∧ nlabel n = l) (nodes g)) as Hn'
      by (by apply list_elem_of_filter).
    rewrite E in Hn'. by apply not_elem_of_nil in Hn'.
Qed.

Lemma merge_node_nodes_at l k v sets l' i g :
  nodes_at l' i g <> [] -> nodes_at l' i (merge_node l k v sets g) <> [].
Proof.
  rewrite !nodes_at_elem. intros (n & Hn & Hi & Hl).
  unfold merge_node. destruct (existsb _ _); simpl.
  - eexists. split; [apply list_elem_of_fmap; by exists n|].
    by destruct (matches l k v n).
  - exists n. split; [|done]. apply elem_of_app. by left.
Qed.

Lemma merge_rels_origin (rs : list rel) g r :
  r ∈ rels (foldl merge_rel_between g rs) -> r ∈ rels g \/ r ∈ rs.
Proof.
  revert g. induction rs as [|r0 rs IH]; intros g H; [by left|].
  simpl in H. apply IH in H as [H|H]; [|right; by right].
  unfold merge_rel_between in H.
  destruct (bool_decide (r0 ∈ rels g)); [by left|]. simpl in H.
  apply elem_of_app in H as [H|H]; [by left|].
  apply list_elem_of_singleton in H. subst. right. left.
Qed.

Lemma match_ids_nodes_at l k v g i :
  i ∈ match_ids l k v g -> nodes_at l i g <> [].
Proof.
  rewrite match_ids_bound. intros H.
  apply list_elem_of_fmap in H as (n & -> & Hn).
  apply elem_of_bound in Hn as [Hn Hm]. apply matches_true in Hm as [Hl _].
  apply nodes_at_elem. by exists n.
Qed.

Lemma stable_well_typed : stable well_typed.
Proof.
  unfold well_typed. split.
  - intros l v sets g _ _ H r Hr. rewrite merge_node_rels in Hr.
    destruct (H r Hr). split; by apply merge_node_nodes_at.
  - intros v1 l2 v2 mk g Hlink H r Hr.
    assert (forall l i, nodes_at l i
              (merge_rel Article "article_id" v1 l2 (key_of l2) v2 mk g)
            = nodes_at l i g) as Hat
      by (intros; unfold nodes_at; by rewrite merge_rel_nodes).
    rewrite !Hat.
    apply merge_rels_origin in Hr as [Hr|Hr]; [by apply H|].
    apply list_elem_of_fmap in Hr as ([a c] & -> & Hac).
    apply list_elem_of_In, in_prod_iff in Hac as [Ha Hc].
    apply list_elem_of_In in Ha, Hc. simpl.
    apply match_ids_nodes_at in Ha, Hc.
    destruct Hlink; simpl; by split.
Qed.

Lemma extends_refl g : extends g g.
Proof. split; [done|]. intros n Hn. by exists n. Qed.

Lemma extends_trans g1 g2 g3 : extends g1 g2 -> extends g2 g3 -> extends g1 g3.
Proof.
  intros [Hr1 Hn1] [Hr2 Hn2]. split; [by auto|].
  intros n Hn.
  destruct (Hn1 n Hn) as (n' & Hn' & Hi & Hl & Hk & He).
  destruct (Hn2 n' Hn') as (n'' & Hn'' & Hi' & Hl' & Hk' & He').
  exists n''. rewrite Hl in Hk'. repeat split; congruence.
Qed.

Lemma stable_extends g0 : stable (extends g0).
Proof.
  split.
  - intros l v sets g Hk He H. eapply extends_trans; [exact H|].
    split; [by rewrite merge_node_rels|].
    intros n Hn. unfold merge_node. destruct (existsb _ _); simpl.
    + eexists. split; [apply list_elem_of_fmap; by exists n|].
      destruct (matches l (key_of l) v n) eqn:E; [|done]. simpl.
      apply matches_true in E as [<- _].
      by rewrite !set_props_lookup_notin.
    + exists n. split; [|done]. apply elem_of_app. by left.
  - intros v1 l2 v2 mk g _ H. eapply extends_trans; [exact H|].
    split; [apply merge_rel_mono|].
    intros n Hn. exists n. by rewrite merge_rel_nodes.
Qed.

End store_invariants.

(** X2.  The ingest never breaks the uniqueness that [create_constraints]
    asks for: when no two nodes of a label share their key before
    [build_graph_from_dataframe] runs, none do afterwards, whatever the
    rows hold and whichever of them fail. *)
Theorem build_graph_keeps_constraints
    (df : list (Z * Graph_Build.row)) (chunk_size overlap : Z) (w : world) :
  Forall (Store.satisfies (db w)) Store.constraints ->
  Forall (Store.satisfies
            (db (Graph_Build.build_graph_from_dataframe df chunk_size overlap w).2))
         Store.constraints.
Proof.
  rewrite !satisfies_constraints.
  apply (stable_build _ stable_unique_keys).
Qed.

Lemma build_graph_keeps_constraints_witness :
  Forall (Store.satisfies
            (db (Graph_Build.build_graph_from_dataframe
                   [(0, Graph_Build.Row (Some (lit "A1")) (Some (PStr (lit "T")))
                      None None (Some (PStr (lit "one two")))
                      (Some (PStr (lit "M"))) (Some (PStr (lit "C"))));
                    (1, Graph_Build.Row (Some (lit "A1")) (Some (PStr (lit "U")))
                      None None (Some (PStr (lit "three")))
                      (Some (PStr (lit "M"))) (Some PNaN))]
                   4 1 (World (Graph_Build.clear_database empty) [])).2))
         Store.constraints.
Proof.
  apply build_graph_keeps_constraints.
  unfold Store.constraints. repeat constructor; intros v; simpl; lia.
Defined.

(** X3.  The ingest never draws a relationship twice: when the graph
    holds no relationship more than once before
    [build_graph_from_dataframe] runs, it holds none more than once
    afterwards, also when rows repeat an article, a publisher or a
    category. *)
Theorem build_graph_no_duplicate_relationship
    (df : list (Z * Graph_Build.row)) (chunk_size overlap : Z) (w : world) :
  NoDup (rels (db w)) ->
  NoDup (rels (db (Graph_Build.build_graph_from_dataframe
                     df chunk_size overlap w).2)).
Proof. apply (stable_build _ stable_NoDup_rels). Qed.

Lemma build_graph_no_duplicate_relationship_witness :
  NoDup (rels (db (Graph_Build.build_graph_from_dataframe
                     [(9, Graph_Build.Row (Some (lit "A1")) None None None
                        (Some (PStr (lit "one two")))
                        (Some (PStr (lit "M"))) (Some (PStr (lit "C"))));
                      (-3, Graph_Build.Row (Some (lit "A1")) None None None
                        (Some (PStr (lit "one two")))
                        (Some (PStr (lit "M"))) (Some (PStr (lit "C"))))]
                     4 1 (World (Graph_Build.clear_database empty) [])).2)).
Proof.
  apply build_graph_no_duplicate_relationship. simpl. apply NoDup_nil_2.
Defined.

(** X4.  The ingest keeps the graph well formed: when node identities
    are unique and every relationship joins two nodes of the graph with
    the labels of its pattern (an article to its fragment, a publisher to
    its article, an article to its category), the same holds after
    [build_graph_from_dataframe]. *)
Theorem build_graph_well_formed
    (df : list (Z * Graph_Build.row)) (chunk_size overlap : Z) (w : world) :
  Store.unique_ids (db w) -> Store.well_typed (db w) ->
  Store.unique_ids
    (db (Graph_Build.build_graph_from_dataframe df chunk_size overlap w).2)
  /\ Store.well_typed
       (db (Graph_Build.build_graph_from_dataframe df chunk_size overlap w).2).
Proof.
  intros Hi Ht. split.
  - by apply (stable_build _ stable_unique_ids).
  - by apply (stable_build _ stable_well_typed).
Qed.

Lemma build_graph_well_formed_witness :
  Store.unique_ids
    (db (Graph_Build.build_graph_from_dataframe
           [(0, Graph_Build.Row (Some (lit "A1")) None None None
              (Some (PStr (lit "one two")))
              (Some (PStr (lit "M"))) (Some (PStr (lit "C"))));
            (1, Graph_Build.Row (Some (lit "A2")) None None None
              (Some (PStr (lit "three")))
              (Some (PStr (lit "M"))) None)]
           4 1 (World (Graph_Build.clear_database empty) [])).2)
  /\ Store.well_typed
       (db (Graph_Build.build_graph_from_dataframe
              [(0, Graph_Build.Row (Some (lit "A1")) None None None
                 (Some (PStr (lit "one two")))
                 (Some (PStr (lit "M"))) (Some (PStr (lit "C"))));
               (1, Graph_Build.Row (Some (lit "A2")) None None None
                 (Some (PStr (lit "three")))
                 (Some (PStr (lit "M"))) None)]
              4 1 (World (Graph_Build.clear_database empty) [])).2).
Proof.
  apply build_graph_well_formed.
  - apply NoDup_nil_2.
  - intros r Hr. by apply not_elem_of_nil in Hr.
Defined.

(** X5.  The ingest only adds: after [build_graph_from_dataframe] every
    relationship of the graph is still there, and every node is still
    there with its identity, its label, the key it is merged on and the
    embedding it held (or none, when it held none). *)
Theorem build_graph_only_adds
    (df : list (Z * Graph_Build.row)) (chunk_size overlap : Z) (w : world) :
  Store.extends
    (db w)
    (db (Graph_Build.build_graph_from_dataframe df chunk_size overlap w).2).
Proof. apply (stable_build _ (stable_extends (db w))), extends_refl. Qed.

(** ** What a row leaves in the graph *)

Section row_lookup.
Import Graph_Build Store.
Implicit Types (g : graph) (data : article_data) (aid : pystr).

Lemma article_sets_lookup data m :
  set_props (article_sets data) m !! "title" = param (title data)
  /\ set_props (article_sets data) m !! "url" = param (url data)
  /\ set_props (article_sets data) m !! "published_date"
     = param (published_date data).
Proof.
  unfold article_sets, set_props. cbn [foldl]. repeat split.
  - rewrite !(set_prop_lookup_ne _ (_, _) "title") by done.
    apply (set_prop_lookup_eq _ ("title", _)).
  - rewrite !(set_prop_lookup_ne _ (_, _) "url") by done.
    apply (set_prop_lookup_eq _ ("url", _)).
  - apply (set_prop_lookup_eq _ ("published_date", _)).
Qed.

(** The articles bound to an identity after [create_article_node] hold
    the values of the record. *)
Lemma create_article_holds data g a :
  a ∈ bound Article "article_id" (VStr (article_id data))
            (create_article_node data g) ->
  nprops a !! "title" = param (title data)
  /\ nprops a !! "url" = param (url data)
  /\ nprops a !! "published_date" = param (published_date data).
Proof.
  intros Ha.
  destruct (merge_node_settles Article "article_id" (VStr (article_id data))
              (article_sets data) g (article_key_kept data)) as [_ Hall].
  rewrite Forall_forall in Hall. specialize (Hall a Ha).
  rewrite <- Hall. apply article_sets_lookup.
Qed.

Lemma create_article_other data aid g :
  aid <> article_id data ->
  bound Article "article_id" (VStr aid) (create_article_node data g)
  = bound Article "article_id" (VStr aid) g.
Proof.
  intros H. apply merge_node_bound_other. right.
  split; [done|]. split; [congruence|apply article_key_kept].
Qed.

(** Only the first statement of a row touches the articles. *)
Lemma ingest_step_articles total chunk_size overlap w (ir : Z * row) k v :
  bound Article k v (db (ingest_step total chunk_size overlap w ir))
  = bound Article k v (create_article_node (row_data ir.2) (db w)).
Proof.
  rewrite ingest_step_run. destruct (chunk_text _ _ _); [done|]. simpl.
  unfold upsert_pass.
  rewrite (keeps_create_category Article), (keeps_create_media Article),
    (keeps_create_content_nodes Article); done.
Qed.

Lemma ingest_loop_other_articles total chunk_size overlap
    (irs : list (Z * row)) w aid :
  Forall (fun ir => article_id (row_data ir.2) <> aid) irs ->
  bound Article "article_id" (VStr aid)
        (db (foldl (ingest_step total chunk_size overlap) w irs))
  = bound Article "article_id" (VStr aid) (db w).
Proof.
  revert w. induction irs as [|ir irs IH]; intros w H; [done|].
  apply Forall_cons in H as [Hne H]. simpl. rewrite IH by done.
  rewrite ingest_step_articles. apply create_article_other. congruence.
Qed.

Lemma enumerate_from_app {X} (start : nat) (xs ys : list X) :
  enumerate_from start (xs ++ ys)
  = enumerate_from start xs ++ enumerate_from (start + length xs) ys.
Proof.
  revert start. induction xs as [|x xs IH]; intros start; simpl.
  - by rewrite Nat.add_0_r.
  - rewrite IH. do 3 f_equal. lia.
Qed.

Lemma enumerate_from_snd {X} (start : nat) (xs : list X) :
  (enumerate_from start xs).*2 = xs.
Proof.
  revert start. induction xs as [|x xs IH]; intros start; [done|].
  simpl. by rewrite IH.
Qed.

End row_lookup.

(** X6.  When several rows carry the same article identity, the last one
    wins: after [build_graph_from_dataframe], the article of a row that no
    later row repeats is in the graph, and every node holding its
    identity holds the title, the address and the date of that row (a
    missing title or address as the value pandas gives it, the date as
    text), whatever the index of the frame is. *)
Theorem build_graph_last_row_wins
    (before after : list (Z * Graph_Build.row))
    (idx : Z) (r : Graph_Build.row)
    (chunk_size overlap : Z) (w : world) (a : node) :
  Forall (fun ir' => default [] (Graph_Build.col_article_id ir'.2)
                     <> default [] (Graph_Build.col_article_id r)) after ->
  a ∈ nodes (db (Graph_Build.build_graph_from_dataframe
                   (before ++ (idx, r) :: after) chunk_size overlap w).2) ->
  nlabel a = Article ->
  nprops a !! "article_id"
  = Some (VStr (default [] (Graph_Build.col_article_id r))) ->
  nprops a !! "title" = param (Graph_Build.get (Graph_Build.col_title r))
  /\ nprops a !! "url" = param (Graph_Build.get (Graph_Build.col_url r))
  /\ nprops a !! "published_date"
     = Some (VStr (str (Graph_Build.get (Graph_Build.col_published_date r)))).
Proof.
  intros Hafter Ha Hl Hid.
  assert (a ∈ bound Article "article_id"
                (VStr (default [] (Graph_Build.col_article_id r)))
                (db (Graph_Build.build_graph_from_dataframe
                       (before ++ (idx, r) :: after) chunk_size overlap w).2))
    as Hb.
  { apply elem_of_bound. split; [done|]. by apply matches_true. }
  clear Ha. rewrite build_graph_run in Hb. cbn [snd] in Hb.
  rewrite foldl_app in Hb. cbn [foldl] in Hb.
  rewrite ingest_loop_other_articles in Hb by done.
  rewrite ingest_step_articles in Hb.
  apply (create_article_holds (row_data r)) in Hb. exact Hb.
Qed.

Lemma build_graph_last_row_wins_witness :
  exists a,
    a ∈ nodes (db (Graph_Build.build_graph_from_dataframe
                     ([(0, Graph_Build.Row (Some (lit "A1")) (Some (PStr (lit "old")))
                                   None None None None None)]
                      ++ (1, Graph_Build.Row (Some (lit "A1"))
                                    (Some (PStr (lit "new")))
                                    None None None None None)
                      :: [(2, Graph_Build.Row (Some (lit "A2"))
                                     (Some (PStr (lit "x")))
                                     None None None None None)])
                     500 50 (World empty [])).2)
    /\ nprops a !! "title" = Some (VStr (lit "new"))
    /\ nprops a !! "url" = Some (VStr [])
    /\ nprops a !! "published_date" = Some (VStr []).
Proof.
  exists (List.hd (Node 0 Article ∅)
            (nodes (db (Graph_Build.build_graph_from_dataframe
                     ([(0, Graph_Build.Row (Some (lit "A1")) (Some (PStr (lit "old")))
                                   None None None None None)]
                      ++ (1, Graph_Build.Row (Some (lit "A1"))
                                    (Some (PStr (lit "new")))
                                    None None None None None)
                      :: [(2, Graph_Build.Row (Some (lit "A2"))
                                     (Some (PStr (lit "x")))
                                     None None None None None)])
                     500 50 (World empty [])).2))).
  assert (Hin : List.hd (Node 0 Article ∅)
            (nodes (db (Graph_Build.build_graph_from_dataframe
                     ([(0, Graph_Build.Row (Some (lit "A1")) (Some (PStr (lit "old")))
                                   None None None None None)]
                      ++ (1, Graph_Build.Row (Some (lit "A1"))
                                    (Some (PStr (lit "new")))
                                    None None None None None)
                      :: [(2, Graph_Build.Row (Some (lit "A2"))
                                     (Some (PStr (lit "x")))
                                     None None None None None)])
                     500 50 (World empty [])).2))
          ∈ nodes (db (Graph_Build.build_graph_from_dataframe
                     ([(0, Graph_Build.Row (Some (lit "A1")) (Some (PStr (lit "old")))
                                   None None None None None)]
                      ++ (1, Graph_Build.Row (Some (lit "A1"))
                                    (Some (PStr (lit "new")))
                                    None None None None None)
                      :: [(2, Graph_Build.Row (Some (lit "A2"))
                                     (Some (PStr (lit "x")))
                                     None None None None None)])
                     500 50 (World empty [])).2)).
  { apply list_elem_of_In. vm_compute. left. reflexivity. }
  split; [exact Hin|].
  apply (build_graph_last_row_wins
           [(0, Graph_Build.Row (Some (lit "A1")) (Some (PStr (lit "old")))
                        None None None None None)]
           [(2, Graph_Build.Row (Some (lit "A2")) (Some (PStr (lit "x")))
                        None None None None None)]
           1
           (Graph_Build.Row (Some (lit "A1")) (Some (PStr (lit "new")))
              None None None None None)
           500 50 (World empty []));
    [|exact Hin|vm_compute; reflexivity|vm_compute; reflexivity].
  repeat constructor. vm_compute. discriminate.
Defined.

Section row_contents.
Import Graph_Build Store.
Implicit Types (g : graph) (data : article_data) (aid : pystr).

Lemma content_sets_lookup aid data (ic : nat * pystr) m :
  set_props (content_sets aid data ic) m !! "chunk" = Some (VStr ic.2)
  /\ set_props (content_sets aid data ic) m !! "article_id" = Some (VStr aid)
  /\ set_props (content_sets aid data ic) m !! "title" = param (title data)
  /\ set_props (content_sets aid data ic) m !! "chunk_index"
     = Some (VInt (Z.of_nat ic.1)).
Proof.
  unfold content_sets, set_props. cbn [foldl]. repeat split.
  - rewrite !(set_prop_lookup_ne _ (_, _) "chunk") by done.
    apply (set_prop_lookup_eq _ ("chunk", _)).
  - rewrite !(set_prop_lookup_ne _ (_, _) "article_id") by done.
    apply (set_prop_lookup_eq _ ("article_id", _)).
  - rewrite !(set_prop_lookup_ne _ (_, _) "title") by done.
    apply (set_prop_lookup_eq _ ("title", _)).
  - apply (set_prop_lookup_eq _ ("chunk_index", _)).
Qed.

(** A settled pattern binds a node, which holds the values set. *)
Lemma settled_node l k v sets g :
  settled l k v sets g ->
  exists n, n ∈ nodes g /\ nlabel n = l /\ nprops n !! k = Some v
            /\ set_props sets (nprops n) = nprops n.
Proof.
  intros [Hne Hall]. destruct (bound l k v g) as [|n ns] eqn:E; [done|].
  assert (Hn : n ∈ bound l k v g) by (rewrite E; left).
  apply Forall_cons in Hall as [Hset _].
  apply elem_of_bound in Hn as [Hin Hm]. apply matches_true in Hm as [Hl Hk].
  by exists n.
Qed.

(** Linked patterns: every pair of bound nodes is related. *)
Lemma linked_pair l1 k1 v1 l2 k2 v2 mk g a c :
  linked l1 k1 v1 l2 k2 v2 mk g ->
  a ∈ nodes g -> nlabel a = l1 -> nprops a !! k1 = Some v1 ->
  c ∈ nodes g -> nlabel c = l2 -> nprops c !! k2 = Some v2 ->
  mk (nid a) (nid c) ∈ rels g.
Proof.
  intros Hl Ha Hla Hka Hc Hlc Hkc. unfold linked in Hl.
  rewrite Forall_forall in Hl. apply Hl.
  apply list_elem_of_fmap. exists (nid a, nid c). split; [done|].
  apply list_elem_of_In, in_prod_iff. rewrite !match_ids_bound.
  split; apply list_elem_of_In, list_elem_of_fmap.
  - exists a. split; [done|]. apply elem_of_bound. split; [done|].
    by apply matches_true.
  - exists c. split; [done|]. apply elem_of_bound. split; [done|].
    by apply matches_true.
Qed.

Lemma ingest_row_done total chunk_size overlap idx r w fragments :
  chunk_text (default PNone (col_content r)) chunk_size overlap = inr fragments ->
  pass_done (row_data r) fragments (default PNone (col_source r))
            (default PNone (col_category r))
            (db (ingest_row total chunk_size overlap idx r w).2).
Proof.
  intros H. rewrite ingest_row_run, H. simpl. apply upsert_pass_done.
Qed.

Lemma attached_node l mk aid (s : pystr) g :
  s <> [] ->
  attached l mk aid (PStr s) g ->
  exists x, x ∈ nodes g /\ nlabel x = l /\ nprops x !! "name" = Some (VStr s)
    /\ forall a, a ∈ nodes g -> nlabel a = Article ->
                 nprops a !! "article_id" = Some (VStr aid) ->
                 mk (nid a) (nid x) ∈ rels g.
Proof.
  intros Hs. unfold attached. simpl.
  destruct s as [|ch s]; [done|]. simpl. intros [Hset Hl].
  apply settled_node in Hset as (x & Hx & Hlx & Hkx & _).
  exists x. repeat split; try done.
  intros a Ha Hla Hka. by eapply linked_pair.
Qed.

Lemma create_article_count data aid g :
  length (bound Article "article_id" (VStr aid) (create_article_node data g))
  = if bool_decide (aid = article_id data)
    then Nat.max 1 (length (bound Article "article_id" (VStr aid) g))
    else length (bound Article "article_id" (VStr aid) g).
Proof.
  case_bool_decide as E.
  - subst. apply merge_node_bound_length, article_key_kept.
  - by rewrite create_article_other.
Qed.

Lemma ingest_loop_article_count total chunk_size overlap
    (irs : list (Z * row)) w aid :
  length (bound Article "article_id" (VStr aid)
                (db (foldl (ingest_step total chunk_size overlap) w irs)))
  = if bool_decide (aid ∈ (fun r => default [] (col_article_id r)) <$> irs.*2)
    then Nat.max 1 (length (bound Article "article_id" (VStr aid) (db w)))
    else length (bound Article "article_id" (VStr aid) (db w)).
Proof.
  revert w. induction irs as [|ir irs IH]; intros w; [done|].
  simpl. rewrite IH, ingest_step_articles, create_article_count.
  change (article_id (row_data ir.2)) with (default [] (col_article_id ir.2)).
  set (rest := list_fmap row pystr _ _).
  destruct (decide (aid = default [] (col_article_id ir.2))) as [Heq|Hne].
  - rewrite (bool_decide_eq_true_2 (aid = _)) by done.
    rewrite (bool_decide_eq_true_2 (aid ∈ _ :: _)) by (rewrite Heq at 1; left).
    case_bool_decide; lia.
  - rewrite (bool_decide_eq_false_2 (aid = _)) by done.
    destruct (decide (aid ∈ rest)) as [Hin|Hout].
    + rewrite (bool_decide_eq_true_2 (aid ∈ rest)) by done.
      by rewrite (bool_decide_eq_true_2 (aid ∈ _ :: _)) by (by right).
    + rewrite (bool_decide_eq_false_2 (aid ∈ rest)) by done.
      rewrite (bool_decide_eq_false_2 (aid ∈ _ :: _)); [done|].
      rewrite elem_of_cons. tauto.
Qed.

End row_contents.

(** X7.  A row whose text is cut without an error leaves every fragment
    in the graph: for the fragment at index [i] there is a fragment node
    with the identity [<article_id>_chunk_<i>] that holds the fragment,
    its index, the identity and the title of the article, and every
    article node with that identity has a [HAS_CHUNK] relationship to
    it. *)
Theorem ingest_row_stores_fragments
    (total : nat) (chunk_size overlap : Z) (idx : Z)
    (r : Graph_Build.row)
    (w : world) (fragments : list pystr) (i : nat) (f : pystr) :
  Graph_Build.chunk_text (default PNone (Graph_Build.col_content r))
                         chunk_size overlap = inr fragments ->
  fragments !! i = Some f ->
  exists c,
    c ∈ nodes (db (Graph_Build.ingest_row total chunk_size overlap idx r w).2)
    /\ nlabel c = Content
    /\ nprops c !! "content_id"
       = Some (VStr (Graph_Build.content_id
                       (default [] (Graph_Build.col_article_id r)) i))
    /\ nprops c !! "chunk" = Some (VStr f)
    /\ nprops c !! "chunk_index" = Some (VInt (Z.of_nat i))
    /\ nprops c !! "article_id"
       = Some (VStr (default [] (Graph_Build.col_article_id r)))
    /\ nprops c !! "title" = param (Graph_Build.get (Graph_Build.col_title r))
    /\ forall a,
         a ∈ nodes (db (Graph_Build.ingest_row total chunk_size overlap idx r w).2) ->
         nlabel a = Article ->
         nprops a !! "article_id"
         = Some (VStr (default [] (Graph_Build.col_article_id r))) ->
         Rel (nid a) HAS_CHUNK (nid c)
         ∈ rels (db (Graph_Build.ingest_row total chunk_size overlap idx r w).2).
Proof.
  intros Hcut Hf.
  destruct (ingest_row_done total chunk_size overlap idx r w fragments Hcut)
    as (_ & Hall & _ & _).
  rewrite Forall_forall in Hall.
  destruct (Hall (i, f)) as [Hset Hlink]; [by apply elem_of_enumerate|].
  simpl in Hset, Hlink.
  apply settled_node in Hset as (c & Hc & Hlc & Hkc & Hfix).
  destruct (content_sets_lookup (default [] (Graph_Build.col_article_id r))
              (row_data r) (i, f) (nprops c)) as (H1 & H2 & H3 & H4).
  change (Graph_Build.article_id (row_data r))
    with (default [] (Graph_Build.col_article_id r)) in Hfix.
  rewrite Hfix in H1, H2, H3, H4.
  exists c. repeat split; try done.
  intros a Ha Hla Hka.
  by apply (linked_pair _ _ _ _ _ _ _ _ a c Hlink).
Qed.

Lemma ingest_row_stores_fragments_witness :
  exists c,
    c ∈ nodes (db (Graph_Build.ingest_row 1 4 1 0
                     (Graph_Build.Row (Some (lit "A1")) (Some (PStr (lit "T")))
                        None None (Some (PStr (lit "one two"))) None None)
                     (World empty [])).2)
    /\ nlabel c = Content
    /\ nprops c !! "content_id" = Some (VStr (lit "A1_chunk_1"))
    /\ nprops c !! "chunk" = Some (VStr (lit "two"))
    /\ nprops c !! "chunk_index" = Some (VInt 1)
    /\ nprops c !! "article_id" = Some (VStr (lit "A1"))
    /\ nprops c !! "title" = Some (VStr (lit "T"))
    /\ forall a,
         a ∈ nodes (db (Graph_Build.ingest_row 1 4 1 0
                     (Graph_Build.Row (Some (lit "A1")) (Some (PStr (lit "T")))
                        None None (Some (PStr (lit "one two"))) None None)
                     (World empty [])).2) ->
         nlabel a = Article ->
         nprops a !! "article_id" = Some (VStr (lit "A1")) ->
         Rel (nid a) HAS_CHUNK (nid c)
         ∈ rels (db (Graph_Build.ingest_row 1 4 1 0
                     (Graph_Build.Row (Some (lit "A1")) (Some (PStr (lit "T")))
                        None None (Some (PStr (lit "one two"))) None None)
                     (World empty [])).2).
Proof.
  apply (ingest_row_stores_fragments 1 4 1 0
           (Graph_Build.Row (Some (lit "A1")) (Some (PStr (lit "T")))
              None None (Some (PStr (lit "one two"))) None None)
           (World empty []) [lit "one"; lit "two"; lit "o"] 1 (lit "two"));
    reflexivity.
Defined.

(** X8.  A row that is ingested without an error and names a publisher
    leaves a publisher node of that name with a [PUBLISHED] relationship
    to every article node of the row's identity; a row that names a
    category leaves a category node of that name, to which every such
    article node has a [BELONGS_TO] relationship. *)
Theorem ingest_row_attaches
    (total : nat) (chunk_size overlap : Z) (idx : Z)
    (r : Graph_Build.row)
    (w : world) (fragments : list pystr) :
  Graph_Build.chunk_text (default PNone (Graph_Build.col_content r))
                         chunk_size overlap = inr fragments ->
  (forall s, Graph_Build.col_source r = Some (PStr s) -> s <> [] ->
     exists m,
       m ∈ nodes (db (Graph_Build.ingest_row total chunk_size overlap idx r w).2)
       /\ nlabel m = Media /\ nprops m !! "name" = Some (VStr s)
       /\ forall a,
            a ∈ nodes (db (Graph_Build.ingest_row total chunk_size overlap idx r w).2) ->
            nlabel a = Article ->
            nprops a !! "article_id"
            = Some (VStr (default [] (Graph_Build.col_article_id r))) ->
            Rel (nid m) PUBLISHED (nid a)
            ∈ rels (db (Graph_Build.ingest_row total chunk_size overlap idx r w).2))
  /\ (forall s, Graph_Build.col_category r = Some (PStr s) -> s <> [] ->
        exists cat,
          cat ∈ nodes (db (Graph_Build.ingest_row total chunk_size overlap idx r w).2)
          /\ nlabel cat = Category /\ nprops cat !! "name" = Some (VStr s)
          /\ forall a,
               a ∈ nodes (db (Graph_Build.ingest_row total chunk_size overlap idx r w).2) ->
               nlabel a = Article ->
               nprops a !! "article_id"
               = Some (VStr (default [] (Graph_Build.col_article_id r))) ->
               Rel (nid a) BELONGS_TO (nid cat)
               ∈ rels (db (Graph_Build.ingest_row total chunk_size overlap idx r w).2)).
Proof.
  intros Hcut.
  destruct (ingest_row_done total chunk_size overlap idx r w fragments Hcut)
    as (_ & _ & Hm & Hc).
  split; intros s Hs Hne.
  - rewrite Hs in Hm. simpl in Hm.
    by apply (attached_node Media (fun a m => Rel m PUBLISHED a)).
  - rewrite Hs in Hc. simpl in Hc.
    by apply (attached_node Category (fun a c => Rel a BELONGS_TO c)).
Qed.

Lemma ingest_row_attaches_witness :
  (exists m,
      m ∈ nodes (db (Graph_Build.ingest_row 1 4 1 0
                     (Graph_Build.Row (Some (lit "A1")) None None None
                        (Some (PStr (lit "one two")))
                        (Some (PStr (lit "M"))) (Some (PStr (lit "C"))))
                     (World empty [])).2)
      /\ nlabel m = Media /\ nprops m !! "name" = Some (VStr (lit "M"))
      /\ forall a,
           a ∈ nodes (db (Graph_Build.ingest_row 1 4 1 0
                     (Graph_Build.Row (Some (lit "A1")) None None None
                        (Some (PStr (lit "one two")))
                        (Some (PStr (lit "M"))) (Some (PStr (lit "C"))))
                     (World empty [])).2) ->
           nlabel a = Article ->
           nprops a !! "article_id" = Some (VStr (lit "A1")) ->
           Rel (nid m) PUBLISHED (nid a) ∈ rels (db (Graph_Build.ingest_row 1 4 1 0
                     (Graph_Build.Row (Some (lit "A1")) None None None
                        (Some (PStr (lit "one two")))
                        (Some (PStr (lit "M"))) (Some (PStr (lit "C"))))
                     (World empty [])).2))
  /\ (exists cat,
         cat ∈ nodes (db (Graph_Build.ingest_row 1 4 1 0
                     (Graph_Build.Row (Some (lit "A1")) None None None
                        (Some (PStr (lit "one two")))
                        (Some (PStr (lit "M"))) (Some (PStr (lit "C"))))
                     (World empty [])).2)
         /\ nlabel cat = Category /\ nprops cat !! "name" = Some (VStr (lit "C"))
         /\ forall a,
              a ∈ nodes (db (Graph_Build.ingest_row 1 4 1 0
                     (Graph_Build.Row (Some (lit "A1")) None None None
                        (Some (PStr (lit "one two")))
                        (Some (PStr (lit "M"))) (Some (PStr (lit "C"))))
                     (World empty [])).2) ->
              nlabel a = Article ->
              nprops a !! "article_id" = Some (VStr (lit "A1")) ->
              Rel (nid a) BELONGS_TO (nid cat) ∈ rels (db (Graph_Build.ingest_row 1 4 1 0
                     (Graph_Build.Row (Some (lit "A1")) None None None
                        (Some (PStr (lit "one two")))
                        (Some (PStr (lit "M"))) (Some (PStr (lit "C"))))
                     (World empty [])).2)).
Proof.
  destruct (ingest_row_attaches 1 4 1 0
              (Graph_Build.Row (Some (lit "A1")) None None None
                        (Some (PStr (lit "one two")))
                        (Some (PStr (lit "M"))) (Some (PStr (lit "C"))))
              (World empty []) [lit "one"; lit "two"; lit "o"] eq_refl)
    as [Hm Hc].
  split.
  - apply (Hm (lit "M")); [reflexivity|discriminate].
  - apply (Hc (lit "C")); [reflexivity|discriminate].
Defined.

(** X9.  One article node per identity: after
    [build_graph_from_dataframe], an identity that a row of the frame
    carries is held by one article node when none held it before, and by
    as many as before otherwise; an identity that no row carries is held
    by as many article nodes as before. *)
Theorem build_graph_one_article_per_id
    (df : list (Z * Graph_Build.row)) (chunk_size overlap : Z) (w : world)
    (article_id : pystr) :
  length (bound Article "article_id" (VStr article_id)
            (db (Graph_Build.build_graph_from_dataframe
                   df chunk_size overlap w).2))
  = if bool_decide
         (article_id
          ∈ (fun r => default [] (Graph_Build.col_article_id r)) <$> df.*2)
    then Nat.max 1 (length (bound Article "article_id" (VStr article_id) (db w)))
    else length (bound Article "article_id" (VStr article_id) (db w)).
Proof.
  rewrite build_graph_run. simpl. apply ingest_loop_article_count.
Qed.

(** ** More on the chunker: blank texts and the number of fragments *)

Section chunker_count.
Import Graph_Build.
Implicit Types text w : pystr.

Lemma lstrip_all_space w : Forall (fun c => isspace c = true) w -> lstrip w = [].
Proof. induction 1 as [|c w Hc _ IH]; simpl; [done|]. by rewrite Hc. Qed.

Lemma strip_all_space w : Forall (fun c => isspace c = true) w -> strip w = [].
Proof. intros H. unfold strip. by rewrite lstrip_all_space. Qed.

Lemma slice_Forall {A} (Q : A -> Prop) (l : list A) (i j : Z) :
  Forall Q l -> Forall Q (slice l i j).
Proof. intros H. unfold slice. by apply Forall_take, Forall_drop. Qed.

Lemma filter_none {A} (Q : A -> Prop) `{forall x, Decision (Q x)} (l : list A) :
  Forall (fun x => ¬ Q x) l -> filter Q l = [].
Proof.
  induction 1 as [|x l Hx _ IH]; [done|].
  by rewrite filter_cons, decide_False, IH.
Qed.

Lemma filter_all {A} (Q : A -> Prop) `{forall x, Decision (Q x)} (l : list A) :
  Forall Q l -> filter Q l = l.
Proof.
  induction 1 as [|x l Hx _ IH]; [done|].
  by rewrite filter_cons, decide_True, IH.
Qed.

Lemma windows_length text chunk_size overlap :
  0 < chunk_size - overlap ->
  Z.of_nat (length (windows text chunk_size overlap))
  = (len text + (chunk_size - overlap) - 1) / (chunk_size - overlap).
Proof.
  intros Hs. unfold windows, range, range_len.
  destruct (Z.eqb_spec (chunk_size - overlap) 0); [lia|].
  destruct (Z.ltb_spec 0 (chunk_size - overlap)); [|lia].
  simpl. rewrite !length_fmap, length_seq.
  destruct (Z.ltb_spec 0 (len text)) as [Hpos|Hz].
  - assert (0 <= (len text - 0 - 1) / (chunk_size - overlap))
      by (apply Z.div_pos; lia).
    rewrite Z2Nat.id by lia.
    replace (len text + (chunk_size - overlap) - 1)
      with (len text - 0 - 1 + 1 * (chunk_size - overlap)) by lia.
    by rewrite Z.div_add by lia.
  - assert (len text = 0) as -> by (unfold len in *; lia).
    simpl. symmetry. apply Z.div_small. lia.
Qed.

End chunker_count.

(** X10.  A text that holds white space only gives no fragment, for any
    chunk size and overlap whose difference is not zero. *)
Theorem chunk_text_blank_text (text : pystr) (chunk_size overlap : Z) :
  Forall (fun c => isspace c = true) text ->
  chunk_size - overlap <> 0 ->
  Graph_Build.chunk_text (PStr text) chunk_size overlap = inr [].
Proof.
  intros Hsp Hstep. rewrite chunk_text_windows by done.
  rewrite filter_none; [done|].
  unfold windows. destruct (range _ _ _) as [e|ps]; [done|].
  apply Forall_fmap, Forall_forall. intros i _. simpl.
  intros Hnb. apply Hnb. unfold blank.
  apply strip_all_space. by apply slice_Forall.
Qed.

Lemma chunk_text_blank_text_witness :
  Graph_Build.chunk_text (PStr (lit "     ")) 3 1 = inr [].
Proof.
  apply chunk_text_blank_text; [|lia].
  repeat constructor.
Defined.

(** X11.  For [0 <= overlap < chunk_size], [chunk_text] returns at most
    as many fragments as there are strides in the text, the length of the
    text divided by [chunk_size - overlap] and rounded up, and exactly
    that many when the text holds no white space. *)
Theorem chunk_text_count
    (text : pystr) (chunk_size overlap : Z) (fragments : list pystr) :
  0 <= overlap < chunk_size ->
  Graph_Build.chunk_text (PStr text) chunk_size overlap = inr fragments ->
  Z.of_nat (length fragments)
  <= (len text + (chunk_size - overlap) - 1) / (chunk_size - overlap)
  /\ (Forall (fun c => isspace c = false) text ->
      Z.of_nat (length fragments)
      = (len text + (chunk_size - overlap) - 1) / (chunk_size - overlap)).
Proof.
  intros Hov H. rewrite chunk_text_windows in H by lia.
  injection H as <-. rewrite length_fmap.
  rewrite <- windows_length by lia. split.
  - pose proof (length_filter (fun w => ¬ blank w)
                  (windows text chunk_size overlap)). lia.
  - intros Hns. rewrite filter_all; [done|].
    eapply Forall_impl; [by apply windows_no_space|].
    intros w [Hw Hne]. simpl in *. unfold blank. congruence.
Qed.

Lemma chunk_text_count_witness :
  Z.of_nat (length [lit "abcd"; lit "defg"; lit "g"]) <= (7 + (4 - 1) - 1) / (4 - 1)
  /\ (Forall (fun c => isspace c = false) (lit "abcdefg") ->
      Z.of_nat (length [lit "abcd"; lit "defg"; lit "g"])
      = (7 + (4 - 1) - 1) / (4 - 1)).
Proof.
  apply (chunk_text_count (lit "abcdefg") 4 1); [lia|reflexivity].
Defined.

(** ** The identities of the fragments *)

Section content_ids.
Import Graph_Build.

Lemma pretty_N_char_digit (x : N) : is_digit (ord (pretty_N_char x)) = true.
Proof. unfold pretty_N_char. by repeat case_match. Qed.

Lemma pretty_N_go_digits (x : N) (s : string) :
  Forall (fun a => is_digit (ord a) = true) (String.list_ascii_of_string s) ->
  Forall (fun a => is_digit (ord a) = true)
         (String.list_ascii_of_string (pretty_N_go x s)).
Proof.
  revert s. induction (N.lt_wf_0 x) as [x _ IH]; intros s Hs.
  assert (x = 0 \/ 0 < x)%N as [->|Hpos] by lia.
  - by rewrite pretty_N_go_0.
  - rewrite pretty_N_go_step by done. apply IH.
    + by apply N.div_lt.
    + simpl. constructor; [apply pretty_N_char_digit | done].
Qed.

(** [str(i)] holds decimal digits only. *)
Lemma str_of_nat_digits (i : nat) :
  Forall (fun c => is_digit c = true) (str_of_nat i).
Proof.
  unfold str_of_nat. apply Forall_fmap.
  unfold pretty, pretty_nat, pretty, pretty_N.
  destruct (decide (N.of_nat i = 0%N)).
  - by repeat constructor.
  - by apply pretty_N_go_digits.
Qed.

(** Two lists cut at the last occurrence of a separator. *)
Lemma app_sep_inj {A} (u : A) (x y d1 d2 : list A) :
  u ∉ d1 -> u ∉ d2 -> x ++ u :: d1 = y ++ u :: d2 -> x = y /\ d1 = d2.
Proof.
  intros H1 H2. revert y. induction x as [|a x IH]; intros [|b y] H; simpl in H.
  - by injection H.
  - injection H as -> ->. destruct H1. apply elem_of_app. right. left.
  - injection H as -> <-. destruct H2. apply elem_of_app. right. left.
  - injection H as -> H. destruct (IH y H) as [-> ->]. done.
Qed.

End content_ids.

(** X12.  The identity [<article_id>_chunk_<i>] given to a fragment
    determines both the article and the index: two fragments get the same
    identity only when they are the same fragment of the same article,
    whatever characters the article identities hold. *)
Theorem content_id_determines_fragment (a b : pystr) (i j : nat) :
  Graph_Build.content_id a i = Graph_Build.content_id b j -> a = b /\ i = j.
Proof.
  unfold Graph_Build.content_id.
  change (lit "_chunk_") with (lit "_chunk" ++ [0x5F%N]).
  rewrite <- !(app_assoc (lit "_chunk")). simpl ([_] ++ _).
  rewrite !(app_assoc _ (lit "_chunk")). intros H.
  assert (forall n, 0x5F%N ∉ str_of_nat n) as Hd.
  { intros n Hin. pose proof (str_of_nat_digits n) as Hall.
    rewrite Forall_forall in Hall. by apply Hall in Hin. }
  apply app_sep_inj in H as [H1 H2]; [|apply Hd..].
  apply app_inv_tail in H1. apply str_of_nat_inj in H2. done.
Qed.

Lemma content_id_determines_fragment_witness :
  lit "ART_001_0000012345" = lit "ART_001_0000012345" /\ 12%nat = 12%nat.
Proof.
  apply (content_id_determines_fragment
           (lit "ART_001_0000012345") (lit "ART_001_0000012345") 12 12).
  reflexivity.
Defined.

(** ** More on the embedding step *)

Section backfill_more.
Import Tools_Retriever Store.
Implicit Types (g : graph) (w : world) (n : node).
Variable embed_query : option value -> result (list float).

(** The loop treats every node on its own. *)
Lemma embed_loop_db total (irs : list (nat * (nat * option value))) w :
  db (foldl (embed_step embed_query total) w irs)
  = Graph ((fun n => foldl (embed_node embed_query) n irs) <$> nodes (db w))
          (rels (db w)).
Proof.
  revert w. induction irs as [|ir irs IH]; intros w; simpl.
  - rewrite list_fmap_id. by destruct (db w).
  - rewrite IH. unfold embed_step.
    destruct (embed_query ir.2.2) as [e|vector] eqn:E; simpl.
    + f_equal. apply list_fmap_ext. intros i n _.
      assert (embed_node embed_query n ir = n) as ->; [|done].
      unfold embed_node. by rewrite E.
    + rewrite <- list_fmap_compose. f_equal.
      apply list_fmap_ext. intros i n _. simpl. f_equal.
      unfold embed_node. by rewrite E.
Qed.

Lemma embed_loop_failures total (irs : list (nat * (nat * option value))) w :
  failures (stdout (foldl (embed_step embed_query total) w irs))
  = (failures (stdout w)
     + length (filter (fun r => rejects embed_query r = true) irs.*2))%nat.
Proof.
  revert w. induction irs as [|ir irs IH]; intros w; [simpl; lia|].
  cbn [foldl]. rewrite IH, !fmap_cons, filter_cons. unfold embed_step.
  generalize ((ir.1 + 1) mod 10 =? 0)%nat. intros b.
  destruct (embed_query ir.2.2) as [e|vector] eqn:E; cbn [stdout].
  - rewrite decide_True by (unfold rejects; by rewrite E).
    rewrite failures_app. unfold failures at 2. simpl. lia.
  - rewrite decide_False by (unfold rejects; by rewrite E).
    rewrite failures_app. destruct b; unfold failures at 2; simpl; lia.
Qed.

(** Both files run the same loop over the same records; they differ in
    the lines printed around it. *)
Lemma backfill_db w :
  db (backfill_embeddings embed_query w).2
  = Graph ((fun n => foldl (embed_node embed_query) n
                           (enumerate (records_without_embedding (db w))))
             <$> nodes (db w))
          (rels (db w))
  /\ db (app.backfill_embeddings embed_query w).2
     = db (backfill_embeddings embed_query w).2.
Proof.
  unfold backfill_embeddings, app.backfill_embeddings.
  destruct (records_without_embedding (db w)) as [|rec recs] eqn:E.
  - simpl. rewrite list_fmap_id. by destruct (db w).
  - set (records := rec :: recs) in *.
    change (truthy records) with true. cbv iota.
    unfold mbind, prog_bind, print. cbn [fst snd].
    rewrite !embed_loop_run. cbn [fst snd db].
    by rewrite embed_loop_db.
Qed.

Lemma backfill_failures w :
  failures (stdout (backfill_embeddings embed_query w).2)
  = (failures (stdout w)
     + length (filter (fun r => rejects embed_query r = true)
                      (records_without_embedding (db w))))%nat
  /\ failures (stdout (app.backfill_embeddings embed_query w).2)
     = failures (stdout (backfill_embeddings embed_query w).2).
Proof.
  unfold backfill_embeddings, app.backfill_embeddings.
  destruct (records_without_embedding (db w)) as [|rec recs] eqn:E.
  - simpl. rewrite failures_app. unfold failures at 2. simpl. split; lia.
  - set (records := rec :: recs) in *.
    change (truthy records) with true. cbv iota.
    unfold mbind, prog_bind, print. cbn [fst snd].
    rewrite !embed_loop_run. cbn [fst snd stdout].
    rewrite failures_app, !embed_loop_failures. cbn [stdout].
    rewrite failures_app. unfold enumerate. rewrite enumerate_from_snd.
    change (failures [EmbedStart (length records)]) with 0%nat.
    change (failures [EmbedDone]) with 0%nat. split; lia.
Qed.

Lemma embed_node_same n ir :
  nid (embed_node embed_query n ir) = nid n
  /\ nlabel (embed_node embed_query n ir) = nlabel n
  /\ forall k, k <> "embedding" ->
               nprops (embed_node embed_query n ir) !! k = nprops n !! k.
Proof.
  unfold embed_node. destruct (embed_query ir.2.2); [done|].
  case_bool_decide; [|done]. simpl. repeat split.
  intros k Hk. by rewrite lookup_insert_ne.
Qed.

Lemma embed_nodes_same n (irs : list (nat * (nat * option value))) :
  nid (foldl (embed_node embed_query) n irs) = nid n
  /\ nlabel (foldl (embed_node embed_query) n irs) = nlabel n
  /\ forall k, k <> "embedding" ->
               nprops (foldl (embed_node embed_query) n irs) !! k = nprops n !! k.
Proof.
  revert n. induction irs as [|ir irs IH]; intros n; [done|]. simpl.
  destruct (IH (embed_node embed_query n ir)) as (H1 & H2 & H3).
  destruct (embed_node_same n ir) as (H1' & H2' & H3').
  repeat split; [congruence..|].
  intros k Hk. by rewrite H3, H3'.
Qed.

(** A node that no record names, or whose records are all rejected, is
    left as it is. *)
Lemma embed_nodes_untouched n (irs : list (nat * (nat * option value))) :
  Forall (fun ir => ir.2.1 = nid n -> rejects embed_query ir.2 = true) irs ->
  foldl (embed_node embed_query) n irs = n.
Proof.
  induction 1 as [|ir irs Hir _ IH]; [done|]. simpl.
  assert (embed_node embed_query n ir = n) as ->; [|done].
  unfold embed_node, rejects in *.
  destruct (embed_query ir.2.2); [done|].
  case_bool_decide as E; [|done]. symmetry in E. by apply Hir in E.
Qed.

(** The record of a node, when no other record names it, decides what
    the node holds at the end. *)
Lemma embed_nodes_written n (irs : list (nat * (nat * option value)))
    i text vector :
  NoDup irs.*2.*1 ->
  (i, (nid n, text)) ∈ irs ->
  embed_query text = inr vector ->
  foldl (embed_node embed_query) n irs
  = Node (nid n) (nlabel n) (<["embedding" := VFloats vector]> (nprops n)).
Proof.
  revert n. induction irs as [|ir irs IH]; intros n Hnd Hin Hv.
  - by apply not_elem_of_nil in Hin.
  - rewrite !fmap_cons in Hnd. apply NoDup_cons in Hnd as [Hfresh Hnd].
    simpl. apply elem_of_cons in Hin as [<-|Hin].
    + unfold embed_node at 2. simpl. rewrite Hv.
      rewrite bool_decide_eq_true_2 by done.
      apply embed_nodes_untouched. apply Forall_forall.
      intros ir' Hir' Hid. simpl in Hid, Hfresh. destruct Hfresh.
      rewrite <- Hid.
      apply list_elem_of_fmap. exists ir'.2. split; [done|].
      apply list_elem_of_fmap. by exists ir'.
    + assert (ir.2.1 <> nid n) as Hne.
      { intros Heq. apply Hfresh. rewrite Heq.
        apply list_elem_of_fmap. exists (nid n, text). split; [done|].
        apply list_elem_of_fmap. by exists (i, (nid n, text)). }
      assert (embed_node embed_query n ir = n) as ->.
      { unfold embed_node. destruct (embed_query ir.2.2); [done|].
        by rewrite bool_decide_eq_false_2 by congruence. }
      by apply IH.
Qed.

Lemma NoDup_fmap_inj_on {A B} (f : A -> B) (l : list A) (x y : A) :
  NoDup (f <$> l) -> x ∈ l -> y ∈ l -> f x = f y -> x = y.
Proof.
  induction l as [|a l IH]; intros Hnd Hx Hy Hf.
  - by apply not_elem_of_nil in Hx.
  - rewrite fmap_cons in Hnd. apply NoDup_cons in Hnd as [Ha Hnd].
    apply elem_of_cons in Hx as [->|Hx]; apply elem_of_cons in Hy as [->|Hy].
    + done.
    + destruct Ha. rewrite Hf. apply list_elem_of_fmap. by exists y.
    + destruct Ha. rewrite <- Hf. apply list_elem_of_fmap. by exists x.
    + by apply IH.
Qed.

Lemma records_ids g :
  (enumerate (records_without_embedding g)).*2.*1
  = nid <$> filter (fun n => nlabel n = Content ∧ nprops n !! "embedding" = None)
                   (nodes g).
Proof.
  unfold enumerate. rewrite enumerate_from_snd.
  unfold records_without_embedding. rewrite <- list_fmap_compose.
  by apply list_fmap_ext.
Qed.

Lemma records_NoDup g :
  unique_ids g -> NoDup (enumerate (records_without_embedding g)).*2.*1.
Proof.
  unfold unique_ids. intros H. rewrite records_ids.
  apply (sublist_NoDup _ (nid <$> nodes g));
    [exact H | apply fmap_sublist, sublist_filter].
Qed.

End backfill_more.

Lemma filter_length_0 {A} (Q : A -> Prop) `{forall x, Decision (Q x)}
    (l : list A) (x : A) :
  length (filter Q l) = 0%nat -> x ∈ l -> ¬ Q x.
Proof.
  intros Hlen Hx Hq.
  assert (x ∈ filter Q l) as Hin by (by apply list_elem_of_filter).
  destruct (filter Q l); [by apply not_elem_of_nil in Hin|done].
Qed.

(** C7.  The backfill pass of either file selects the fragment nodes
    whose embedding is unset, embeds the text of each and writes the
    vector back on the node of that identity.  Both passes always run to
    their end and leave the same graph; each prints one failure line for
    every selected fragment whose text the embedding service rejects, and
    no other; a selected fragment whose text is embedded holds exactly
    that vector afterwards (node identities being unique, as they are in
    the database).  So after a pass that reports no failure, the text of
    every fragment that lacked an embedding was embedded, and no fragment
    node of the graph is left with a null embedding. *)
Theorem backfill_leaves_no_null_embedding
    (embed_query : option value -> result (list float)) (w : world) :
  exists g' new1 new2,
    Tools_Retriever.backfill_embeddings embed_query w
    = (inr tt, World g' (stdout w ++ new1))
    /\ app.backfill_embeddings embed_query w
       = (inr tt, World g' (stdout w ++ new2))
    /\ failures new1
       = length (filter (fun r => Store.rejects embed_query r = true)
                        (Tools_Retriever.records_without_embedding (db w)))
    /\ failures new2 = failures new1
    /\ (forall n vector,
          n ∈ nodes (db w) -> nlabel n = Content ->
          nprops n !! "embedding" = None ->
          embed_query (nprops n !! "chunk") = inr vector ->
          Store.unique_ids (db w) ->
          Node (nid n) (nlabel n)
               (<["embedding" := VFloats vector]> (nprops n)) ∈ nodes g')
    /\ (failures new1 = 0%nat ->
        embedded g'
        /\ forall n,
             n ∈ nodes (db w) -> nlabel n = Content ->
             nprops n !! "embedding" = None ->
             exists vector, embed_query (nprops n !! "chunk") = inr vector).
Proof.
  destruct (backfill_run embed_query w) as (g1 & new1 & E1 & H1).
  destruct (app_backfill_run embed_query w) as (g2 & new2 & E2 & H2).
  destruct (backfill_db embed_query w) as [D1 D2].
  destruct (backfill_failures embed_query w) as [F1 F2].
  rewrite E1, E2 in D2. rewrite E1 in D1, F1. rewrite E1, E2 in F2.
  simpl in D1, D2, F1, F2. subst g2.
  rewrite failures_app in F1. rewrite !failures_app in F2.
  exists g1, new1, new2. split; [done|]. split; [done|].
  split; [lia|]. split; [lia|]. split.
  - intros n vector Hn Hl He Hv Hu. rewrite D1. simpl.
    apply list_elem_of_fmap. exists n. split; [|done]. symmetry.
    assert ((nid n, nprops n !! "chunk")
            ∈ Tools_Retriever.records_without_embedding (db w)) as Hrec.
    { unfold Tools_Retriever.records_without_embedding.
      apply list_elem_of_fmap. exists n. split; [done|].
      by apply list_elem_of_filter. }
    apply list_elem_of_lookup in Hrec as [i Hi].
    apply (embed_nodes_written embed_query n _ i (nprops n !! "chunk"));
      [by apply records_NoDup | by apply elem_of_enumerate | done].
  - intros Hz. split; [by apply H1|].
    intros n Hn Hl He.
    assert ((nid n, nprops n !! "chunk")
            ∈ Tools_Retriever.records_without_embedding (db w)) as Hrec.
    { unfold Tools_Retriever.records_without_embedding.
      apply list_elem_of_fmap. exists n. split; [done|].
      by apply list_elem_of_filter. }
    assert (length (filter (fun r => Store.rejects embed_query r = true)
                      (Tools_Retriever.records_without_embedding (db w)))
            = 0%nat) as Hnone by lia.
    pose proof (filter_length_0 _ _ _ Hnone Hrec) as Hok.
    unfold Store.rejects in Hok. simpl in Hok.
    destruct (embed_query (nprops n !! "chunk")) as [e|vector]; [done|].
    by exists vector.
Qed.

Lemma backfill_leaves_no_null_embedding_witness :
  let r := Graph_Build.Row (Some (lit "A1")) (Some (PStr (lit "T"))) None None
                           (Some (PStr (lit "some text to embed"))) None None in
  let g := db (Graph_Build.build_graph_from_dataframe [(0, r)] 10 2
                 (World empty [])).2 in
  let embed_query := fun _ : option value => inr [1; 2; 3]%N : result (list float) in
  ¬ embedded g
  /\ exists g',
       db (Tools_Retriever.backfill_embeddings embed_query (World g [])).2 = g'
       /\ db (app.backfill_embeddings embed_query (World g [])).2 = g'
       /\ embedded g'.
Proof.
  intros r g embed_query. split.
  - intros H.
    apply (H (Node 2 Content
                (nprops (default (Node 0 Content ∅) (nodes g !! 1%nat))))).
    + vm_compute. apply list_elem_of_lookup. exists 1%nat. reflexivity.
    + reflexivity.
    + vm_compute. reflexivity.
  - destruct (backfill_leaves_no_null_embedding embed_query (World g []))
      as (g' & new1 & new2 & E1 & E2 & F1 & _ & _ & Hz).
    exists g'. rewrite E1, E2. split; [done|]. split; [done|].
    apply Hz. rewrite F1. vm_compute. reflexivity.
Defined.

(** X13.  The embedding step of either file changes nothing but
    embeddings: after it the relationships are the same, and the nodes
    are the same in number and order, each with its identity, its label
    and every property other than [embedding] as before, whatever the
    embedding service returns or raises. *)
Theorem backfill_changes_embeddings_only
    (embed_query : option value -> result (list float)) (w : world) :
  Store.same_but_embedding
    (db w) (db (Tools_Retriever.backfill_embeddings embed_query w).2)
  /\ Store.same_but_embedding
       (db w) (db (app.backfill_embeddings embed_query w).2).
Proof.
  destruct (backfill_db embed_query w) as [H1 H2]. rewrite H2, H1.
  assert (Store.same_but_embedding (db w)
            (Graph ((fun n => foldl (Store.embed_node embed_query) n
                       (enumerate (Tools_Retriever.records_without_embedding (db w))))
                      <$> nodes (db w)) (rels (db w)))) as H; [|done].
  split; [done|]. simpl. apply Forall2_fmap_r, Forall_Forall2_diag.
  apply Forall_forall. intros n _. apply embed_nodes_same.
Qed.

(** X14.  A fragment node without an embedding whose text the service
    embeds holds the vector after the embedding step of either file, and
    is otherwise as it was; node identities are taken to be unique, as
    they are in the database. *)
Theorem backfill_writes_vectors
    (embed_query : option value -> result (list float)) (w : world)
    (n : node) (vector : list float) :
  Store.unique_ids (db w) ->
  n ∈ nodes (db w) ->
  nlabel n = Content ->
  nprops n !! "embedding" = None ->
  embed_query (nprops n !! "chunk") = inr vector ->
  Node (nid n) (nlabel n) (<["embedding" := VFloats vector]> (nprops n))
  ∈ nodes (db (Tools_Retriever.backfill_embeddings embed_query w).2)
  /\ Node (nid n) (nlabel n) (<["embedding" := VFloats vector]> (nprops n))
     ∈ nodes (db (app.backfill_embeddings embed_query w).2).
Proof.
  intros Hu Hn Hl He Hv.
  destruct (backfill_db embed_query w) as [H1 H2]. rewrite H2, H1. simpl.
  assert (Node (nid n) (nlabel n) (<["embedding" := VFloats vector]> (nprops n))
          ∈ (fun n => foldl (Store.embed_node embed_query) n
               (enumerate (Tools_Retriever.records_without_embedding (db w))))
            <$> nodes (db w)) as H; [|done].
  apply list_elem_of_fmap. exists n. split; [|done]. symmetry.
  assert ((nid n, nprops n !! "chunk")
          ∈ Tools_Retriever.records_without_embedding (db w)) as Hrec.
  { unfold Tools_Retriever.records_without_embedding.
    apply list_elem_of_fmap. exists n. split; [done|].
    by apply list_elem_of_filter. }
  apply list_elem_of_lookup in Hrec as [i Hi].
  apply (embed_nodes_written embed_query n _ i (nprops n !! "chunk"));
    [by apply records_NoDup | by apply elem_of_enumerate | done].
Qed.

Lemma backfill_writes_vectors_witness :
  Node 7 Content (<["embedding" := VFloats [1; 2; 3]%N]>
                    {["chunk" := VStr (lit "text")]})
  ∈ nodes (db (Tools_Retriever.backfill_embeddings
                 (fun _ => inr [1; 2; 3]%N)
                 (World (Graph [Node 7 Content {["chunk" := VStr (lit "text")]}] [])
                        [])).2)
  /\ Node 7 Content (<["embedding" := VFloats [1; 2; 3]%N]>
                       {["chunk" := VStr (lit "text")]})
     ∈ nodes (db (app.backfill_embeddings
                    (fun _ => inr [1; 2; 3]%N)
                    (World (Graph [Node 7 Content {["chunk" := VStr (lit "text")]}] [])
                           [])).2).
Proof.
  refine (backfill_writes_vectors
            (fun _ => inr [1; 2; 3]%N)
            (World (Graph [Node 7 Content {["chunk" := VStr (lit "text")]}] []) [])
            (Node 7 Content {["chunk" := VStr (lit "text")]}) [1; 2; 3]%N
            _ _ _ _ _).
  - apply (bool_decide_unpack _). by vm_compute.
  - left.
  - reflexivity.
  - reflexivity.
  - reflexivity.
Defined.

(** X15.  The embedding step of either file leaves every other node
    exactly as it was: a node that is not a fragment, a fragment that
    holds an embedding already, and a fragment whose text the service
    rejects; node identities are taken to be unique. *)
Theorem backfill_leaves_other_nodes
    (embed_query : option value -> result (list float)) (w : world) (n : node) :
  Store.unique_ids (db w) ->
  n ∈ nodes (db w) ->
  nlabel n <> Content \/ nprops n !! "embedding" <> None
  \/ Store.rejects embed_query (nid n, nprops n !! "chunk") = true ->
  n ∈ nodes (db (Tools_Retriever.backfill_embeddings embed_query w).2)
  /\ n ∈ nodes (db (app.backfill_embeddings embed_query w).2).
Proof.
  intros Hu Hn Hcase.
  destruct (backfill_db embed_query w) as [H1 H2]. rewrite H2, H1. simpl.
  assert (n ∈ (fun n => foldl (Store.embed_node embed_query) n
                 (enumerate (Tools_Retriever.records_without_embedding (db w))))
              <$> nodes (db w)) as H; [|done].
  apply list_elem_of_fmap. exists n. split; [|done]. symmetry.
  apply embed_nodes_untouched, Forall_forall. intros [i rec] Hir Hid.
  simpl in *. apply elem_of_enumerate in Hir.
  apply list_elem_of_lookup_2 in Hir.
  unfold Tools_Retriever.records_without_embedding in Hir.
  apply list_elem_of_fmap in Hir as (m & -> & Hm).
  apply list_elem_of_filter in Hm as [[Hlm Hem] Hm]. simpl in Hid.
  assert (m = n) as -> by (by apply (NoDup_fmap_inj_on nid (nodes (db w)))).
  destruct Hcase as [Hc|[Hc|Hc]]; done.
Qed.

Lemma backfill_leaves_other_nodes_witness :
  Node 3 Article {["article_id" := VStr (lit "A1")]}
  ∈ nodes (db (Tools_Retriever.backfill_embeddings
                 (fun _ => inr [1; 2; 3]%N)
                 (World (Graph [Node 3 Article {["article_id" := VStr (lit "A1")]};
                                Node 7 Content {["chunk" := VStr (lit "text")]}]
                               [Rel 3 HAS_CHUNK 7])
                        [])).2)
  /\ Node 3 Article {["article_id" := VStr (lit "A1")]}
     ∈ nodes (db (app.backfill_embeddings
                    (fun _ => inr [1; 2; 3]%N)
                    (World (Graph [Node 3 Article {["article_id" := VStr (lit "A1")]};
                                   Node 7 Content {["chunk" := VStr (lit "text")]}]
                                  [Rel 3 HAS_CHUNK 7])
                           [])).2).
Proof.
  apply (backfill_leaves_other_nodes
           (fun _ => inr [1; 2; 3]%N)
           (World (Graph [Node 3 Article {["article_id" := VStr (lit "A1")]};
                          Node 7 Content {["chunk" := VStr (lit "text")]}]
                         [Rel 3 HAS_CHUNK 7])
                  [])
           (Node 3 Article {["article_id" := VStr (lit "A1")]})).
  - apply (bool_decide_unpack _). by vm_compute.
  - left.
  - left. discriminate.
Defined.

(** X16.  The embedding step reports one failure for each pending
    fragment whose text the service rejects, and no other; when the
    service rejects every text, the graph is left as it was. *)
Theorem backfill_reports_rejections
    (embed_query : option value -> result (list float)) (w : world) :
  failures (stdout (Tools_Retriever.backfill_embeddings embed_query w).2)
  = (failures (stdout w)
     + length (filter (fun r => Store.rejects embed_query r = true)
                      (Tools_Retriever.records_without_embedding (db w))))%nat
  /\ failures (stdout (app.backfill_embeddings embed_query w).2)
     = (failures (stdout w)
        + length (filter (fun r => Store.rejects embed_query r = true)
                         (Tools_Retriever.records_without_embedding (db w))))%nat
  /\ ((forall r, Store.rejects embed_query r = true) ->
      db (Tools_Retriever.backfill_embeddings embed_query w).2 = db w
      /\ db (app.backfill_embeddings embed_query w).2 = db w).
Proof.
  destruct (backfill_failures embed_query w) as [F1 F2].
  split; [done|]. split; [by rewrite F2|].
  intros Hrej. destruct (backfill_db embed_query w) as [H1 H2].
  rewrite H2, H1.
  assert (forall irs, (fun n => foldl (Store.embed_node embed_query) n irs)
                      <$> nodes (db w) = nodes (db w)) as ->.
  { intros irs. rewrite <- (list_fmap_id (nodes (db w))) at 2.
    apply list_fmap_ext. intros i n _. simpl.
    apply embed_nodes_untouched, Forall_forall. intros ir _ _. apply Hrej. }
  by destruct (db w).
Qed.

(** X17.  After an embedding step that reports no failure, a second
    embedding step, of either file and with any embedding service, finds
    nothing to do: it prints that every fragment is embedded and leaves
    the graph as it is. *)
Theorem backfill_second_pass_does_nothing
    (embed_query embed_query' : option value -> result (list float))
    (w : world) (g' : graph) (new out : list line) :
  Tools_Retriever.backfill_embeddings embed_query w
  = (inr tt, World g' (stdout w ++ new))
  \/ app.backfill_embeddings embed_query w
     = (inr tt, World g' (stdout w ++ new)) ->
  failures new = 0%nat ->
  Tools_Retriever.backfill_embeddings embed_query' (World g' out)
  = (inr tt, World g' (out ++ [EmbedNothing]))
  /\ app.backfill_embeddings embed_query' (World g' out)
     = (inr tt, World g' (out ++ [EmbedNothing])).
Proof.
  intros Hrun Hz.
  assert (embedded g') as He.
  { destruct (backfill_run embed_query w) as (g1 & new1 & E1 & H1).
    destruct (app_backfill_run embed_query w) as (g2 & new2 & E2 & H2).
    destruct Hrun as [E|E].
    - rewrite E1 in E. injection E as -> Hnew.
      apply app_inv_head in Hnew. subst. by apply H1.
    - rewrite E2 in E. injection E as -> Hnew.
      apply app_inv_head in Hnew. subst. by apply H2. }
  assert (Tools_Retriever.records_without_embedding g' = []) as Hnil.
  { unfold Tools_Retriever.records_without_embedding.
    rewrite filter_none; [done|].
    apply Forall_forall. intros n Hn [Hl Hnone]. by apply (He n). }
  unfold Tools_Retriever.backfill_embeddings, app.backfill_embeddings.
  simpl. by rewrite Hnil.
Qed.

Lemma backfill_second_pass_does_nothing_witness :
  Tools_Retriever.backfill_embeddings
    (fun _ => inl (ServiceError 500))
    (World (Graph [Node 7 Content (<["embedding" := VFloats [1; 2; 3]%N]>
                                     {["chunk" := VStr (lit "text")]})] [])
           [])
  = (inr tt,
     World (Graph [Node 7 Content (<["embedding" := VFloats [1; 2; 3]%N]>
                                     {["chunk" := VStr (lit "text")]})] [])
           ([] ++ [EmbedNothing]))
  /\ app.backfill_embeddings
       (fun _ => inl (ServiceError 500))
       (World (Graph [Node 7 Content (<["embedding" := VFloats [1; 2; 3]%N]>
                                        {["chunk" := VStr (lit "text")]})] [])
              [])
     = (inr tt,
        World (Graph [Node 7 Content (<["embedding" := VFloats [1; 2; 3]%N]>
                                        {["chunk" := VStr (lit "text")]})] [])
              ([] ++ [EmbedNothing])).
Proof.
  apply (backfill_second_pass_does_nothing
           (fun _ => inr [1; 2; 3]%N) (fun _ => inl (ServiceError 500))
           (World (Graph [Node 7 Content {["chunk" := VStr (lit "text")]}] []) [])
           _ [EmbedStart 1] []).
  - left. vm_compute. reflexivity.
  - reflexivity.
Defined.

(** ** More on the graph-expanded retrieval *)

Section retrieval_more.
Implicit Types (g : graph) (seeds : list (node * float)).

Lemma distinct_loop_NoDup {A} `{EqDecision A} (l acc : list A) :
  NoDup acc ->
  NoDup (foldl (fun acc x => if bool_decide (x ∈ acc) then acc else acc ++ [x])
               acc l).
Proof.
  revert acc. induction l as [|x l IH]; intros acc H; [done|].
  simpl. apply IH. case_bool_decide as E; [done|].
  apply NoDup_app. split; [done|]. split; [|apply NoDup_singleton].
  intros y Hy Hy'. apply list_elem_of_singleton in Hy'. by subst.
Qed.

Lemma distinct_NoDup {A} `{EqDecision A} (l : list A) :
  NoDup (Tools_Retriever.distinct l).
Proof. apply distinct_loop_NoDup, NoDup_nil_2. Qed.

Lemma distinct_loop_elem {A} `{EqDecision A} (l acc : list A) (x : A) :
  x ∈ acc \/ x ∈ l ->
  x ∈ foldl (fun acc x => if bool_decide (x ∈ acc) then acc else acc ++ [x])
            acc l.
Proof.
  revert acc. induction l as [|y l IH]; intros acc Hx; simpl.
  - destruct Hx as [Hx|Hx]; [done|]. by apply not_elem_of_nil in Hx.
  - apply IH. destruct Hx as [Hx|Hx].
    + left. case_bool_decide; [done|]. apply elem_of_app. by left.
    + apply elem_of_cons in Hx as [->|Hx]; [|by right].
      left. case_bool_decide; [done|]. apply elem_of_app. right. left.
Qed.

Lemma distinct_elem {A} `{EqDecision A} (l : list A) (x : A) :
  x ∈ Tools_Retriever.distinct l <-> x ∈ l.
Proof.
  split; [apply distinct_subset|].
  intros Hx. apply distinct_loop_elem. by right.
Qed.

Lemma add_to_group_keys {K V} `{EqDecision K} (groups : list (K * list V))
    (kv : K * V) :
  (Tools_Retriever.add_to_group groups kv).*1
  = if bool_decide (kv.1 ∈ groups.*1) then groups.*1 else groups.*1 ++ [kv.1].
Proof.
  unfold Tools_Retriever.add_to_group. case_bool_decide.
  - rewrite <- list_fmap_compose. apply list_fmap_ext.
    intros i x _. simpl. by case_bool_decide.
  - by rewrite fmap_app.
Qed.

(** The groups are keyed by the distinct keys of the rows. *)
Lemma group_by_keys {K V} `{EqDecision K} (rows : list (K * V)) :
  (Tools_Retriever.group_by rows).*1 = Tools_Retriever.distinct rows.*1.
Proof.
  unfold Tools_Retriever.group_by, Tools_Retriever.distinct.
  assert (forall acc : list (K * list V),
    (foldl Tools_Retriever.add_to_group acc rows).*1
    = foldl (fun acc x => if bool_decide (x ∈ acc) then acc else acc ++ [x])
            acc.*1 rows.*1) as H; [|apply (H [])].
  induction rows as [|kv rows IH]; intros acc; [done|].
  simpl. rewrite IH. by rewrite add_to_group_keys.
Qed.

Lemma optional_elem {A} (found : list A) (x : A) :
  Some x ∈ optional found <-> x ∈ found.
Proof.
  unfold optional. destruct found as [|y ys].
  - split; intros H.
    + by apply list_elem_of_singleton in H.
    + by apply not_elem_of_nil in H.
  - rewrite list_elem_of_fmap. split.
    + by intros (z & [= ->] & Hz).
    + intros Hx. by exists x.
Qed.

(** [OPTIONAL MATCH] always binds: a row is never lost to it. *)
Lemma optional_inhabited {A} (found : list A) : exists x, x ∈ optional found.
Proof.
  unfold optional. destruct found as [|y ys]; [exists None; left|].
  exists (Some y). left.
Qed.

End retrieval_more.

Section retrieval_hits.
Implicit Types (g : graph) (seeds : list (node * float)).

Lemma retrieval_query_columns g seeds :
  Tools_Retriever.hit_columns <$> Tools_Retriever.retrieval_query g seeds
  = Tools_Retriever.distinct (seeds ≫= Tools_Retriever.bindings g).*1.
Proof.
  unfold Tools_Retriever.retrieval_query.
  rewrite <- list_fmap_compose, <- group_by_keys. by apply list_fmap_ext.
Qed.

Lemma app_retrieval_query_columns g seeds :
  app.hit_columns <$> app.retrieval_query g seeds
  = Tools_Retriever.distinct (seeds ≫= app.bindings g).*1.
Proof.
  unfold app.retrieval_query.
  rewrite <- list_fmap_compose, <- group_by_keys. by apply list_fmap_ext.
Qed.

Lemma take_NoDup {A} (n : nat) (l : list A) : NoDup l -> NoDup (take n l).
Proof. intros H. by apply (sublist_NoDup (take n l) l), sublist_take. Qed.

End retrieval_hits.

(** X18.  [retrieval_query], in both files, returns no two rows with the
    same columns, and in every row the list of related articles holds no
    entry twice and at most five entries. *)
Theorem retrieval_query_no_duplicates (g : graph) (seeds : list (node * float)) :
  NoDup (Tools_Retriever.hit_columns <$> Tools_Retriever.retrieval_query g seeds)
  /\ Forall (fun h => NoDup (Tools_Retriever.related_articles h)
                      /\ (length (Tools_Retriever.related_articles h) <= 5)%nat)
            (Tools_Retriever.retrieval_query g seeds)
  /\ NoDup (app.hit_columns <$> app.retrieval_query g seeds)
  /\ Forall (fun h => NoDup (app.related_articles h)
                      /\ (length (app.related_articles h) <= 5)%nat)
            (app.retrieval_query g seeds).
Proof.
  rewrite retrieval_query_columns, app_retrieval_query_columns.
  split; [apply distinct_NoDup|]. split.
  { apply Forall_fmap, Forall_forall. intros kv _. simpl. split.
    - apply take_NoDup, distinct_NoDup.
    - rewrite length_take. lia. }
  split; [apply distinct_NoDup|].
  apply Forall_fmap, Forall_forall. intros kv _. simpl. split.
  - apply take_NoDup, distinct_NoDup.
  - rewrite length_take. lia.
Qed.

(** X19.  The rows [retrieval_query] of Tools_Retriever.py returns are
    those of the seeds that belong to an article: there is a row with
    given columns exactly when a seed fragment, an article it is a
    fragment of and a category of that article (or [null] when the
    article has none) give these columns, the score being that of the
    seed.  A seed without an article gives no row; an article without a
    category is not lost. *)
Theorem retrieval_query_rows
    (g : graph) (seeds : list (node * float)) (c : Tools_Retriever.columns) :
  c ∈ Tools_Retriever.hit_columns <$> Tools_Retriever.retrieval_query g seeds
  <-> exists seed article category,
        seed ∈ seeds
        /\ article ∈ match_in HAS_CHUNK Article seed.1 g
        /\ category ∈ optional (match_out BELONGS_TO Category article g)
        /\ c = Tools_Retriever.Columns
                 (prop "content_id" (Some seed.1)) (prop "chunk" (Some seed.1))
                 (prop "title" (Some seed.1))
                 (prop "article_id" (Some article)) (prop "title" (Some article))
                 (prop "url" (Some article))
                 (prop "published_date" (Some article))
                 (prop "name" category) seed.2.
Proof.
  rewrite retrieval_query_columns, distinct_elem, list_elem_of_fmap. split.
  - intros ([c' v] & -> & Hrow). simpl.
    apply list_elem_of_bind in Hrow as (seed & Hrow & Hseed).
    unfold Tools_Retriever.bindings in Hrow.
    apply list_elem_of_bind in Hrow as (article & Hrow & Harticle).
    apply list_elem_of_bind in Hrow as (category & Hrow & Hcategory).
    apply list_elem_of_bind in Hrow as (other & Hrow & Hother).
    apply list_elem_of_singleton in Hrow. injection Hrow as -> _.
    by exists seed, article, category.
  - intros (seed & article & category & Hseed & Harticle & Hcategory & ->).
    destruct (optional_inhabited
                (filter (fun r => nid r ≠ nid article)
                   (c ← option_list category;
                    match_in BELONGS_TO Article c g))) as [other Hother].
    eexists (_, _). split; [reflexivity|].
    apply list_elem_of_bind. exists seed. split; [|done].
    unfold Tools_Retriever.bindings.
    apply list_elem_of_bind. exists article. split; [|done].
    apply list_elem_of_bind. exists category. split; [|done].
    apply list_elem_of_bind. exists other. split; [|done].
    apply list_elem_of_singleton. reflexivity.
Qed.

(** X20.  The rows [retrieval_query] of app.py returns are those of the
    seeds that belong to an article, one for each category and each
    publisher of the article ([null] standing for none): a seed without
    an article gives no row, and an article without a category or
    without a publisher is not lost. *)
Theorem app_retrieval_query_rows
    (g : graph) (seeds : list (node * float)) (c : app.columns) :
  c ∈ app.hit_columns <$> app.retrieval_query g seeds
  <-> exists seed article category media,
        seed ∈ seeds
        /\ article ∈ match_in HAS_CHUNK Article seed.1 g
        /\ category ∈ optional (match_out BELONGS_TO Category article g)
        /\ media ∈ optional (match_in PUBLISHED Media article g)
        /\ c = app.Columns
                 (prop "content_id" (Some seed.1)) (prop "chunk" (Some seed.1))
                 (prop "title" (Some seed.1))
                 (prop "article_id" (Some article)) (prop "title" (Some article))
                 (prop "url" (Some article))
                 (prop "published_date" (Some article))
                 (prop "name" category) (prop "name" media) seed.2.
Proof.
  rewrite app_retrieval_query_columns, distinct_elem, list_elem_of_fmap. split.
  - intros ([c' v] & -> & Hrow). simpl.
    apply list_elem_of_bind in Hrow as (seed & Hrow & Hseed).
    unfold app.bindings in Hrow.
    apply list_elem_of_bind in Hrow as (article & Hrow & Harticle).
    apply list_elem_of_bind in Hrow as (category & Hrow & Hcategory).
    apply list_elem_of_bind in Hrow as (media & Hrow & Hmedia).
    apply list_elem_of_bind in Hrow as (other & Hrow & Hother).
    apply list_elem_of_singleton in Hrow. injection Hrow as -> _.
    by exists seed, article, category, media.
  - intros (seed & article & category & media
            & Hseed & Harticle & Hcategory & Hmedia & ->).
    destruct (optional_inhabited
                (filter (fun r => nid r ≠ nid article)
                   (c ← option_list category;
                    match_in BELONGS_TO Article c g))) as [other Hother].
    eexists (_, _). split; [reflexivity|].
    apply list_elem_of_bind. exists seed. split; [|done].
    unfold app.bindings.
    apply list_elem_of_bind. exists article. split; [|done].
    apply list_elem_of_bind. exists category. split; [|done].
    apply list_elem_of_bind. exists media. split; [|done].
    apply list_elem_of_bind. exists other. split; [|done].
    apply list_elem_of_singleton. reflexivity.
Qed.

(** X21.  In app.py as in Tools_Retriever.py, an entry of the
    [related_articles] of a row is either the entry of nulls or the
    projection of an article that belongs to the category of that row,
    the category being one of the article of the row, and that is not
    the article of the row itself. *)
Theorem related_articles_share_category
    (g : graph) (seeds : list (node * float)) (e : Tools_Retriever.related) :
  (forall h,
     h ∈ Tools_Retriever.retrieval_query g seeds ->
     e ∈ Tools_Retriever.related_articles h ->
     e = Tools_Retriever.Related None None None None
     \/ exists seed article category other,
          seed ∈ seeds
          /\ article ∈ match_in HAS_CHUNK Article seed.1 g
          /\ category ∈ match_out BELONGS_TO Category article g
          /\ Tools_Retriever.hit_columns h
             = Tools_Retriever.Columns
                 (prop "content_id" (Some seed.1)) (prop "chunk" (Some seed.1))
                 (prop "title" (Some seed.1))
                 (prop "article_id" (Some article)) (prop "title" (Some article))
                 (prop "url" (Some article))
                 (prop "published_date" (Some article))
                 (prop "name" (Some category)) seed.2
          /\ other ∈ match_in BELONGS_TO Article category g
          /\ nid other <> nid article
          /\ e = Tools_Retriever.Related
                   (prop "article_id" (Some other)) (prop "title" (Some other))
                   (prop "url" (Some other))
                   (prop "published_date" (Some other)))
  /\ (forall h,
        h ∈ app.retrieval_query g seeds ->
        e ∈ app.related_articles h ->
        e = Tools_Retriever.Related None None None None
        \/ exists seed article category media other,
             seed ∈ seeds
             /\ article ∈ match_in HAS_CHUNK Article seed.1 g
             /\ category ∈ match_out BELONGS_TO Category article g
             /\ media ∈ optional (match_in PUBLISHED Media article g)
             /\ app.hit_columns h
                = app.Columns
                    (prop "content_id" (Some seed.1)) (prop "chunk" (Some seed.1))
                    (prop "title" (Some seed.1))
                    (prop "article_id" (Some article))
                    (prop "title" (Some article))
                    (prop "url" (Some article))
                    (prop "published_date" (Some article))
                    (prop "name" (Some category)) (prop "name" media) seed.2
             /\ other ∈ match_in BELONGS_TO Article category g
             /\ nid other <> nid article
             /\ e = Tools_Retriever.Related
                      (prop "article_id" (Some other)) (prop "title" (Some other))
                      (prop "url" (Some other))
                      (prop "published_date" (Some other))).
Proof.
  split; intros h Hh He.
  - unfold Tools_Retriever.retrieval_query in Hh.
    apply list_elem_of_fmap in Hh as ([k vs] & -> & Hkv). simpl in He.
    apply elem_of_take in He as (i & He & _).
    apply list_elem_of_lookup_2, distinct_subset in He.
    pose proof (group_by_rows _ _ _ _ Hkv He) as Hrow.
    apply list_elem_of_bind in Hrow as (seed & Hrow & Hseed).
    unfold Tools_Retriever.bindings in Hrow.
    apply list_elem_of_bind in Hrow as (article & Hrow & Harticle).
    apply list_elem_of_bind in Hrow as (category & Hrow & Hcategory).
    apply list_elem_of_bind in Hrow as (other & Hrow & Hother).
    apply list_elem_of_singleton in Hrow. injection Hrow as Hk ->.
    destruct other as [other|]; [|by left]. right.
    apply (proj1 (optional_elem _ _)), list_elem_of_filter in Hother
      as [Hne Ho].
    apply list_elem_of_bind in Ho as (c & Ho & Hc).
    destruct category as [category|]; [|by apply not_elem_of_nil in Hc].
    apply list_elem_of_singleton in Hc as ->.
    apply (proj1 (optional_elem _ _)) in Hcategory.
    exists seed, article, category, other. simpl. by rewrite Hk.
  - unfold app.retrieval_query in Hh.
    apply list_elem_of_fmap in Hh as ([k vs] & -> & Hkv). simpl in He.
    apply elem_of_take in He as (i & He & _).
    apply list_elem_of_lookup_2, distinct_subset in He.
    pose proof (group_by_rows _ _ _ _ Hkv He) as Hrow.
    apply list_elem_of_bind in Hrow as (seed & Hrow & Hseed).
    unfold app.bindings in Hrow.
    apply list_elem_of_bind in Hrow as (article & Hrow & Harticle).
    apply list_elem_of_bind in Hrow as (category & Hrow & Hcategory).
    apply list_elem_of_bind in Hrow as (media & Hrow & Hmedia).
    apply list_elem_of_bind in Hrow as (other & Hrow & Hother).
    apply list_elem_of_singleton in Hrow. injection Hrow as Hk ->.
    destruct other as [other|]; [|by left]. right.
    apply (proj1 (optional_elem _ _)), list_elem_of_filter in Hother
      as [Hne Ho].
    apply list_elem_of_bind in Ho as (c & Ho & Hc).
    destruct category as [category|]; [|by apply not_elem_of_nil in Hc].
    apply list_elem_of_singleton in Hc as ->.
    apply (proj1 (optional_elem _ _)) in Hcategory.
    exists seed, article, category, media, other. simpl. by rewrite Hk.
Qed.

Lemma related_articles_share_category_witness :
  let g := Graph [Node 1 Article {["article_id" := VStr (lit "A1")]};
                  Node 2 Content {["content_id" := VStr (lit "A1_chunk_0")]};
                  Node 3 Category {["name" := VStr (lit "C")]};
                  Node 4 Article {["article_id" := VStr (lit "A2")]}]
                 [Rel 1 HAS_CHUNK 2; Rel 1 BELONGS_TO 3; Rel 4 BELONGS_TO 3] in
  let seeds := [(Node 2 Content {["content_id" := VStr (lit "A1_chunk_0")]}, 0%N)] in
  let e := Tools_Retriever.Related (Some (VStr (lit "A2"))) None None None in
  exists h,
    Tools_Retriever.retrieval_query g seeds = [h]
    /\ Tools_Retriever.related_articles h = [e]
    /\ exists seed article category other,
         seed ∈ seeds
         /\ article ∈ match_in HAS_CHUNK Article seed.1 g
         /\ category ∈ match_out BELONGS_TO Category article g
         /\ Tools_Retriever.hit_columns h
            = Tools_Retriever.Columns
                (prop "content_id" (Some seed.1)) (prop "chunk" (Some seed.1))
                (prop "title" (Some seed.1))
                (prop "article_id" (Some article)) (prop "title" (Some article))
                (prop "url" (Some article))
                (prop "published_date" (Some article))
                (prop "name" (Some category)) seed.2
         /\ other ∈ match_in BELONGS_TO Article category g
         /\ nid other <> nid article
         /\ e = Tools_Retriever.Related
                  (prop "article_id" (Some other)) (prop "title" (Some other))
                  (prop "url" (Some other))
                  (prop "published_date" (Some other)).
Proof.
  intros g seeds e.
  set (h := List.hd (Tools_Retriever.Hit
                       (Tools_Retriever.Columns None None None None None None
                                                None None 0%N) [])
                    (Tools_Retriever.retrieval_query g seeds)).
  exists h.
  split; [vm_compute; reflexivity|]. split; [vm_compute; reflexivity|].
  destruct (proj1 (related_articles_share_category g seeds e) h)
    as [Hnull|Hrel].
  - apply list_elem_of_In. vm_compute. left. reflexivity.
  - apply list_elem_of_In. vm_compute. left. reflexivity.
  - discriminate Hnull.
  - exact Hrel.
Defined.

(** ** More on the search handler *)

Section code_fence.
Implicit Types s a b body tag pre post : pystr.

Lemma split_lines_nonempty s : exists l ls, split_lines s = l :: ls.
Proof.
  destruct s as [|c r]; simpl; [by eexists _, _|].
  destruct (c =? 0x0A)%N; [by eexists _, _|].
  destruct (split_lines r); by eexists _, _.
Qed.

(** [split] distributes over a line break. *)
Lemma split_lines_app a b :
  split_lines (a ++ 0x0A%N :: b) = split_lines a ++ split_lines b.
Proof.
  induction a as [|c a IH]; [done|].
  change ((c :: a) ++ 0x0A%N :: b) with (c :: (a ++ 0x0A%N :: b)).
  cbn [split_lines]. rewrite IH.
  destruct (c =? 0x0A)%N; [done|].
  destruct (split_lines_nonempty a) as (l & ls & ->). done.
Qed.

Lemma split_lines_single s : 0x0A%N ∉ s -> split_lines s = [s].
Proof.
  induction s as [|c r IH]; intros H; [done|].
  apply not_elem_of_cons in H as [Hc Hr]. cbn [split_lines].
  rewrite (proj2 (N.eqb_neq c 0x0A)) by congruence. by rewrite IH.
Qed.

(** Joining the lines of a text gives the text back. *)
Lemma join_split_lines s : join_lines (split_lines s) = s.
Proof.
  induction s as [|c r IH]; [done|]. cbn [split_lines].
  destruct (split_lines_nonempty r) as (l & ls & E). rewrite E in *.
  destruct (N.eqb_spec c 0x0A) as [->|Hne].
  - change (join_lines ([] :: l :: ls)) with (0x0A%N :: join_lines (l :: ls)).
    by rewrite IH.
  - destruct ls as [|l' ls].
    + simpl in *. by rewrite IH.
    + change (join_lines ((c :: l) :: l' :: ls))
        with (c :: (l ++ 0x0A%N :: join_lines (l' :: ls))).
      change (join_lines (l :: l' :: ls))
        with (l ++ 0x0A%N :: join_lines (l' :: ls)) in IH.
      by rewrite IH.
Qed.

Lemma lstrip_pad pre s :
  Forall (fun c => isspace c = true) pre -> lstrip (pre ++ s) = lstrip s.
Proof. induction 1 as [|c pre Hc _ IH]; [done|]. simpl. by rewrite Hc. Qed.

Lemma strip_pad pre post s :
  Forall (fun c => isspace c = true) pre ->
  Forall (fun c => isspace c = true) post ->
  clean_head s -> clean_head (reverse s) ->
  strip (pre ++ s ++ post) = s.
Proof.
  intros Hpre Hpost Hs Hr. unfold strip.
  rewrite lstrip_pad by done. destruct s as [|c s].
  - simpl. rewrite lstrip_all_space by done. done.
  - rewrite (lstrip_id ((c :: s) ++ post)) by done.
    unfold rstrip. rewrite reverse_app, lstrip_pad by by apply Forall_reverse.
    rewrite lstrip_id by done. apply reverse_involutive.
Qed.

Lemma startswith_app prefix s : startswith (prefix ++ s) prefix = true.
Proof.
  unfold startswith. apply bool_decide_eq_true_2.
  induction prefix as [|p ps IH]; simpl; [done|]. by rewrite N.eqb_refl.
Qed.

End code_fence.

(** X22.  A fenced answer is unwrapped: when the generated answer is a
    block that opens with a line of three backquotes and a tag, closes
    with a line of three backquotes and may have white space around it,
    [search] decodes the text between the two lines, trimmed. *)
Theorem strip_code_fence_unwraps (pre post tag body : pystr) :
  Forall (fun c => isspace c = true) pre ->
  Forall (fun c => isspace c = true) post ->
  0x0A%N ∉ tag ->
  app.strip_code_fence
    (pre ++ (lit "```" ++ tag ++ 0x0A%N :: body ++ 0x0A%N :: lit "```") ++ post)
  = strip body.
Proof.
  intros Hpre Hpost Htag. unfold app.strip_code_fence.
  rewrite strip_pad; [|done|done|done|].
  2:{ rewrite !reverse_app, !reverse_cons, !reverse_app.
      change (reverse (lit "```")) with (lit "```"). done. }
  rewrite startswith_app.
  rewrite (app_assoc (lit "```") tag), split_lines_app, split_lines_app.
  rewrite (split_lines_single (lit "```" ++ tag)).
  2:{ rewrite not_elem_of_app. split; [|done].
      apply (bool_decide_unpack _). by vm_compute. }
  change (split_lines (lit "```")) with [lit "```"].
  change ([lit "```" ++ tag] ++ split_lines body ++ [lit "```"])
    with ((lit "```" ++ tag) :: split_lines body ++ [lit "```"]).
  change (hd [] ((lit "```" ++ tag) :: split_lines body ++ [lit "```"]))
    with (lit "```" ++ tag).
  rewrite startswith_app.
  change (tail ((lit "```" ++ tag) :: split_lines body ++ [lit "```"]))
    with (split_lines body ++ [lit "```"]).
  destruct (split_lines_nonempty body) as (l & ls & E).
  assert (truthy (split_lines body ++ [lit "```"]) = true) as ->
    by (by rewrite E).
  rewrite last_last.
  change (strip (lit "```")) with (lit "```").
  rewrite bool_decide_eq_true_2 by done. cbn [andb].
  by rewrite removelast_last, join_split_lines.
Qed.

Lemma strip_code_fence_unwraps_witness :
  app.strip_code_fence
    (lit " " ++ (lit "```" ++ lit "json" ++ 0x0A%N :: lit "{}" ++ 0x0A%N :: lit "```")
     ++ [0x0A%N])
  = strip (lit "{}").
Proof.
  apply strip_code_fence_unwraps.
  - by repeat constructor.
  - by repeat constructor.
  - apply (bool_decide_unpack _). by vm_compute.
Defined.

Section sources.
Import app Store.

Lemma dict_get_cons {V} (k' : pystr) (v' : V) (d : list (pystr * V)) (k : pystr) :
  dict_get ((k', v') :: d) k = if decide (k' = k) then Some v' else dict_get d k.
Proof.
  unfold dict_get. cbn [list_find]. simpl.
  destruct (decide (k' = k)); [done|].
  by destruct (list_find _ d) as [[i [k0 v0]]|].
Qed.

Lemma dict_get_app_singleton {V} (d : list (pystr * V)) (k : pystr) (v : V) :
  k ∉ d.*1 -> dict_get (d ++ [(k, v)]) k = Some v.
Proof.
  induction d as [|[k' v'] d IH]; intros H.
  - simpl. rewrite dict_get_cons. by rewrite decide_True.
  - rewrite fmap_cons, not_elem_of_cons in H. destruct H as [Hne H].
    change (((k', v') :: d) ++ [(k, v)]) with ((k', v') :: (d ++ [(k, v)])).
    rewrite dict_get_cons, decide_False by done. by apply IH.
Qed.

(** [d[k] = v] then [d.get(k)] *)
Lemma dict_get_set {V} (d : list (pystr * V)) (k : pystr) (v : V) :
  dict_get (dict_set d k v) k = Some v.
Proof.
  unfold dict_set. case_bool_decide as Hin.
  - induction d as [|[k' v'] d IH]; [by apply not_elem_of_nil in Hin|].
    rewrite fmap_cons. simpl. case_bool_decide as E.
    + by rewrite dict_get_cons, decide_True.
    + rewrite dict_get_cons, decide_False by done. apply IH.
      rewrite fmap_cons in Hin. apply elem_of_cons in Hin as [Hin|Hin]; [|done].
      simpl in Hin. congruence.
  - by apply dict_get_app_singleton.
Qed.

(** [d.pop(k')] leaves the other keys alone. *)
Lemma dict_get_pop_ne {V} (d : list (pystr * V)) (k k' : pystr) :
  k <> k' -> dict_get (dict_pop d k') k = dict_get d k.
Proof.
  intros Hne. unfold dict_pop. induction d as [|[k0 v0] d IH]; [done|].
  rewrite filter_cons. simpl. destruct (decide (k0 ≠ k')) as [H|H].
  - rewrite !dict_get_cons. by rewrite IH.
  - rewrite dict_get_cons, decide_False; [done|].
    intros ->. apply H. congruence.
Qed.

Lemma dict_pop_key {V} (d : list (pystr * V)) (k : pystr) :
  k ∉ (dict_pop d k).*1.
Proof.
  unfold dict_pop. intros H.
  apply list_elem_of_fmap in H as ([k0 v0] & -> & H).
  apply list_elem_of_filter in H as [H _]. done.
Qed.

Lemma dict_set_key {V} (d : list (pystr * V)) (k : pystr) (v : V) :
  k ∈ (dict_set d k v).*1.
Proof.
  assert (is_Some (dict_get (dict_set d k v) k)) as [x Hx]
    by (by rewrite dict_get_set).
  revert Hx. generalize (dict_set d k v). intros d'.
  induction d' as [|[k0 v0] d' IH]; [done|].
  rewrite dict_get_cons, fmap_cons. destruct (decide (k0 = k)) as [->|Hne].
  - intros _. left.
  - intros H. right. by apply IH.
Qed.

Lemma dict_pop_other_key {V} (d : list (pystr * V)) (k k' : pystr) :
  k <> k' -> k ∈ d.*1 -> k ∈ (dict_pop d k').*1.
Proof.
  intros Hne H. apply list_elem_of_fmap in H as ([k0 v0] & -> & H).
  apply list_elem_of_fmap. exists (k0, v0). split; [done|].
  unfold dict_pop. by apply list_elem_of_filter.
Qed.

(** The icon of a source is the one of the category it is given. *)
Lemma convert_source_ok (source_id : nat) (source_data : json) (s : source) :
  convert_source source_id source_data = inr s ->
  id s = source_id /\ icon_of (category s) = inr (icon s).
Proof.
  unfold convert_source. destruct source_data; try done.
  unfold get. simpl.
  destruct (dict_get members (lit "category")) as [c|] eqn:E; simpl.
  - destruct (icon_of c) as [e|i] eqn:Ei; simpl; [done|].
    intros [= <-]. simpl. by split.
  - intros [= <-]. simpl. split; [done|]. by vm_compute.
Qed.

Lemma convert_sources_ok (items : list json) (st st' : list source * nat * list nat) :
  convert_sources items st = inr st' ->
  exists new,
    st'.1.1 = st.1.1 ++ new
    /\ id <$> new = seq st.1.2 (length new)
    /\ st'.1.2 = (st.1.2 + length new)%nat
    /\ st'.2 = st.2 ++ seq st.1.2 (length new)
    /\ Forall (fun s => icon_of (category s) = inr (icon s)) new.
Proof.
  revert st. induction items as [|x items IH]; intros [[srcs next] ids] H.
  - injection H as <-. exists []. simpl.
    by rewrite !app_nil_r, Nat.add_0_r.
  - cbn [convert_sources] in H. simpl in H.
    destruct (convert_source next x) as [e|s] eqn:Es; [done|]. simpl in H.
    apply convert_source_ok in Es as [Hid Hicon].
    apply IH in H as (new & H1 & H2 & H3 & H4 & H5). simpl in *.
    exists (s :: new). rewrite H1, H3, H4, <- !app_assoc. simpl.
    split; [done|]. split; [by f_equal|]. split; [lia|]. split; [done|].
    by constructor.
Qed.

Lemma convert_section_ok (st : list source * nat) (section : json)
    (r : list source * nat * json) :
  convert_section st section = inr r ->
  exists new,
    r.1.1 = st.1 ++ new
    /\ id <$> new = seq st.2 (length new)
    /\ r.1.2 = (st.2 + length new)%nat
    /\ section_source_ids r.2
       = (fun i => JInt (Z.of_nat i)) <$> seq st.2 (length new)
    /\ has_key (lit "sourceIds") r.2 = true
    /\ has_key (lit "sources") r.2 = false
    /\ Forall (fun s => icon_of (category s) = inr (icon s)) new.
Proof.
  unfold convert_section. destruct section; try done.
  unfold get. simpl.
  destruct (iterate _) as [e|items]; [done|]. simpl.
  destruct (convert_sources items (st.1, st.2, [])) as [e|st'] eqn:E; [done|].
  simpl. intros [= <-].
  apply convert_sources_ok in E as (new & H1 & H2 & H3 & H4 & H5).
  simpl in *. exists new. rewrite H1, H3, H4.
  repeat split; try done.
  - rewrite dict_get_pop_ne by (by vm_compute). by rewrite dict_get_set.
  - apply bool_decide_eq_true_2, dict_pop_other_key; [by vm_compute|].
    apply dict_set_key.
  - apply bool_decide_eq_false_2, dict_pop_key.
Qed.

Lemma convert_sections_ok (items : list json) (st : list source * nat)
    (done : list json) (r : list source * nat * list json) :
  convert_sections items st done = inr r ->
  exists new secs,
    r.1.1 = st.1 ++ new
    /\ id <$> new = seq st.2 (length new)
    /\ r.2 = done ++ secs
    /\ secs ≫= section_source_ids
       = (fun i => JInt (Z.of_nat i)) <$> seq st.2 (length new)
    /\ Forall (fun sec => has_key (lit "sourceIds") sec = true
                          /\ has_key (lit "sources") sec = false) secs
    /\ Forall (fun s => icon_of (category s) = inr (icon s)) new.
Proof.
  revert st done. induction items as [|x items IH]; intros [srcs next] done H.
  - injection H as <-. exists [], []. simpl. by rewrite !app_nil_r.
  - cbn [convert_sections] in H.
    destruct (convert_section (srcs, next) x) as [e|[[srcs1 next1] sec]] eqn:Es;
      [done|].
    simpl in H.
    apply convert_section_ok in Es as (new1 & A1 & A2 & A3 & A4 & A5 & A6 & A7).
    apply IH in H as (new2 & secs & B1 & B2 & B3 & B4 & B5 & B6).
    simpl in *. subst srcs1 next1.
    exists (new1 ++ new2), (sec :: secs).
    rewrite B1, B3, <- !app_assoc.
    rewrite fmap_app, A2, B2, length_app, seq_app, fmap_app.
    split; [done|]. split; [done|]. split; [done|]. split.
    { change ((sec :: secs) ≫= section_source_ids)
        with (section_source_ids sec ++ (secs ≫= section_source_ids)).
      by rewrite A4, B4. }
    split; [by constructor | by apply Forall_app].
Qed.

Lemma build_response_ok (loads : pystr -> result json) (answer : pystr)
    (r : response) :
  build_response loads answer = inr r ->
  id <$> sources r = seq 1 (length (sources r))
  /\ response_source_ids (sections r)
     = (fun i => JInt (Z.of_nat i)) <$> seq 1 (length (sources r))
  /\ (forall items, sections r = JArr items ->
        Forall (fun sec => has_key (lit "sourceIds") sec = true
                           /\ has_key (lit "sources") sec = false) items)
  /\ Forall (fun s => icon_of (category s) = inr (icon s)) (sources r).
Proof.
  unfold build_response.
  generalize (match loads (strip_code_fence answer) with
              | inl e =>
                print_exn e ;;
                print_text (lit "응답 내용: "
                            ++ slice (strip_code_fence answer) 0 500) ;;
                mret (fallback answer)
              | inr parsed => mret parsed
              end). intros [e|parsed]; [done|].
  unfold mbind at 1, result_bind.
  destruct (get parsed (lit "sections") (JArr [])) as [e|section_list]; [done|].
  simpl.
  destruct (iterate section_list) as [e|items] eqn:Ei; [done|]. simpl.
  destruct (convert_sections items ([], 1%nat) []) as [e|st] eqn:E; [done|].
  simpl. intros [= <-]. simpl.
  pose proof E as E'.
  apply convert_sections_ok in E' as (new & secs & H1 & H2 & H3 & H4 & H5 & H6).
  destruct st as [[srcs next] secs']. simpl in *. subst srcs secs'.
  split; [done|]. split; [|split; [|done]].
  - destruct section_list; simpl in *; try done.
    + injection Ei as <-. destruct s; [|done].
      simpl in E. injection E as <- _ <-. done.
    + injection Ei as <-. destruct members; [|done].
      simpl in E. injection E as <- _ <-. done.
  - intros items' Hitems. destruct section_list; try done.
    by injection Hitems as <-.
Qed.

End sources.

Lemma search_with_built (loads : pystr -> result json)
    (rag : option (pystr -> result pystr)) (query : pystr) (r : app.response) :
  app.search_with loads rag query = inr r ->
  exists answer, app.build_response loads answer = inr r.
Proof.
  unfold app.search_with. destruct rag as [rag_search|]; [|done].
  destruct (rag_search query) as [e|answer]; [done|]. simpl.
  destruct (app.build_response loads answer) as [e|r'] eqn:E; [done|].
  intros [= <-]. by exists answer.
Qed.

(** X23.  When [search] answers, the sources are numbered 1, 2, 3, ... in
    the order of the response; the lists [sourceIds] of the sections, one
    after the other, are exactly these numbers, so every source belongs
    to one section; and each section returned holds the key [sourceIds]
    and no longer the key [sources]. *)
Theorem search_numbers_sources
    (loads : pystr -> result json) (rag : option (pystr -> result pystr))
    (query : pystr) (r : app.response) :
  app.search_with loads rag query = inr r ->
  app.id <$> app.sources r = seq 1 (length (app.sources r))
  /\ Store.response_source_ids (app.sections r)
     = (fun i => JInt (Z.of_nat i)) <$> seq 1 (length (app.sources r))
  /\ (forall items, app.sections r = JArr items ->
        Forall (fun sec => Store.has_key (lit "sourceIds") sec = true
                           /\ Store.has_key (lit "sources") sec = false) items).
Proof.
  intros H. apply search_with_built in H as [answer H].
  apply build_response_ok in H as (H1 & H2 & H3 & _). done.
Qed.

Lemma search_numbers_sources_witness :
  app.id <$> [app.Source 1 (JStr (lit "unknown")) (JStr (lit "a")) (JStr (lit "기타"))
                (JStr []) (JStr []) (JStr []) (lit "📰");
              app.Source 2 (JStr (lit "unknown")) (JStr (lit "b")) (JStr (lit "경제"))
                (JStr []) (JStr []) (JStr []) (lit "💼")]
  = seq 1 2
  /\ Store.response_source_ids
       (JArr [JObj [(lit "title", JStr (lit "s1")); (lit "sourceIds", JArr [JInt 1])];
              JObj [(lit "title", JStr (lit "s2")); (lit "sourceIds", JArr [JInt 2])]])
     = (fun i => JInt (Z.of_nat i)) <$> seq 1 2
  /\ (forall items,
        JArr [JObj [(lit "title", JStr (lit "s1")); (lit "sourceIds", JArr [JInt 1])];
              JObj [(lit "title", JStr (lit "s2")); (lit "sourceIds", JArr [JInt 2])]]
        = JArr items ->
        Forall (fun sec => Store.has_key (lit "sourceIds") sec = true
                           /\ Store.has_key (lit "sources") sec = false) items).
Proof.
  apply (search_numbers_sources
           (fun _ => inr (JObj [(lit "sections",
              JArr [JObj [(lit "title", JStr (lit "s1"));
                          (lit "sources", JArr [JObj [(lit "title", JStr (lit "a"))]])];
                    JObj [(lit "title", JStr (lit "s2"));
                          (lit "sources",
                           JArr [JObj [(lit "title", JStr (lit "b"));
                                       (lit "category", JStr (lit "경제"))]])]])]))
           (Some (fun _ => inr (lit "answer"))) (lit "news")
           (app.Response
              (JArr [JObj [(lit "title", JStr (lit "s1")); (lit "sourceIds", JArr [JInt 1])];
                     JObj [(lit "title", JStr (lit "s2")); (lit "sourceIds", JArr [JInt 2])]])
              [app.Source 1 (JStr (lit "unknown")) (JStr (lit "a")) (JStr (lit "기타"))
                 (JStr []) (JStr []) (JStr []) (lit "📰");
               app.Source 2 (JStr (lit "unknown")) (JStr (lit "b")) (JStr (lit "경제"))
                 (JStr []) (JStr []) (JStr []) (lit "💼")])).
  vm_compute. reflexivity.
Defined.

(** X24.  When [search] answers, the icon of every source is the icon
    of the category the source is returned with: the glyph of the table
    for one of the six known categories, and the default glyph otherwise,
    also for a source that named no category and is returned with the
    category 기타. *)
Theorem search_icons_follow_categories
    (loads : pystr -> result json) (rag : option (pystr -> result pystr))
    (query : pystr) (r : app.response) :
  app.search_with loads rag query = inr r ->
  Forall (fun s => app.icon_of (app.category s) = inr (app.icon s))
         (app.sources r).
Proof.
  intros H. apply search_with_built in H as [answer H].
  apply build_response_ok in H as (_ & _ & _ & H). done.
Qed.

Lemma search_icons_follow_categories_witness :
  Forall (fun s => app.icon_of (app.category s) = inr (app.icon s))
         [app.Source 1 (JStr (lit "unknown")) (JStr (lit "a")) (JStr (lit "기타"))
            (JStr []) (JStr []) (JStr []) (lit "📰");
          app.Source 2 (JStr (lit "unknown")) (JStr (lit "b")) (JStr (lit "경제"))
            (JStr []) (JStr []) (JStr []) (lit "💼")].
Proof.
  apply (search_icons_follow_categories
           (fun _ => inr (JObj [(lit "sections",
              JArr [JObj [(lit "title", JStr (lit "s1"));
                          (lit "sources", JArr [JObj [(lit "title", JStr (lit "a"))]])];
                    JObj [(lit "title", JStr (lit "s2"));
                          (lit "sources",
                           JArr [JObj [(lit "title", JStr (lit "b"));
                                       (lit "category", JStr (lit "경제"))]])]])]))
           (Some (fun _ => inr (lit "answer"))) (lit "news")
           (app.Response
              (JArr [JObj [(lit "title", JStr (lit "s1")); (lit "sourceIds", JArr [JInt 1])];
                     JObj [(lit "title", JStr (lit "s2")); (lit "sourceIds", JArr [JInt 2])]])
              [app.Source 1 (JStr (lit "unknown")) (JStr (lit "a")) (JStr (lit "기타"))
                 (JStr []) (JStr []) (JStr []) (lit "📰");
               app.Source 2 (JStr (lit "unknown")) (JStr (lit "b")) (JStr (lit "경제"))
                 (JStr []) (JStr []) (JStr []) (lit "💼")])).
  vm_compute. reflexivity.
Defined.

(** ** Data_Scrapping.py: the links gathered from a category page *)

Section scraping.
Import Data_Scrapping.
Implicit Types (links : list pystr) (elements : list element).
Implicit Types (urls : list (option pystr)) (n : Z).

Lemma wanted_true url links :
  wanted url links = true ->
  exists u, url = Some u /\ article_address u /\ u ∉ links.
Proof.
  destruct url as [u|]; [|done]. simpl.
  rewrite !andb_true_iff, !negb_true_iff, bool_decide_eq_false.
  intros [[[[H1 H2] H3] H4] H5]. exists u. split; [done|]. split; [|done].
  split; [by destruct u|]. done.
Qed.

Lemma append_wanted url links :
  wanted url links = true ->
  exists u, url = Some u /\ append links url = links ++ [u]
            /\ article_address u /\ u ∉ links.
Proof.
  intros H. apply wanted_true in H as (u & -> & Ha & Hn). by exists u.
Qed.

(** The inner loop only appends, and what it appends are new accepted
    addresses of the elements. *)
Lemma scan_elements_appends n elements links :
  exists new,
    (scan_elements n elements links).1 = links ++ new
    /\ (NoDup links -> NoDup (links ++ new))
    /\ Forall article_address new
    /\ Forall (fun u => inr (Some u) ∈ elements) new.
Proof.
  revert links. induction elements as [|el elements IH]; intros links.
  - exists []. by rewrite app_nil_r.
  - assert (forall links0, exists new,
              (scan_elements n elements links0).1 = links0 ++ new
              /\ (NoDup links0 -> NoDup (links0 ++ new))
              /\ Forall article_address new
              /\ Forall (fun u => inr (Some u) ∈ el :: elements) new) as IH'.
    { intros links0. destruct (IH links0) as (new & H1 & H2 & H3 & H4).
      exists new. repeat split; try done.
      eapply Forall_impl; [exact H4|]. intros u Hu. by right. }
    cbn [scan_elements]. destruct el as [e|url].
    { exists []. by rewrite app_nil_r. }
    destruct (wanted url links) eqn:Hw; [|apply IH'].
    apply append_wanted in Hw as (u & -> & -> & Ha & Hn).
    assert (NoDup links -> NoDup (links ++ [u])) as Hnd.
    { intros H. apply NoDup_app. split; [done|]. split; [|apply NoDup_singleton].
      intros x Hx Hx'. apply list_elem_of_singleton in Hx'. by subst. }
    destruct (n <=? len (links ++ [u])).
    + exists [u]. split; [done|]. split; [done|].
      split; [by constructor|]. constructor; [left|constructor].
    + destruct (IH' (links ++ [u])) as (new & H1 & H2 & H3 & H4).
      exists (u :: new). rewrite H1, <- app_assoc. split; [done|]. split.
      * intros H. change (u :: new) with ([u] ++ new).
        rewrite (app_assoc links [u] new). auto.
      * split; [by constructor|]. constructor; [left|done].
Qed.

Lemma scan_elements_stops n elements links :
  n <= len links + 1 ->
  len (scan_elements n elements links).1 <= len links + 1.
Proof.
  intros Hn. induction elements as [|el elements IH]; simpl; [lia|].
  destruct el as [e|url]; simpl; [lia|].
  destruct (wanted url links) eqn:Hw; [|done].
  apply append_wanted in Hw as (u & -> & -> & _).
  assert (len (links ++ [u]) = len links + 1) as Hlen
    by (unfold len; rewrite length_app; simpl; lia).
  rewrite (proj2 (Z.leb_le n (len (links ++ [u])))) by lia.
  simpl. lia.
Qed.

Lemma scan_selectors_appends find_elements n (sels : list pystr) links :
  exists new,
    (scan_selectors find_elements n sels links).1 = links ++ new
    /\ (NoDup links -> NoDup (links ++ new))
    /\ Forall article_address new
    /\ Forall (on_page find_elements sels) new.
Proof.
  revert links. induction sels as [|sel sels IH]; intros links.
  - exists []. by rewrite app_nil_r.
  - cbn [scan_selectors].
    destruct (find_elements sel) as [e|elements] eqn:Ef.
    { exists []. by rewrite app_nil_r. }
    destruct (scan_elements_appends n elements links) as (new1 & A1 & A2 & A3 & A4).
    destruct (scan_elements n elements links) as [links1 [e|]] eqn:Es;
      simpl in A1; subst links1.
    { exists new1. repeat split; try done.
      eapply Forall_impl; [exact A4|]. intros u Hu.
      exists sel, elements. split; [left|done]. }
    assert (Forall (on_page find_elements (sel :: sels)) new1) as A4'.
    { eapply Forall_impl; [exact A4|]. intros u Hu.
      exists sel, elements. split; [left|done]. }
    destruct (n <=? len (links ++ new1)); [by exists new1|].
    destruct (IH (links ++ new1)) as (new2 & B1 & B2 & B3 & B4).
    exists (new1 ++ new2). rewrite B1, <- app_assoc. repeat split; try done.
    + intros H. rewrite app_assoc. auto.
    + by apply Forall_app.
    + apply Forall_app. split; [done|].
      eapply Forall_impl; [exact B4|].
      intros u (s & els & Hs & Hf & Hu). exists s, els. split; [by right|done].
Qed.

Lemma scan_selectors_stops find_elements n (sels : list pystr) :
  n <= 0 -> len (scan_selectors find_elements n sels []).1 <= 1.
Proof.
  intros Hn. destruct sels as [|sel sels]; simpl; [done|].
  destruct (find_elements sel) as [e|elements]; simpl; [done|].
  pose proof (scan_elements_stops n elements [] ltac:(unfold len; simpl; lia))
    as Hs.
  change (len (@nil pystr) + 1) with 1 in Hs.
  destruct (scan_elements n elements []) as [links1 [e|]]; simpl in *; [done|].
  rewrite (proj2 (Z.leb_le n (len links1))) by (unfold len; lia). done.
Qed.

Lemma slice_head_length {A} (l : list A) (n : Z) :
  0 <= n \/ len l <= 1 -> Z.of_nat (length (slice l 0 n)) <= Z.max 0 n.
Proof.
  intros [Hn|Hl].
  - replace n with (0 + n) at 1 by lia.
    rewrite (slice_take_drop l 0 n) by lia. rewrite length_take. lia.
  - unfold slice, slice_bound, len in *. rewrite length_take, length_drop.
    destruct (Z.ltb_spec n 0); simpl; lia.
Qed.

Lemma slice_sublist {A} (l : list A) (i j : Z) : slice l i j `sublist_of` l.
Proof.
  unfold slice. etrans; [apply sublist_take|apply sublist_drop].
Qed.

End scraping.

(** X25.  Once the category page is loaded, [get_article_links] always
    returns a list, also when looking up the elements or reading an
    address raises, and prints one line.  The list holds no address
    twice; each address is not empty, contains [news.naver.com] and
    [/article/] and does not contain [/comment/]; each is the [href] of
    an element found by one of the five selectors; and there are at most
    [num_articles] of them (none when [num_articles] is negative). *)
Theorem get_article_links_returns
    (driver_get : pystr -> result unit)
    (find_elements : pystr -> result (list Data_Scrapping.element))
    (category_url : pystr) (num_articles : Z) :
  driver_get category_url = inr tt ->
  exists links out,
    Data_Scrapping.get_article_links driver_get find_elements
                                     category_url num_articles
    = (inr links, [out])
    /\ NoDup links
    /\ Forall Data_Scrapping.article_address links
    /\ Forall (fun u => exists selector elements,
                 selector ∈ Data_Scrapping.selectors
                 /\ find_elements selector = inr elements
                 /\ inr (Some u) ∈ elements) links
    /\ Z.of_nat (length links) <= Z.max 0 num_articles.
Proof.
  intros Hget. unfold Data_Scrapping.get_article_links. rewrite Hget.
  destruct (scan_selectors_appends find_elements num_articles
              Data_Scrapping.selectors []) as (new & H1 & H2 & H3 & H4).
  rewrite app_nil_l in H1. cbv zeta. eexists _, _. split; [reflexivity|].
  rewrite H1.
  pose proof (slice_sublist new 0 num_articles) as Hsub.
  split; [|split; [|split]].
  - eapply sublist_NoDup; [|exact Hsub]. apply H2, NoDup_nil_2.
  - rewrite Forall_forall in H3. apply Forall_forall. intros u Hu.
    apply H3. by apply (sublist_subseteq _ _ Hsub).
  - rewrite Forall_forall in H4. apply Forall_forall. intros u Hu.
    apply H4. by apply (sublist_subseteq _ _ Hsub).
  - apply slice_head_length.
    destruct (Z.le_gt_cases 0 num_articles); [by left|right].
    rewrite <- H1. apply scan_selectors_stops. lia.
Qed.

Lemma get_article_links_returns_witness :
  let find_elements : pystr -> result (list Data_Scrapping.element) :=
    fun selector =>
      if bool_decide (selector = lit "a.sa_text_lede")
      then inr [inr (Some (lit "https://n.news.naver.com/article/001/0000000001"));
                inr None;
                inr (Some (lit "https://n.news.naver.com/article/comment/001/1"));
                inr (Some (lit "https://n.news.naver.com/article/001/0000000001"));
                inl AttributeError]
      else inr [] in
  exists links out,
    Data_Scrapping.get_article_links
      (fun _ => inr tt) find_elements
      (lit "https://news.naver.com/section/100") 10
    = (inr links, [out])
    /\ NoDup links
    /\ Forall Data_Scrapping.article_address links
    /\ Forall (fun u => exists selector elements,
                 selector ∈ Data_Scrapping.selectors
                 /\ find_elements selector = inr elements
                 /\ inr (Some u) ∈ elements) links
    /\ Z.of_nat (length links) <= Z.max 0 10.
Proof.
  intros find_elements.
  apply (get_article_links_returns
           (fun _ => inr tt) find_elements
           (lit "https://news.naver.com/section/100") 10).
  reflexivity.
Defined.

Section scraping_exact.
Import Data_Scrapping.
Implicit Types (links : list pystr) (urls : list (option pystr)) (n : Z).

Lemma collect_cons links url urls :
  collect links (url :: urls)
  = collect (if wanted url links then append links url else links) urls.
Proof. done. Qed.

Lemma collect_prefix links urls : exists t, collect links urls = links ++ t.
Proof.
  revert links. induction urls as [|url urls IH]; intros links.
  - exists []. by rewrite app_nil_r.
  - rewrite collect_cons. destruct (wanted url links).
    + destruct (IH (append links url)) as [t ->]. unfold append.
      eexists. by rewrite <- app_assoc.
    + apply IH.
Qed.

Lemma collect_app links urls1 urls2 :
  collect links (urls1 ++ urls2) = collect (collect links urls1) urls2.
Proof. unfold collect. apply foldl_app. Qed.

Lemma take_prefix_full {A} (k : nat) (l t : list A) :
  (k <= length l)%nat -> take k (l ++ t) = take k l.
Proof.
  intros H. rewrite take_app.
  replace (k - length l)%nat with 0%nat by lia. by rewrite take_0, app_nil_r.
Qed.

(** Without an error, the inner loop gathers the first accepted
    addresses, up to the number asked for. *)
Lemma scan_elements_exact n urls links :
  len links < n ->
  scan_elements n (inr <$> urls) links
  = (take (Z.to_nat n) (collect links urls), None).
Proof.
  unfold len. revert links. induction urls as [|url urls IH]; intros links Hn.
  - simpl. rewrite take_ge by lia. done.
  - rewrite fmap_cons, collect_cons. cbn [scan_elements].
    destruct (wanted url links) eqn:Hw; [|by apply IH].
    apply append_wanted in Hw as (u & -> & -> & _).
    assert (length (links ++ [u]) = S (length links)) as Hlen
      by (rewrite length_app; simpl; lia).
    unfold len. destruct (Z.leb_spec n (Z.of_nat (length (links ++ [u])))).
    + destruct (collect_prefix (links ++ [u]) urls) as [t ->].
      rewrite take_prefix_full by lia. rewrite take_ge by lia. done.
    + apply IH. lia.
Qed.

Lemma scan_selectors_exact find_elements n (sels : list pystr)
    (pages : list (list (option pystr))) links :
  len links < n ->
  Forall2 (fun selector urls => find_elements selector = inr (inr <$> urls))
          sels pages ->
  (scan_selectors find_elements n sels links).1
  = take (Z.to_nat n) (collect links (concat pages)).
Proof.
  unfold len. intros Hn H. revert links Hn.
  induction H as [|sel urls sels pages Hf _ IH]; intros links Hn.
  - simpl. rewrite take_ge by lia. done.
  - cbn [scan_selectors concat]. rewrite Hf.
    rewrite scan_elements_exact by (unfold len; lia).
    rewrite collect_app.
    unfold len. rewrite length_take.
    destruct (Z.leb_spec n (Z.of_nat (Z.to_nat n `min` length (collect links urls)))).
    + simpl. destruct (collect_prefix (collect links urls) (concat pages))
        as [t ->].
      rewrite take_prefix_full by lia. done.
    + rewrite (take_ge (collect links urls)) by lia. apply IH. lia.
Qed.

End scraping_exact.

(** X26.  When the page is loaded and nothing raises,
    [get_article_links] returns the first [num_articles] accepted
    addresses of the page, in the order of the five selectors and of the
    elements each one finds, an address that comes again being skipped;
    it returns all of them when there are fewer, and none when
    [num_articles] is zero or negative. *)
Theorem get_article_links_first_links
    (driver_get : pystr -> result unit)
    (find_elements : pystr -> result (list Data_Scrapping.element))
    (category_url : pystr) (num_articles : Z)
    (pages : list (list (option pystr))) :
  driver_get category_url = inr tt ->
  Forall2 (fun selector urls => find_elements selector = inr (inr <$> urls))
          Data_Scrapping.selectors pages ->
  (Data_Scrapping.get_article_links driver_get find_elements
                                    category_url num_articles).1
  = inr (take (Z.to_nat num_articles)
              (Data_Scrapping.collect [] (concat pages))).
Proof.
  intros Hget Hpages. unfold Data_Scrapping.get_article_links.
  rewrite Hget. cbv zeta. cbn [fst]. f_equal.
  destruct (Z.le_gt_cases num_articles 0) as [Hn|Hn].
  - replace (Z.to_nat num_articles) with 0%nat by lia. rewrite take_0.
    pose proof (scan_selectors_stops find_elements num_articles
                  Data_Scrapping.selectors Hn) as Hstop.
    pose proof (slice_head_length _ num_articles (or_intror Hstop)) as Hlen.
    destruct (slice _ 0 num_articles); [done|].
    cbn [length] in Hlen. lia.
  - rewrite (scan_selectors_exact find_elements num_articles
               Data_Scrapping.selectors pages []) by (unfold len; simpl; lia || done).
    replace num_articles with (0 + num_articles) at 2 by lia.
    rewrite slice_take_drop by lia. change (Z.to_nat 0) with 0%nat.
    by rewrite drop_0, take_take, Nat.min_id.
Qed.

Lemma get_article_links_first_links_witness :
  (Data_Scrapping.get_article_links
     (fun _ => inr tt)
     (fun selector =>
        if bool_decide (selector = lit "a.sa_text_lede")
        then inr [inr (Some (lit "https://n.news.naver.com/article/001/0000000001"));
                  inr (Some (lit "https://n.news.naver.com/article/comment/001/1"));
                  inr (Some (lit "https://n.news.naver.com/article/001/0000000002"))]
        else inr [inr (Some (lit "https://n.news.naver.com/article/001/0000000001"));
                  inr (Some (lit "https://n.news.naver.com/article/001/0000000003"))])
     (lit "https://news.naver.com/section/100") 2).1
  = inr [lit "https://n.news.naver.com/article/001/0000000001";
         lit "https://n.news.naver.com/article/001/0000000002"].
Proof.
  refine (get_article_links_first_links
           (fun _ => inr tt)
           (fun selector =>
              if bool_decide (selector = lit "a.sa_text_lede")
              then inr [inr (Some (lit "https://n.news.naver.com/article/001/0000000001"));
                        inr (Some (lit "https://n.news.naver.com/article/comment/001/1"));
                        inr (Some (lit "https://n.news.naver.com/article/001/0000000002"))]
              else inr [inr (Some (lit "https://n.news.naver.com/article/001/0000000001"));
                        inr (Some (lit "https://n.news.naver.com/article/001/0000000003"))])
           (lit "https://news.naver.com/section/100") 2
           [[Some (lit "https://n.news.naver.com/article/001/0000000001");
             Some (lit "https://n.news.naver.com/article/comment/001/1");
             Some (lit "https://n.news.naver.com/article/001/0000000002")];
            [Some (lit "https://n.news.naver.com/article/001/0000000001");
             Some (lit "https://n.news.naver.com/article/001/0000000003")];
            [Some (lit "https://n.news.naver.com/article/001/0000000001");
             Some (lit "https://n.news.naver.com/article/001/0000000003")];
            [Some (lit "https://n.news.naver.com/article/001/0000000001");
             Some (lit "https://n.news.naver.com/article/001/0000000003")];
            [Some (lit "https://n.news.naver.com/article/001/0000000001");
             Some (lit "https://n.news.naver.com/article/001/0000000003")]]
           _ _).
  - reflexivity.
  - repeat constructor.
Defined.

(** X27.  A text no longer than the stride is not cut: for
    [0 <= overlap] and a text of at most [chunk_size - overlap]
    characters, [chunk_text] returns the trimmed text as the only
    fragment, and no fragment when the text is blank. *)
Theorem chunk_text_short_text (text : pystr) (chunk_size overlap : Z) :
  text <> [] ->
  0 <= overlap ->
  len text <= chunk_size - overlap ->
  Graph_Build.chunk_text (PStr text) chunk_size overlap
  = inr (if bool_decide (strip text = []) then [] else [strip text]).
Proof.
  intros Htext Hov Hlen.
  assert (0 < len text) as Hpos by (unfold len; destruct text; simpl; [done|lia]).
  rewrite chunk_text_windows by lia.
  assert (windows text chunk_size overlap = [text]) as ->.
  { unfold windows, range, range_len.
    destruct (Z.eqb_spec (chunk_size - overlap) 0); [lia|].
    destruct (Z.ltb_spec 0 (chunk_size - overlap)); [|lia].
    destruct (Z.ltb_spec 0 (len text)); [|lia].
    rewrite Z.div_small by lia. simpl. f_equal.
    unfold Graph_Build.window. rewrite slice_take_drop by lia.
    simpl. apply take_ge. unfold len in *. lia. }
  rewrite filter_cons, filter_nil. unfold blank.
  case_bool_decide as E.
  - by rewrite decide_False by (by intros H; apply H).
  - by rewrite decide_True.
Qed.

Lemma chunk_text_short_text_witness :
  Graph_Build.chunk_text (PStr (lit "  short article ")) 500 50
  = inr [lit "short article"].
Proof.
  apply (chunk_text_short_text (lit "  short article ") 500 50).
  - discriminate.
  - lia.
  - vm_compute. discriminate.
Defined.
